(** * Colour ASCII video converter: a shallow embedding and its properties

    The development embeds the converter of [miku.cpp]: the glyph ramp, the
    luminance quantisation of [getASCIIChar], the grid sizing and the driver
    loop of [convertToColorASCII], the rasteriser loop of
    [generateColorASCIIFrame] and the argument handling of [main]. The
    program exists in two variants, one with its constants in the namespace
    [ASCIIVideoConstants] and four candidate codecs, one with inline literals
    and two candidates; the first is embedded in full, and of the second the
    step in which it differs, the opening of the writer.

    - [int] and [size_t] are integers of [Z] with their wrap-around written out;
    - [double] is IEEE-754 binary64, taken from the bit-level specification
      [SpecFloat] of the standard library (precision 53, [emax] 1024);
    - undefined behaviour (a cast of a double that is no [int], a division by
      zero, an index beyond a string) is the result [None];
    - OpenCV (decoding, [cv::resize], [cv::putText], encoding) is an external
      collaborator: the file system and the codecs are a [World] record, the
      image operations a type class, and every call is logged as an event. *)

From Stdlib Require Import ZArith Lia Bool List String Ascii QArith Qround Qpower.
From Stdlib Require Import SpecFloat.
Import ListNotations.
Local Open Scope Z_scope.

(** ** Machine integers *)

Definition INT_MIN : Z := - 2 ^ 31.
Definition INT_MAX : Z := 2 ^ 31 - 1.

(** Two's-complement reduction to a 32-bit [int]; this is what the compiled
    code computes where C++ leaves signed overflow undefined, and what the
    conversion of an out-of-range [size_t] to [int] yields. *)
Definition wrap_int (z : Z) : Z := (z + 2 ^ 31) mod 2 ^ 32 - 2 ^ 31.

(** Reduction modulo [2^64], the arithmetic of [size_t]. *)
Definition wrap_size_t (z : Z) : Z := z mod 2 ^ 64.

Definition int_add (a b : Z) : Z := wrap_int (a + b).
Definition int_sub (a b : Z) : Z := wrap_int (a - b).
Definition int_mul (a b : Z) : Z := wrap_int (a * b).
(** [a / b] on [int]: the quotient truncated towards zero ([b] is not 0). *)
Definition int_div (a b : Z) : Z := wrap_int (Z.quot a b).
(** [a % b] on [int]: the remainder has the sign of the dividend. *)
Definition int_rem (a b : Z) : Z := Z.rem a b.

(** ** Binary64 floating point *)

Definition double : Type := spec_float.

Definition prec : Z := 53.
Definition emax : Z := 1024.

(** The values of type [double]: a canonical mantissa and a bounded exponent. *)
Definition is_double (x : double) : Prop := valid_binary prec emax x = true.

Definition dmul : double -> double -> double := SFmul prec emax.
Definition dadd : double -> double -> double := SFadd prec emax.
Definition ddiv : double -> double -> double := SFdiv prec emax.
Definition dlt : double -> double -> bool := SFltb.
Definition dle : double -> double -> bool := SFleb.

(** Conversion of an integer to [double] (round to nearest, ties to even). *)
Definition double_of_Z (n : Z) : double := binary_normalize prec emax n 0 false.

(** The literals [0.0], [1.0], [0.5], [100.0] and [255.0]. *)
Definition d0 : double := S754_zero false.
Definition d1 : double := S754_finite false 4503599627370496 (-52).
Definition d0_5 : double := S754_finite false 4503599627370496 (-53).
Definition d100 : double := double_of_Z 100.
Definition d255 : double := double_of_Z 255.

(** A decimal literal [n / 10^k] denotes the double nearest to it, which is
    the correctly rounded quotient of the two exactly representable integers. *)
Definition decimal (n : Z) (k : Z) : double :=
  ddiv (double_of_Z n) (double_of_Z (10 ^ k)).

(** [std::min(a, b)] is [(b < a) ? b : a] and [std::max(a, b)] is
    [(a < b) ? b : a]. *)
Definition std_min (a b : double) : double := if dlt b a then b else a.
Definition std_max (a b : double) : double := if dlt a b then b else a.

(** The integer part of a double, towards zero and towards minus infinity. *)
Definition SFtrunc (x : double) : Z :=
  match x with
  | S754_finite s m e => cond_Zopp s (Z.shiftl (Zpos m) e)
  | _ => 0
  end.

Definition SFfloor (x : double) : Z :=
  match x with
  | S754_finite s m e => Z.shiftl (cond_Zopp s (Zpos m)) e
  | _ => 0
  end.

(** [static_cast<int>(x)]: the fractional part is discarded; the behaviour is
    undefined ([None]) when the result does not fit an [int], hence also for
    infinities and NaN. *)
Definition double_to_int (x : double) : option Z :=
  match x with
  | S754_nan | S754_infinity _ => None
  | _ => let t := SFtrunc x in
         if (INT_MIN <=? t) && (t <=? INT_MAX) then Some t else None
  end.

(** The exact value of a finite double as a rational number. *)
Definition SF2Q (x : double) : Q :=
  match x with
  | S754_finite s m e => (inject_Z (cond_Zopp s (Zpos m)) * Qpower 2 e)%Q
  | _ => 0%Q
  end.

(** *** Rounding to nearest even on integers

    [Zrne m k] rounds [m / 2^k] to the nearest integer, ties to even;
    [Zround t X] rounds the integer [X] to 53 significant bits, never below
    the bit of weight [2^t] (the scaled position of the least subnormal). *)
Definition Zrne (m k : Z) : Z :=
  let q := m / 2 ^ k in
  let rem := m mod 2 ^ k in
  let half := 2 ^ (k - 1) in
  if rem <? half then q
  else if half <? rem then q + 1
  else if Z.even q then q else q + 1.

Definition Zround (t X : Z) : Z :=
  let g := Z.max (Z.log2 X + 1 - 53) t in
  if g <=? 0 then X else Zrne X g * 2 ^ g.

(** [represents c x V]: the non-negative double [x] has the value [V * 2^c]. *)
Definition represents (c : Z) (x : double) (V : Z) : Prop :=
  match x with
  | S754_zero _ => V = 0
  | S754_finite false m e => c <= e /\ V = Zpos m * 2 ^ (e - c)
  | _ => False
  end.

(** A mantissa of at most 53 bits, as every result of a rounding has. *)
Definition mant_ok (x : double) : Prop :=
  match x with
  | S754_finite _ m _ => Zpos m < 2 ^ 53
  | _ => True
  end.

(** [unit_pos m e]: the positive double of mantissa [m] and exponent [e] has
    a mantissa of at most 53 bits and a value of at most 1. *)
Definition unit_pos (m : positive) (e : Z) : Prop :=
  Zpos m < 2 ^ 53 /\ e <= 0 /\ Zpos m <= 2 ^ (- e).

(** ** Constants of the program *)

Module ASCIIVideoConstants.

Definition dquote : ascii := ascii_of_nat 34.

(** The glyph ramp, from the sparsest glyph to the densest. *)
Definition ASCII_CHARS : string :=
  (" .'`^" ++ String dquote
     ",:;Il!i><~+_-?][}{1)(|\/tfjrxnuvczXYUJCLQ0OZmwqpdbkhao*#MW&8%B@$")%string.

Definition DEFAULT_ASCII_WIDTH : Z := 80.
Definition MIN_ASCII_WIDTH : Z := 20.
Definition MAX_ASCII_WIDTH : Z := 300.
Definition ASCII_CHAR_WIDTH : Z := 6.
Definition ASCII_CHAR_HEIGHT : Z := 12.
Definition ASCII_FONT_SIZE : double := decimal 3 1.
Definition RED_WEIGHT : double := decimal 299 3.
Definition GREEN_WEIGHT : double := decimal 587 3.
Definition BLUE_WEIGHT : double := decimal 114 3.

End ASCIIVideoConstants.
Import ASCIIVideoConstants.

(** ** Images *)

(** [cv::Vec3b]: three 8-bit channels in the order blue, green, red. *)
Record Vec3b : Type := mkVec3b { ch0 : Z; ch1 : Z; ch2 : Z }.

Record Scalar : Type := mkScalar { sc0 : Z; sc1 : Z; sc2 : Z }.
Record Point : Type := mkPoint { px : Z; py : Z }.
Record Size : Type := mkSize { sz_width : Z; sz_height : Z }.

(** [cv::Mat] of type [CV_8UC3]: its dimensions and the pixel of each
    position ([at_ y x] is [at<cv::Vec3b>(y, x)]). *)
Record Mat : Type := mkMat { rows : Z; cols : Z; at_ : Z -> Z -> Vec3b }.

Definition black : Vec3b := mkVec3b 0 0 0.

(** [cv::Mat(r, c, CV_8UC3, cv::Scalar(0, 0, 0))]. *)
Definition Mat_black (r c : Z) : Mat := mkMat r c (fun _ _ => black).

(** [Mat::empty()]: there is no element. *)
Definition Mat_empty (m : Mat) : bool := (rows m <=? 0) || (cols m <=? 0).

(** The result of reading past the end of a stream. *)
Definition Mat_none : Mat := mkMat 0 0 (fun _ _ => black).

Inductive FontFace : Type := FONT_HERSHEY_SIMPLEX.
Inductive LineType : Type := LINE_AA.
Inductive Interpolation : Type := INTER_AREA.

(** One call of [cv::putText]. *)
Record DrawCall : Type := mkDraw {
  dc_text : string;
  dc_org : Point;
  dc_font : FontFace;
  dc_scale : double;
  dc_color : Scalar;
  dc_thickness : Z;
  dc_line : LineType
}.

(** The image operations of OpenCV the converter relies on. [touches d y x]
    tells whether drawing [d] may change the pixel of row [y], column [x]. *)
Class ImageOps : Type := {
  resize : Mat -> Size -> Interpolation -> Mat;
  putText : Mat -> DrawCall -> Mat;
  touches : DrawCall -> Z -> Z -> bool
}.

(** What the converter assumes of them: [resize] returns an image of the
    size asked for, [putText] draws in place. *)
Class ImageOpsLaws (ops : ImageOps) : Prop := {
  resize_cols : forall m s i, 0 < sz_width s -> 0 < sz_height s ->
    cols (resize m s i) = sz_width s;
  resize_rows : forall m s i, 0 < sz_width s -> 0 < sz_height s ->
    rows (resize m s i) = sz_height s;
  putText_rows : forall m d, rows (putText m d) = rows m;
  putText_cols : forall m d, cols (putText m d) = cols m;
  putText_frame : forall m d y x, touches d y x = false ->
    at_ (putText m d) y x = at_ m y x
}.

(** ** The glyph mapper *)

(** [s[i]] on a [std::string]: the character at [i], the terminating null
    character at [i = s.length()], undefined beyond. *)
Definition string_at (s : string) (i : Z) : option ascii :=
  if i <? 0 then None
  else match String.get (Z.to_nat i) s with
       | Some c => Some c
       | None => if i =? Z.of_nat (String.length s) then Some zero else None
       end.

(** The body of [getASCIIChar] up to the final look-up, for a ramp of [len]
    characters:
    - [brightness = std::max(0.0, std::min(1.0, brightness))];
    - [index = static_cast<int>(brightness * (len - 1))], where [len - 1] is
      a [size_t] converted to [double];
    - [index = std::max(0, std::min(static_cast<int>(len - 1), index))]. *)
Definition clamp_brightness (brightness : double) : double :=
  std_max d0 (std_min d1 brightness).

Definition glyphIndex (len : Z) (brightness : double) : option Z :=
  let brightness := clamp_brightness brightness in
  let last := wrap_size_t (len - 1) in
  match double_to_int (dmul brightness (double_of_Z last)) with
  | None => None
  | Some index => Some (Z.max 0 (Z.min (wrap_int last) index))
  end.

Definition getASCIIChar (currentCharset : string) (brightness : double)
  : option ascii :=
  match glyphIndex (Z.of_nat (String.length currentCharset)) brightness with
  | None => None
  | Some index => string_at currentCharset index
  end.

(** The formula of the specification, [clamp(floor(b * (N - 1)), 0, N - 1)],
    the product being the one of [double]. *)
Definition clamp (v lo hi : Z) : Z := Z.max lo (Z.min v hi).

Definition glyphIndex_spec (N : Z) (b : double) : Z :=
  clamp (SFfloor (dmul b (double_of_Z (N - 1)))) 0 (N - 1).

(** The same formula with the product taken exactly, over the rationals. *)
Definition glyphIndex_exact (N : Z) (b : double) : Z :=
  clamp (Qfloor (SF2Q b * inject_Z (N - 1))) 0 (N - 1).

(** The brightness of a pixel in [generateColorASCIIFrame]:
    [(RED_WEIGHT * pixel[2] + GREEN_WEIGHT * pixel[1] + BLUE_WEIGHT * pixel[0]) / 255.0]. *)
Definition luminance (pixel : Vec3b) : double :=
  ddiv (dadd (dadd (dmul RED_WEIGHT (double_of_Z (ch2 pixel)))
                   (dmul GREEN_WEIGHT (double_of_Z (ch1 pixel))))
             (dmul BLUE_WEIGHT (double_of_Z (ch0 pixel))))
       d255.

(** ** Grid sizing *)

(** [static_cast<int>((asciiWidth * originalHeight / originalWidth) * 0.5)]:
    the product and the quotient are on [int], the quotient is converted to
    [double], halved and truncated. Dividing by zero is undefined. *)
Definition asciiHeight_of (asciiWidth originalWidth originalHeight : Z)
  : option Z :=
  if originalWidth =? 0 then None
  else double_to_int
         (dmul (double_of_Z
                  (int_div (int_mul asciiWidth originalHeight) originalWidth))
               d0_5).

(** The formula of the specification, over the rationals:
    [floor(asciiWidth * originalHeight / originalWidth * 0.5)]. *)
Definition asciiHeight_spec (asciiWidth originalWidth originalHeight : Z) : Z :=
  Qfloor (inject_Z asciiWidth * inject_Z originalHeight / inject_Z originalWidth
          * (1 # 2))%Q.

(** ** The environment and the event log *)

(** A video as [cv::VideoCapture] presents it: the properties queried once
    after opening (already cast to [int] where the code casts them) and the
    frames of the stream in order. *)
Record Video : Type := mkVideo {
  v_fps : double;
  v_frame_count : Z;
  v_width : Z;
  v_height : Z;
  v_frames : list Mat
}.

(** The world outside the program: which paths hold a readable video, and
    for which codec [writer.open(path, fourcc, fps, size)] succeeds. *)
Record World : Type := mkWorld {
  video_at : string -> option Video;
  writer_opens : string -> Z -> double -> Size -> bool
}.

(** What the program prints; numbers are kept as numbers. *)
Inductive Message : Type :=
| MsgCannotOpenVideo (path : string)
| MsgVideoInfo (width height : Z) (fps : double) (totalFrames : Z)
| MsgOutputSize (width height : Z)
| MsgGrid (asciiWidth asciiHeight : Z)
| MsgCharsetSize (n : Z)
| MsgCodec (fourcc : Z)
| MsgCannotCreateOutput (path : string)
| MsgStart
| MsgCharsetTest (charset : string) (n : Z)
| MsgCharBrightness (c : ascii) (brightness : double)
| MsgPixel (x y : Z) (brightness : double) (c : ascii)
| MsgProgress (frameCount totalFrames : Z) (percent : double)
| MsgDone (frameCount : Z)
| MsgOutputFile (path : string)
| MsgUsage (program : string)
| MsgWidthRange (lo hi : Z)
| MsgBanner
| MsgSuccess (path : string)
| MsgFailure.

Inductive Event : Type :=
| EvOpenVideo (path : string) (ok : bool)
| EvOpenWriter (path : string) (fourcc : Z) (fps : double) (size : Size) (ok : bool)
| EvRead
| EvWrite (frame : Mat)
| EvReleaseCapture
| EvReleaseWriter
| EvOut (m : Message)
| EvErr (m : Message).

(** The events that touch a file. *)
Definition is_file_event (e : Event) : bool :=
  match e with
  | EvOut _ | EvErr _ => false
  | _ => true
  end.

(** The frames handed to the writer, in the order of the calls. *)
Definition written_frames (evs : list Event) : list Mat :=
  flat_map (fun e => match e with EvWrite f => [f] | _ => [] end) evs.

(** The codecs tried, in the order of the calls, with the outcome of each. *)
Definition codecs_tried (evs : list Event) : list (Z * bool) :=
  flat_map (fun e => match e with
                     | EvOpenWriter _ c _ _ ok => [(c, ok)]
                     | _ => []
                     end) evs.

(** The grid dimensions a run announces. *)
Definition grid_announced (evs : list Event) : list (Z * Z) :=
  flat_map (fun e => match e with
                     | EvOut (MsgGrid w h) => [(w, h)]
                     | _ => []
                     end) evs.

(** The events the main loop gives rise to, and among them the diagnostics
    of the rasteriser. *)
Definition loop_event (e : Event) : Prop :=
  match e with
  | EvRead | EvWrite _ => True
  | EvOut (MsgPixel _ _ _ _) | EvOut (MsgProgress _ _ _) => True
  | _ => False
  end.

Definition pixel_event (e : Event) : Prop :=
  match e with
  | EvOut (MsgPixel _ _ _ _) => True
  | _ => False
  end.

(** ** Loops *)

(** [for (int i = lo; i < hi; i++) body], the body being allowed to fail. *)
Fixpoint for_count {S : Type} (n : nat) (i : Z) (body : Z -> S -> option S)
  (s : S) : option S :=
  match n with
  | O => Some s
  | Datatypes.S n' =>
      match body i s with
      | None => None
      | Some s' => for_count n' (i + 1) body s'
      end
  end.

Definition for_range {S : Type} (lo hi : Z) (body : Z -> S -> option S)
  (s : S) : option S :=
  for_count (Z.to_nat (hi - lo)) lo body s.

(** ** The converter *)

Record Converter : Type := mkConverter {
  currentCharset : string;
  frameCount : Z
}.

(** [EnhancedASCIIConverter()]. *)
Definition new_converter : Converter := mkConverter ASCII_CHARS 0.

(** [testCharacterDisplay]: the ramp, its length, and for each glyph the
    brightness [i / (length - 1)] it stands for. *)
Definition testCharacterDisplay (self : Converter) : list Event :=
  let cs := currentCharset self in
  let len := Z.of_nat (String.length cs) in
  EvOut (MsgCharsetTest cs len)
  :: map (fun i =>
            let c := match String.get i cs with Some c => c | None => zero end in
            EvOut (MsgCharBrightness c
                     (ddiv (double_of_Z (Z.of_nat i))
                           (double_of_Z (wrap_size_t (len - 1))))))
         (seq 0 (String.length cs)).

(** ** The command line *)

Definition isspace (c : ascii) : bool :=
  let n := Z.of_nat (nat_of_ascii c) in
  (n =? 32) || ((9 <=? n) && (n <=? 13)).

Definition digit_of (c : ascii) : option Z :=
  let n := Z.of_nat (nat_of_ascii c) in
  if (48 <=? n) && (n <=? 57) then Some (n - 48) else None.

Fixpoint skip_space (s : string) : string :=
  match s with
  | String c r => if isspace c then skip_space r else s
  | EmptyString => s
  end.

(** The value of the longest prefix of decimal digits, from [acc]. *)
Fixpoint digits_value (acc : Z) (s : string) : Z :=
  match s with
  | String c r =>
      match digit_of c with
      | Some d => digits_value (acc * 10 + d) r
      | None => acc
      end
  | EmptyString => acc
  end.

(** [std::atoi]: white space is skipped, a sign is optional, the digits
    that follow are converted and the rest is ignored; without digits the
    result is 0; a value that is no [int] is undefined. *)
Definition atoi (s : string) : option Z :=
  let v :=
    match skip_space s with
    | String c r =>
        if Ascii.eqb c "-" then - digits_value 0 r
        else if Ascii.eqb c "+" then digits_value 0 r
        else digits_value 0 (String c r)
    | EmptyString => 0
    end in
  if (INT_MIN <=? v) && (v <=? INT_MAX) then Some v else None.

Section WithImageOps.

Context {ops : ImageOps}.

(** The call of [cv::putText] for the cell of column [x] and row [y]. *)
Definition cell_draw (asciiChar : ascii) (pixel : Vec3b) (x y : Z) : DrawCall :=
  mkDraw (String asciiChar EmptyString)
         (mkPoint (int_mul x ASCII_CHAR_WIDTH)
                  (int_sub (int_mul (int_add y 1) ASCII_CHAR_HEIGHT) 2))
         FONT_HERSHEY_SIMPLEX ASCII_FONT_SIZE
         (mkScalar (ch0 pixel) (ch1 pixel) (ch2 pixel))
         1 LINE_AA.

(** The body of the inner loop of [generateColorASCIIFrame]. *)
Definition draw_cell (self : Converter) (colorFrame : Mat) (y x : Z)
  (st : Mat * list Event) : option (Mat * list Event) :=
  let (asciiFrame, log) := st in
  let pixel := at_ colorFrame y x in
  let brightness := luminance pixel in
  match getASCIIChar (currentCharset self) brightness with
  | None => None
  | Some asciiChar =>
      let asciiFrame := putText asciiFrame (cell_draw asciiChar pixel x y) in
      let log :=
        if (x <? 3) && (y <? 2) && (frameCount self =? 0)
        then log ++ [EvOut (MsgPixel x y brightness asciiChar)]
        else log in
      Some (asciiFrame, log)
  end.

Definition generateColorASCIIFrame (self : Converter) (colorFrame : Mat)
  : option (Mat * list Event) :=
  let width := cols colorFrame in
  let height := rows colorFrame in
  let asciiFrame := Mat_black (int_mul height ASCII_CHAR_HEIGHT)
                              (int_mul width ASCII_CHAR_WIDTH) in
  for_range 0 height
    (fun y => for_range 0 width (fun x => draw_cell self colorFrame y x))
    (asciiFrame, []).

(** [cv::VideoWriter::fourcc]. *)
Definition fourcc (c1 c2 c3 c4 : ascii) : Z :=
  let code c := Z.land (Z.of_nat (nat_of_ascii c)) 255 in
  code c1 + Z.shiftl (code c2) 8 + Z.shiftl (code c3) 16 + Z.shiftl (code c4) 24.

Definition codecList : list (list Z) :=
  [ [fourcc "m" "p" "4" "v"]; [fourcc "a" "v" "c" "1"];
    [fourcc "X" "2" "6" "4"]; [fourcc "H" "2" "6" "4"] ].

(** The loop over [codecList]: it stops at the first codec for which the
    writer opens. *)
Fixpoint open_writer (w : World) (outputPath : string) (fps : double)
  (frameSize : Size) (codecs : list (list Z)) : option Z * list Event :=
  match codecs with
  | [] => (None, [])
  | codec :: rest =>
      let c := nth 0 codec 0 in
      if writer_opens w outputPath c fps frameSize
      then (Some c, [EvOpenWriter outputPath c fps frameSize true;
                     EvOut (MsgCodec c)])
      else let (r, evs) := open_writer w outputPath fps frameSize rest in
           (r, EvOpenWriter outputPath c fps frameSize false :: evs)
  end.

(** The same step in the variant of the program with inline literals: the
    writer is opened with [mp4v]; if that fails the error is printed and
    [avc1] is tried. *)
Definition open_writer_inline (w : World) (outputPath : string) (fps : double)
  (frameSize : Size) : option Z * list Event :=
  let mp4v := fourcc "m" "p" "4" "v" in
  let avc1 := fourcc "a" "v" "c" "1" in
  if writer_opens w outputPath mp4v fps frameSize
  then (Some mp4v, [EvOpenWriter outputPath mp4v fps frameSize true])
  else
    let first := [EvOpenWriter outputPath mp4v fps frameSize false;
                  EvErr (MsgCannotCreateOutput outputPath)] in
    if writer_opens w outputPath avc1 fps frameSize
    then (Some avc1, first ++ [EvOpenWriter outputPath avc1 fps frameSize true])
    else (None, first ++ [EvOpenWriter outputPath avc1 fps frameSize false]).

(** The main loop: read a frame, stop at the first empty one, otherwise
    resize it, render it, write it and count it. The result is the converter
    with its final [frameCount] and the events of the loop. *)
Fixpoint process_frames (self : Converter) (asciiWidth asciiHeight : Z)
  (totalFrames : Z) (stream : list Mat) : option (Converter * list Event) :=
  match stream with
  | [] => Some (self, [EvRead])
  | frame :: rest =>
      if Mat_empty frame then Some (self, [EvRead])
      else
        let resized := resize frame (mkSize asciiWidth asciiHeight) INTER_AREA in
        match generateColorASCIIFrame self resized with
        | None => None
        | Some (asciiFrame, debug) =>
            let count := int_add (frameCount self) 1 in
            let self' := mkConverter (currentCharset self) count in
            let progress :=
              if int_rem count 30 =? 0
              then [EvOut (MsgProgress count totalFrames
                             (ddiv (dmul (double_of_Z count) d100)
                                   (double_of_Z totalFrames)))]
              else [] in
            match process_frames self' asciiWidth asciiHeight totalFrames rest with
            | None => None
            | Some (self'', evs) =>
                Some (self'',
                      EvRead :: debug ++ [EvWrite asciiFrame] ++ progress ++ evs)
            end
        end
  end.

(** [convertToColorASCII]: the value returned, the converter afterwards and
    the events, or [None] where the behaviour is undefined. *)
Definition convertToColorASCII (w : World) (self : Converter)
  (inputPath outputPath : string) (asciiWidth : Z) (quality : double)
  : option (bool * Converter * list Event) :=
  match video_at w inputPath with
  | None =>
      Some (false, self,
            [EvOpenVideo inputPath false; EvErr (MsgCannotOpenVideo inputPath)])
  | Some video =>
      let fps := v_fps video in
      let totalFrames := v_frame_count video in
      let originalWidth := v_width video in
      let originalHeight := v_height video in
      match asciiHeight_of asciiWidth originalWidth originalHeight with
      | None => None
      | Some asciiHeight =>
          let frameSize := mkSize (int_mul asciiWidth ASCII_CHAR_WIDTH)
                                  (int_mul asciiHeight ASCII_CHAR_HEIGHT) in
          let header :=
            [EvOpenVideo inputPath true;
             EvOut (MsgVideoInfo originalWidth originalHeight fps totalFrames);
             EvOut (MsgOutputSize (sz_width frameSize) (sz_height frameSize));
             EvOut (MsgGrid asciiWidth asciiHeight);
             EvOut (MsgCharsetSize
                      (Z.of_nat (String.length (currentCharset self))))] in
          match open_writer w outputPath fps frameSize codecList with
          | (None, tried) =>
              Some (false, self,
                    header ++ tried
                    ++ [EvErr (MsgCannotCreateOutput outputPath);
                        EvReleaseCapture])
          | (Some _, tried) =>
              let self0 := mkConverter (currentCharset self) 0 in
              match process_frames self0 asciiWidth asciiHeight totalFrames
                      (v_frames video) with
              | None => None
              | Some (self', evs) =>
                  Some (true, self',
                        header ++ tried
                        ++ [EvOut MsgStart] ++ testCharacterDisplay self0
                        ++ evs
                        ++ [EvReleaseCapture; EvReleaseWriter;
                            EvOut (MsgDone (frameCount self'));
                            EvOut (MsgOutputFile outputPath)])
              end
          end
      end
  end.

(** ** The entry point *)

(** Steps 4 to 6 of [main]: the conversion and the exit status. *)
Definition run_converter (w : World) (inputPath outputPath : string)
  (asciiWidth : Z) : option (Z * list Event) :=
  let converter := new_converter in
  match convertToColorASCII w converter inputPath outputPath asciiWidth d1 with
  | None => None
  | Some (true, _, evs) =>
      Some (0, [EvOut MsgBanner] ++ evs ++ [EvOut (MsgSuccess outputPath)])
  | Some (false, _, evs) =>
      Some (1, [EvOut MsgBanner] ++ evs ++ [EvErr MsgFailure])
  end.

(** [main]: the exit status and the events ([argv] includes the name of
    the program). *)
Definition main (w : World) (argv : list string) : option (Z * list Event) :=
  let argc := Z.of_nat (List.length argv) in
  let arg i := nth i argv EmptyString in
  if argc <? 3 then Some (1, [EvOut (MsgUsage (arg 0%nat))])
  else
    let inputPath := arg 1%nat in
    let outputPath := arg 2%nat in
    match (if 4 <=? argc then atoi (arg 3%nat) else Some DEFAULT_ASCII_WIDTH) with
    | None => None
    | Some asciiWidth =>
        if (asciiWidth <? MIN_ASCII_WIDTH) || (MAX_ASCII_WIDTH <? asciiWidth)
        then Some (1, [EvErr (MsgWidthRange MIN_ASCII_WIDTH MAX_ASCII_WIDTH)])
        else run_converter w inputPath outputPath asciiWidth
    end.

End WithImageOps.

(** ** A reference implementation of the image operations

    It stands in for OpenCV where a statement is exercised on a concrete
    input: [resize] samples the nearest source pixel and [putText] colours
    the pixel at the origin of the text. *)

Definition sample_resize (m : Mat) (s : Size) (i : Interpolation) : Mat :=
  mkMat (sz_height s) (sz_width s)
        (fun y x => at_ m (y * rows m / sz_height s) (x * cols m / sz_width s)).

Definition sample_touches (d : DrawCall) (y x : Z) : bool :=
  (y =? py (dc_org d)) && (x =? px (dc_org d)).

Definition sample_putText (m : Mat) (d : DrawCall) : Mat :=
  mkMat (rows m) (cols m)
        (fun y x =>
           if sample_touches d y x
           then mkVec3b (sc0 (dc_color d)) (sc1 (dc_color d)) (sc2 (dc_color d))
           else at_ m y x).

Definition sample_ops : ImageOps :=
  {| resize := sample_resize; putText := sample_putText; touches := sample_touches |}.

(** ** Derived notions used in the statements *)

(** The integers [i], [i + 1], ..., [i + n - 1]: the values a loop counter
    takes. *)
Fixpoint zrange (i : Z) (n : nat) : list Z :=
  match n with
  | O => []
  | Datatypes.S n' => i :: zrange (i + 1) n'
  end.

(** The cells of a grid in the order the rasteriser visits them: row by
    row, each row from left to right. *)
Definition grid_cells (height width : Z) : list (Z * Z) :=
  flat_map (fun y => map (fun x => (y, x)) (zrange 0 (Z.to_nat width)))
           (zrange 0 (Z.to_nat height)).


(** The glyph of a cell (the null character stands for an undefined one). *)
Definition cell_glyph (cs : string) (colorFrame : Mat) (cell : Z * Z) : ascii :=
  match getASCIIChar cs (luminance (at_ colorFrame (fst cell) (snd cell))) with
  | Some c => c
  | None => zero
  end.

Section DerivedWithImageOps.

Context {ops : ImageOps}.

(** The calls of [cv::putText] one frame gives rise to. *)
Definition frame_calls (cs : string) (colorFrame : Mat) : list DrawCall :=
  map (fun cell =>
         cell_draw (cell_glyph cs colorFrame cell)
                   (at_ colorFrame (fst cell) (snd cell)) (snd cell) (fst cell))
      (grid_cells (rows colorFrame) (cols colorFrame)).

(** The output frame of one input frame: a black canvas on which the
    calls are drawn in order. *)
Definition render_frame (cs : string) (asciiWidth asciiHeight : Z)
  (frame : Mat) : Mat :=
  let resized := resize frame (mkSize asciiWidth asciiHeight) INTER_AREA in
  fold_left putText (frame_calls cs resized)
            (Mat_black (int_mul (rows resized) ASCII_CHAR_HEIGHT)
                       (int_mul (cols resized) ASCII_CHAR_WIDTH)).

(** One turn of the inner loop when the glyph is defined: the canvas after
    the call and the log after the diagnostic of the first cells. *)
Definition debug_of (self : Converter) (colorFrame : Mat) (y x : Z)
  (log : list Event) : list Event :=
  if (x <? 3) && (y <? 2) && (frameCount self =? 0)
  then log ++ [EvOut (MsgPixel x y (luminance (at_ colorFrame y x))
                        (cell_glyph (currentCharset self) colorFrame (y, x)))]
  else log.

Definition row_step (self : Converter) (colorFrame : Mat) (y x : Z)
  (st : Mat * list Event) : Mat * list Event :=
  (putText (fst st)
     (cell_draw (cell_glyph (currentCharset self) colorFrame (y, x))
                (at_ colorFrame y x) x y),
   debug_of self colorFrame y x (snd st)).


(** ** The glyph indices a run computes

    The same loops as [generateColorASCIIFrame], [process_frames] and
    [convertToColorASCII], keeping of each call of [getASCIIChar] the
    value of its local [index] instead of the canvas and the messages:
    one list per frame rendered, in the order of the calls. A run that
    does not reach the main loop calls [getASCIIChar] not at all. *)







End DerivedWithImageOps.

(** The frames the main loop reads before the stream ends or yields an
    empty frame. *)
Fixpoint frames_read (stream : list Mat) : list Mat :=
  match stream with
  | [] => []
  | frame :: rest => if Mat_empty frame then [] else frame :: frames_read rest
  end.

(** The identifiers of a list of candidates ([codec[0]] of each). *)
Definition codec_ids (codecs : list (list Z)) : list Z :=
  map (fun codec => nth 0 codec 0) codecs.

(** A non-empty string of decimal digits, and a string that does not begin
    with one. *)
Fixpoint all_digits (s : string) : bool :=
  match s with
  | EmptyString => true
  | String c r => match digit_of c with Some _ => all_digits r | None => false end
  end.

Definition starts_with_digit (s : string) : bool :=
  match s with
  | String c _ => match digit_of c with Some _ => true | None => false end
  | EmptyString => false
  end.

(** Where [atoi] looks for digits: after the white space and the sign. *)
Definition after_sign (s : string) : string :=
  match skip_space s with
  | String c r =>
      if Ascii.eqb c "-" then r else if Ascii.eqb c "+" then r else String c r
  | EmptyString => EmptyString
  end.

(** The calls to [writer.open] a list of candidates gives rise to, for a
    given availability of the codecs: every candidate up to and including
    the first that opens. *)
Fixpoint tried_until (opens : Z -> bool) (ids : list Z) : list (Z * bool) :=
  match ids with
  | [] => []
  | c :: rest => if opens c then [(c, true)] else (c, false) :: tried_until opens rest
  end.

(** The frame size announced to the writer, and whether the writer of a run
    opens with a given codec. *)
Definition frameSize_of (asciiWidth asciiHeight : Z) : Size :=
  mkSize (int_mul asciiWidth ASCII_CHAR_WIDTH) (int_mul asciiHeight ASCII_CHAR_HEIGHT).

Definition codec_opens (w : World) (outputPath : string) (video : Video)
  (asciiWidth asciiHeight : Z) (c : Z) : bool :=
  writer_opens w outputPath c (v_fps video) (frameSize_of asciiWidth asciiHeight).

(** ** A small world for exercising the statements

    One readable video of two frames of 8 by 4 pixels; the writer opens for
    [avc1] only, so the first candidate fails and the second succeeds. In
    [deaf_world] no codec opens at all. *)

Definition sample_frame (b g r : Z) : Mat :=
  mkMat 4 8 (fun y x => mkVec3b ((b + 40 * x) mod 256) ((g + 60 * y) mod 256) r).

Definition sample_video : Video :=
  mkVideo (double_of_Z 30) 2 8 4 [sample_frame 0 0 0; sample_frame 10 200 255].

Definition sample_world : World :=
  mkWorld (fun path => if String.eqb path "miku.mp4" then Some sample_video else None)
          (fun _ c _ _ => c =? fourcc "a" "v" "c" "1").

Definition deaf_world : World :=
  mkWorld (fun path => if String.eqb path "miku.mp4" then Some sample_video else None)
          (fun _ _ _ _ => false).



(** ** The variant with inline literals

    [miku.cpp] is the same converter with its constants written in place:
    the cell size and the font scale are locals of [convertToColorASCII]
    handed to [generateColorASCIIFrame], the weights of the luminance are
    literals, and the writer is opened with two candidates only
    ([open_writer_inline]). [getASCIIChar] and [testCharacterDisplay] are
    the same in both files. *)

Module Inline.

Section WithImageOps.

Context {ops : ImageOps}.

Definition generateColorASCIIFrame (self : Converter) (colorFrame : Mat)
  (charWidth charHeight : Z) (fontSize : double) : option (Mat * list Event) :=
  let width := cols colorFrame in
  let height := rows colorFrame in
  let asciiFrame := Mat_black (int_mul height charHeight)
                              (int_mul width charWidth) in
  for_range 0 height
    (fun y => for_range 0 width
       (fun x (st : Mat * list Event) =>
          let (asciiFrame, log) := st in
          let pixel := at_ colorFrame y x in
          let brightness :=
            ddiv (dadd (dadd (dmul (decimal 299 3) (double_of_Z (ch2 pixel)))
                             (dmul (decimal 587 3) (double_of_Z (ch1 pixel))))
                       (dmul (decimal 114 3) (double_of_Z (ch0 pixel))))
                 (double_of_Z 255) in
          match getASCIIChar (currentCharset self) brightness with
          | None => None
          | Some asciiChar =>
              let textColor := mkScalar (ch0 pixel) (ch1 pixel) (ch2 pixel) in
              let textPos :=
                mkPoint (int_mul x charWidth)
                        (int_sub (int_mul (int_add y 1) charHeight) 2) in
              let asciiFrame :=
                putText asciiFrame
                  (mkDraw (String asciiChar EmptyString) textPos
                          FONT_HERSHEY_SIMPLEX fontSize textColor 1 LINE_AA) in
              let log :=
                if (x <? 3) && (y <? 2) && (frameCount self =? 0)
                then log ++ [EvOut (MsgPixel x y brightness asciiChar)]
                else log in
              Some (asciiFrame, log)
          end))
    (asciiFrame, []).

Fixpoint process_frames (self : Converter) (asciiWidth asciiHeight : Z)
  (charWidth charHeight : Z) (fontSize : double) (totalFrames : Z)
  (stream : list Mat) : option (Converter * list Event) :=
  match stream with
  | [] => Some (self, [EvRead])
  | frame :: rest =>
      if Mat_empty frame then Some (self, [EvRead])
      else
        let resized := resize frame (mkSize asciiWidth asciiHeight) INTER_AREA in
        match generateColorASCIIFrame self resized charWidth charHeight fontSize with
        | None => None
        | Some (asciiFrame, debug) =>
            let count := int_add (frameCount self) 1 in
            let self' := mkConverter (currentCharset self) count in
            let progress :=
              if int_rem count 30 =? 0
              then [EvOut (MsgProgress count totalFrames
                             (ddiv (dmul (double_of_Z count) (double_of_Z 100))
                                   (double_of_Z totalFrames)))]
              else [] in
            match process_frames self' asciiWidth asciiHeight charWidth charHeight
                    fontSize totalFrames rest with
            | None => None
            | Some (self'', evs) =>
                Some (self'',
                      EvRead :: debug ++ [EvWrite asciiFrame] ++ progress ++ evs)
            end
        end
  end.

Definition convertToColorASCII (w : World) (self : Converter)
  (inputPath outputPath : string) (asciiWidth : Z) (quality : double)
  : option (bool * Converter * list Event) :=
  match video_at w inputPath with
  | None =>
      Some (false, self,
            [EvOpenVideo inputPath false; EvErr (MsgCannotOpenVideo inputPath)])
  | Some video =>
      let fps := v_fps video in
      let totalFrames := v_frame_count video in
      let originalWidth := v_width video in
      let originalHeight := v_height video in
      match asciiHeight_of asciiWidth originalWidth originalHeight with
      | None => None
      | Some asciiHeight =>
          let charWidth := 6 in
          let charHeight := 12 in
          let fontSize := decimal 3 1 in
          let frameSize := mkSize (int_mul asciiWidth charWidth)
                                  (int_mul asciiHeight charHeight) in
          let header :=
            [EvOpenVideo inputPath true;
             EvOut (MsgVideoInfo originalWidth originalHeight fps totalFrames);
             EvOut (MsgOutputSize (sz_width frameSize) (sz_height frameSize));
             EvOut (MsgGrid asciiWidth asciiHeight);
             EvOut (MsgCharsetSize
                      (Z.of_nat (String.length (currentCharset self))))] in
          match open_writer_inline w outputPath fps frameSize with
          | (None, tried) =>
              Some (false, self, header ++ tried ++ [EvReleaseCapture])
          | (Some _, tried) =>
              let self0 := mkConverter (currentCharset self) 0 in
              match process_frames self0 asciiWidth asciiHeight charWidth
                      charHeight fontSize totalFrames (v_frames video) with
              | None => None
              | Some (self', evs) =>
                  Some (true, self',
                        header ++ tried
                        ++ [EvOut MsgStart] ++ testCharacterDisplay self0
                        ++ evs
                        ++ [EvReleaseCapture; EvReleaseWriter;
                            EvOut (MsgDone (frameCount self'));
                            EvOut (MsgOutputFile outputPath)])
              end
          end
      end
  end.

Definition main (w : World) (argv : list string) : option (Z * list Event) :=
  let argc := Z.of_nat (List.length argv) in
  let arg i := nth i argv EmptyString in
  if argc <? 3 then Some (1, [EvOut (MsgUsage (arg 0%nat))])
  else
    let inputPath := arg 1%nat in
    let outputPath := arg 2%nat in
    match (if 4 <=? argc then atoi (arg 3%nat) else Some 80) with
    | None => None
    | Some asciiWidth =>
        if (asciiWidth <? 20) || (300 <? asciiWidth)
        then Some (1, [EvErr (MsgWidthRange 20 300)])
        else
          let converter := new_converter in
          match convertToColorASCII w converter inputPath outputPath
                  asciiWidth d1 with
          | None => None
          | Some (true, _, evs) =>
              Some (0, [EvOut MsgBanner] ++ evs ++ [EvOut (MsgSuccess outputPath)])
          | Some (false, _, evs) =>
              Some (1, [EvOut MsgBanner] ++ evs ++ [EvErr MsgFailure])
          end
    end.

End WithImageOps.

End Inline.

(** ** What a log shows *)

(** The progress lines: the count, the declared total and the percentage. *)
Definition progress_reports (evs : list Event) : list (Z * Z * double) :=
  flat_map (fun e => match e with
                     | EvOut (MsgProgress n total pct) => [(n, total, pct)]
                     | _ => []
                     end) evs.

(** The diagnostic lines of the rasteriser: column, row, brightness, glyph. *)
Definition pixel_reports (evs : list Event) : list (Z * Z * double * ascii) :=
  flat_map (fun e => match e with
                     | EvOut (MsgPixel x y b c) => [(x, y, b, c)]
                     | _ => []
                     end) evs.

(** The rows of the table of [testCharacterDisplay]. *)
Definition brightness_table (evs : list Event) : list (ascii * double) :=
  flat_map (fun e => match e with
                     | EvOut (MsgCharBrightness c b) => [(c, b)]
                     | _ => []
                     end) evs.

(** The number of frames requested of the capture. *)
Definition reads (evs : list Event) : nat :=
  List.length (filter (fun e => match e with EvRead => true | _ => false end) evs).

(** The calls on the capture and on the writer, without the messages. *)
Definition file_events (evs : list Event) : list Event :=
  filter is_file_event evs.

(** The frame sizes with which the writer was opened successfully. *)
Definition writer_sizes (evs : list Event) : list Size :=
  flat_map (fun e => match e with
                     | EvOpenWriter _ _ _ size true => [size]
                     | _ => []
                     end) evs.

(** *** The discipline of the two handles

    A capture is read only while it is open and a writer written to only
    while it is open; an open handle is not opened again and only an open
    handle is released. [protocol_run] follows a log from a state of the
    two handles and fails at the first event out of place. *)
Record Handles : Type := mkHandles { capture_open : bool; writer_open : bool }.


Definition protocol_step (h : Handles) (e : Event) : option Handles :=
  match e with
  | EvOpenVideo _ ok =>
      if capture_open h then None else Some (mkHandles ok (writer_open h))
  | EvOpenWriter _ _ _ _ ok =>
      if writer_open h then None else Some (mkHandles (capture_open h) ok)
  | EvRead => if capture_open h then Some h else None
  | EvWrite _ => if writer_open h then Some h else None
  | EvReleaseCapture =>
      if capture_open h then Some (mkHandles false (writer_open h)) else None
  | EvReleaseWriter =>
      if writer_open h then Some (mkHandles (capture_open h) false) else None
  | EvOut _ | EvErr _ => Some h
  end.

Fixpoint protocol_run (h : Handles) (evs : list Event) : option Handles :=
  match evs with
  | [] => Some h
  | e :: rest =>
      match protocol_step h e with
      | None => None
      | Some h' => protocol_run h' rest
      end
  end.

(** Whether the opening of the writer gave a codec. *)
Definition is_open (r : option Z) : bool :=
  match r with Some _ => true | None => false end.

(** The line of the diagnostics for the cell of row [y] and column [x]. *)
Definition pixel_report (cs : string) (colorFrame : Mat) (cell : Z * Z)
  : Z * Z * double * ascii :=
  (snd cell, fst cell, luminance (at_ colorFrame (fst cell) (snd cell)),
   cell_glyph cs colorFrame cell).

(** The progress line after [count] frames. *)
Definition progress_report (totalFrames count : Z) : Z * Z * double :=
  (count, totalFrames,
   ddiv (dmul (double_of_Z count) d100) (double_of_Z totalFrames)).

(** A string of white space. *)
Fixpoint all_space (s : string) : bool :=
  match s with
  | EmptyString => true
  | String c r => isspace c && all_space r
  end.

Section LogsWithImageOps.

Context {ops : ImageOps}.

(** The diagnostic line of a cell, if it has one. *)
Definition cell_debug (self : Converter) (colorFrame : Mat) (cell : Z * Z)
  : list Event :=
  if (snd cell <? 3) && (fst cell <? 2) && (frameCount self =? 0)
  then [EvOut (MsgPixel (snd cell) (fst cell)
                 (luminance (at_ colorFrame (fst cell) (snd cell)))
                 (cell_glyph (currentCharset self) colorFrame cell))]
  else [].

(** The diagnostics of a frame, cell by cell. *)
Definition frame_debug (self : Converter) (colorFrame : Mat) : list Event :=
  flat_map (cell_debug self colorFrame)
           (grid_cells (rows colorFrame) (cols colorFrame)).

(** The events of the main loop for the frames it processes, the counter
    being [count] before the first of them; the last read is the one that
    ends the loop. *)
Fixpoint loop_log (cs : string) (asciiWidth asciiHeight totalFrames : Z)
  (count : Z) (frames : list Mat) : list Event :=
  match frames with
  | [] => [EvRead]
  | frame :: rest =>
      let resized := resize frame (mkSize asciiWidth asciiHeight) INTER_AREA in
      let count' := int_add count 1 in
      EvRead
      :: frame_debug (mkConverter cs count) resized
      ++ [EvWrite (render_frame cs asciiWidth asciiHeight frame)]
      ++ (if int_rem count' 30 =? 0
          then [EvOut (MsgProgress count' totalFrames
                         (ddiv (dmul (double_of_Z count') d100)
                               (double_of_Z totalFrames)))]
          else [])
      ++ loop_log cs asciiWidth asciiHeight totalFrames count' rest
  end.

End LogsWithImageOps.

(** The counter after [n] increments. *)
Fixpoint count_after (count : Z) (n : nat) : Z :=
  match n with
  | O => count
  | Datatypes.S n' => count_after (int_add count 1) n'
  end.

(** The events of a run up to the opening of the writer, and after the
    main loop. *)
Definition run_header (inputPath : string) (video : Video) (cs : string)
  (asciiWidth asciiHeight : Z) : list Event :=
  [EvOpenVideo inputPath true;
   EvOut (MsgVideoInfo (v_width video) (v_height video) (v_fps video)
            (v_frame_count video));
   EvOut (MsgOutputSize (sz_width (frameSize_of asciiWidth asciiHeight))
            (sz_height (frameSize_of asciiWidth asciiHeight)));
   EvOut (MsgGrid asciiWidth asciiHeight);
   EvOut (MsgCharsetSize (Z.of_nat (String.length cs)))].

Definition run_footer (outputPath : string) (count : Z) : list Event :=
  [EvReleaseCapture; EvReleaseWriter;
   EvOut (MsgDone count); EvOut (MsgOutputFile outputPath)].

(** ** Further worlds for exercising the statements

    [world_of video opens] holds [video] at [miku.mp4] and has the codecs of
    [opens]; [holed_video] has an empty frame between two frames and
    [long_video] has 61 frames. *)

Definition world_of (video : Video) (opens : Z -> bool) : World :=
  mkWorld (fun path => if String.eqb path "miku.mp4" then Some video else None)
          (fun _ c _ _ => opens c).

Definition holed_video : Video :=
  mkVideo (double_of_Z 30) 3 8 4
          [sample_frame 0 0 0; Mat_none; sample_frame 10 200 255].

Definition long_video : Video :=
  mkVideo (double_of_Z 30) 61 8 4 (repeat (sample_frame 0 0 0) 61).


(** What a run does to the outside: its result and its calls on the capture
    and on the writer, the messages set aside. *)
Definition outcome (r : option (bool * Converter * list Event))
  : option (bool * Converter * list Event) :=
  match r with
  | Some (ok, self, evs) => Some (ok, self, file_events evs)
  | None => None
  end.

Definition exit_outcome (r : option (Z * list Event)) : option (Z * list Event) :=
  match r with
  | Some (status, evs) => Some (status, file_events evs)
  | None => None
  end.

(** ** Quotients with their remainder folded in

    A quotient whose remainder is not zero is rounded from its integer part
    and the position of the remainder: nothing, less than half, half or more
    than half of the divisor. [loc_code] writes the position of [SpecFloat]
    as two further bits below the integer part, and [quotient_code a b] is
    the quotient of [a] by [b] carried with these two bits. *)
Definition loc_code (l : location) : Z :=
  match l with
  | loc_Exact => 0
  | loc_Inexact Lt => 1
  | loc_Inexact Eq => 2
  | loc_Inexact Gt => 3
  end.

Definition remainder_code (r b : Z) : Z :=
  if r =? 0 then 0
  else match 2 * r ?= b with Lt => 1 | Eq => 2 | Gt => 3 end.

Definition quotient_code (a b : Z) : Z :=
  4 * (a / b) + remainder_code (a mod b) b.

(** ** The value of a double as an integer

    [scaled x] is the value of a non-negative finite double in units of
    [2^-1074], the least positive double; [normal x] holds of the positive
    doubles with a mantissa of exactly 53 bits. *)
Definition scaled (x : double) : Z :=
  match x with
  | S754_finite false m e => Zpos m * 2 ^ (e + 1074)
  | _ => 0
  end.

Definition normal (x : double) : Prop :=
  match x with
  | S754_finite false m e => 2 ^ 52 <= Zpos m < 2 ^ 53 /\ -1074 <= e <= 971
  | _ => False
  end.

Definition zero_or_normal (x : double) : Prop := x = d0 \/ normal x.

(** ** Pixels of eight bits per channel *)

(** The channels of a [cv::Vec3b] are bytes. *)
Definition byte_pixel (p : Vec3b) : Prop :=
  0 <= ch0 p <= 255 /\ 0 <= ch1 p <= 255 /\ 0 <= ch2 p <= 255.

(** No channel of [p] exceeds the same channel of [p']. *)
Definition no_brighter (p p' : Vec3b) : Prop :=
  ch0 p <= ch0 p' /\ ch1 p <= ch1 p' /\ ch2 p <= ch2 p'.

(** The dividend of the luminance, and its value in units of [2^-1074]
    for weights of the values [wr], [wg] and [wb]: each product and each
    sum is rounded. *)
Definition weighted_sum (pixel : Vec3b) : double :=
  dadd (dadd (dmul RED_WEIGHT (double_of_Z (ch2 pixel)))
             (dmul GREEN_WEIGHT (double_of_Z (ch1 pixel))))
       (dmul BLUE_WEIGHT (double_of_Z (ch0 pixel))).

Definition weighted_units (wr wg wb : Z) (pixel : Vec3b) : Z :=
  Zround 0 (Zround 0 (Zround 0 (wr * ch2 pixel) + Zround 0 (wg * ch1 pixel))
            + Zround 0 (wb * ch0 pixel)).

(** * Properties

    ** The model on concrete inputs *)

Example ramp_length : String.length ASCII_CHARS = 70%nat.
Proof. reflexivity. Qed.

Example ramp_ends :
  String.get 0 ASCII_CHARS = Some " "%char /\ String.get 69 ASCII_CHARS = Some "$"%char.
Proof. split; reflexivity. Qed.

(** The weights are the doubles nearest to 0.299, 0.587 and 0.114:
    [0x1.322d0e5604189p-2], [0x1.2c8b439581062p-1] and [0x1.d2f1a9fbe76c9p-4]. *)
Example weights_bits :
  RED_WEIGHT = S754_finite false 5386305154335113 (-54) /\
  GREEN_WEIGHT = S754_finite false 5287225962532962 (-53) /\
  BLUE_WEIGHT = S754_finite false 8214565720323785 (-56).
Proof. vm_compute. repeat split; reflexivity. Qed.

Example luminance_white : luminance (mkVec3b 255 255 255) = d1.
Proof. vm_compute. reflexivity. Qed.

Example glyph_white :
  getASCIIChar ASCII_CHARS (luminance (mkVec3b 255 255 255)) = Some "$"%char.
Proof. vm_compute. reflexivity. Qed.

Example glyph_black :
  getASCIIChar ASCII_CHARS (luminance (mkVec3b 0 0 0)) = Some " "%char.
Proof. vm_compute. reflexivity. Qed.

(** A third of full brightness, as the pixel (R, G, B) = (6, 140, 9) has up
    to rounding, selects glyph 22. *)
Example glyph_third : glyphIndex 70 (luminance (mkVec3b 9 140 6)) = Some 22.
Proof. vm_compute. reflexivity. Qed.

(** NaN is not below 1.0, so the clamp turns it into 1.0. *)
Example glyph_nan : getASCIIChar ASCII_CHARS S754_nan = Some "$"%char.
Proof. vm_compute. reflexivity. Qed.

Example fourcc_mp4v : fourcc "m" "p" "4" "v" = 0x7634706d.
Proof. reflexivity. Qed.

Example atoi_samples :
  atoi "150" = Some 150 /\ atoi "  -42xyz" = Some (-42) /\
  atoi "abc" = Some 0 /\ atoi "" = Some 0 /\ atoi "99999999999" = None.
Proof. vm_compute. repeat split; reflexivity. Qed.

Example asciiHeight_hd : asciiHeight_of 150 1920 1080 = Some 42.
Proof. vm_compute. reflexivity. Qed.

(** ** Rounding to nearest even on integers *)

Lemma Zrne_range m k :
  0 < k -> m / 2 ^ k <= Zrne m k <= m / 2 ^ k + 1.
Proof.
  intros Hk. unfold Zrne.
  destruct (_ <? _); [lia|]. destruct (_ <? _); [lia|]. destruct (Z.even _); lia.
Qed.

Lemma Zrne_le_mult m k p :
  0 < k -> m <= p * 2 ^ k -> Zrne m k <= p.
Proof.
  intros Hk Hm.
  assert (Hp : 0 < 2 ^ k) by (apply Z.pow_pos_nonneg; lia).
  assert (Hh : 0 < 2 ^ (k - 1)) by (apply Z.pow_pos_nonneg; lia).
  pose proof (Z.div_mod m (2 ^ k) ltac:(lia)) as Hdm.
  pose proof (Z.mod_pos_bound m (2 ^ k) Hp) as Hb.
  unfold Zrne.
  destruct (Z.ltb_spec (m mod 2 ^ k) (2 ^ (k - 1))); [nia|].
  assert (m / 2 ^ k + 1 <= p) by nia.
  destruct (_ <? _); [lia|]. destruct (Z.even _); lia.
Qed.

Lemma Zrne_ge_mult m k p :
  0 < k -> p * 2 ^ k <= m -> p <= Zrne m k.
Proof.
  intros Hk Hm.
  assert (Hp : 0 < 2 ^ k) by (apply Z.pow_pos_nonneg; lia).
  pose proof (Zrne_range m k Hk).
  assert (p <= m / 2 ^ k) by (apply Z.div_le_lower_bound; lia).
  lia.
Qed.

Lemma Zrne_exact p k : 0 < k -> Zrne (p * 2 ^ k) k = p.
Proof.
  intros Hk. apply Z.le_antisymm.
  - apply Zrne_le_mult; lia.
  - apply Zrne_ge_mult; lia.
Qed.

Lemma Zrne_mono m1 m2 k :
  0 < k -> m1 <= m2 -> Zrne m1 k <= Zrne m2 k.
Proof.
  intros Hk Hm.
  assert (Hp : 0 < 2 ^ k) by (apply Z.pow_pos_nonneg; lia).
  pose proof (Z.div_mod m1 (2 ^ k) ltac:(lia)) as Hd1.
  pose proof (Z.div_mod m2 (2 ^ k) ltac:(lia)) as Hd2.
  pose proof (Z.mod_pos_bound m1 (2 ^ k) Hp) as Hb1.
  pose proof (Z.mod_pos_bound m2 (2 ^ k) Hp) as Hb2.
  assert (Hq : m1 / 2 ^ k <= m2 / 2 ^ k) by (apply Z.div_le_mono; lia).
  destruct (Z.eq_dec (m1 / 2 ^ k) (m2 / 2 ^ k)) as [E|NE].
  - assert (Hr : m1 mod 2 ^ k <= m2 mod 2 ^ k) by nia.
    unfold Zrne. rewrite E.
    destruct (Z.ltb_spec (m1 mod 2 ^ k) (2 ^ (k - 1)));
    destruct (Z.ltb_spec (m2 mod 2 ^ k) (2 ^ (k - 1)));
    destruct (Z.ltb_spec (2 ^ (k - 1)) (m1 mod 2 ^ k));
    destruct (Z.ltb_spec (2 ^ (k - 1)) (m2 mod 2 ^ k));
    destruct (Z.even (m2 / 2 ^ k)); lia.
  - pose proof (Zrne_range m1 k Hk). pose proof (Zrne_range m2 k Hk). lia.
Qed.

Lemma Zrne_shift m k j :
  0 < k -> 0 <= j -> Zrne (m * 2 ^ j) (k + j) = Zrne m k.
Proof.
  intros Hk Hj.
  assert (Hp : 0 < 2 ^ k) by (apply Z.pow_pos_nonneg; lia).
  assert (Hpj : 0 < 2 ^ j) by (apply Z.pow_pos_nonneg; lia).
  assert (Hh : 0 < 2 ^ (k - 1)) by (apply Z.pow_pos_nonneg; lia).
  unfold Zrne.
  replace (k + j - 1) with ((k - 1) + j) by lia.
  rewrite !Z.pow_add_r by lia.
  rewrite Z.div_mul_cancel_r by lia.
  rewrite Zmult_mod_distr_r.
  destruct (Z.ltb_spec (m mod 2 ^ k) (2 ^ (k - 1)));
  destruct (Z.ltb_spec (m mod 2 ^ k * 2 ^ j) (2 ^ (k - 1) * 2 ^ j));
  try reflexivity; try nia.
  destruct (Z.ltb_spec (2 ^ (k - 1)) (m mod 2 ^ k));
  destruct (Z.ltb_spec (2 ^ (k - 1) * 2 ^ j) (m mod 2 ^ k * 2 ^ j));
  try reflexivity; nia.
Qed.

Lemma Zround_exact t X p :
  X = p * 2 ^ Z.max (Z.log2 X + 1 - 53) t -> Zround t X = X.
Proof.
  intros HX. unfold Zround.
  destruct (Z.leb_spec (Z.max (Z.log2 X + 1 - 53) t) 0) as [H|H]; [reflexivity|].
  rewrite HX at 1. rewrite Zrne_exact by lia. now rewrite <- HX.
Qed.

Lemma Zround_le_pow2 t X M :
  0 < X -> Z.log2 X + 1 <= M -> t <= M -> Zround t X <= 2 ^ M.
Proof.
  intros HX HM Ht. unfold Zround.
  pose proof (Z.log2_spec X HX) as [_ Hlt]. unfold Z.succ in Hlt.
  pose proof (Z.log2_nonneg X) as Hl.
  assert (HXM : X < 2 ^ M).
  { eapply Z.lt_le_trans; [exact Hlt|]. apply Z.pow_le_mono_r; lia. }
  set (g := Z.max (Z.log2 X + 1 - 53) t).
  destruct (Z.leb_spec g 0) as [H|H]; [lia|].
  assert (Hg : g <= M) by (unfold g; lia).
  assert (Zrne X g <= 2 ^ (M - g)).
  { apply Zrne_le_mult; [lia|]. rewrite <- Z.pow_add_r by lia.
    replace (M - g + g) with M by lia. lia. }
  assert (HM2 : 2 ^ M = 2 ^ (M - g) * 2 ^ g)
    by (rewrite <- Z.pow_add_r by lia; f_equal; lia).
  assert (0 < 2 ^ g) by (apply Z.pow_pos_nonneg; lia). nia.
Qed.

Lemma Zround_ge_pow2 t X :
  0 < X -> t <= Z.log2 X -> 2 ^ Z.log2 X <= Zround t X.
Proof.
  intros HX Ht. unfold Zround.
  pose proof (Z.log2_spec X HX) as [Hle _].
  pose proof (Z.log2_nonneg X) as Hl.
  set (g := Z.max (Z.log2 X + 1 - 53) t).
  destruct (Z.leb_spec g 0) as [H|H]; [lia|].
  assert (Hg : g <= Z.log2 X) by (unfold g; lia).
  assert (2 ^ (Z.log2 X - g) <= Zrne X g).
  { apply Zrne_ge_mult; [lia|]. rewrite <- Z.pow_add_r by lia.
    replace (Z.log2 X - g + g) with (Z.log2 X) by lia. lia. }
  assert (HM2 : 2 ^ Z.log2 X = 2 ^ (Z.log2 X - g) * 2 ^ g)
    by (rewrite <- Z.pow_add_r by lia; f_equal; lia).
  assert (0 < 2 ^ g) by (apply Z.pow_pos_nonneg; lia). nia.
Qed.

Lemma Zround_mono t X Y :
  0 < X -> X <= Y -> Zround t X <= Zround t Y.
Proof.
  intros HX HXY.
  pose proof (Z.log2_le_mono X Y HXY) as Hlog.
  pose proof (Z.log2_nonneg X) as HlX.
  destruct (Z.eq_dec (Z.max (Z.log2 X + 1 - 53) t) (Z.max (Z.log2 Y + 1 - 53) t))
    as [E|NE].
  - unfold Zround. rewrite E.
    destruct (Z.leb_spec (Z.max (Z.log2 Y + 1 - 53) t) 0) as [H|H]; [lia|].
    assert (0 < 2 ^ Z.max (Z.log2 Y + 1 - 53) t) by (apply Z.pow_pos_nonneg; lia).
    pose proof (Zrne_mono X Y _ H HXY). nia.
  - assert (HgY : t < Z.log2 Y + 1 - 53) by lia.
    assert (HlXY : Z.log2 X + 1 <= Z.log2 Y) by lia.
    apply Z.le_trans with (2 ^ Z.log2 Y).
    + destruct (Z.leb_spec (Z.max (Z.log2 X + 1 - 53) t) 0) as [H|H].
      * unfold Zround. apply Z.leb_le in H. rewrite H.
        pose proof (Z.log2_spec X HX) as [_ Hlt]. unfold Z.succ in Hlt.
        apply Z.lt_le_incl. eapply Z.lt_le_trans; [exact Hlt|].
        apply Z.pow_le_mono_r; lia.
      * apply Zround_le_pow2; lia.
    + apply Zround_ge_pow2; lia.
Qed.

(** * Linking the bit-level operations of [SpecFloat] to [Zrne] *)

Lemma digits2_pos_size p : digits2_pos p = Pos.size p.
Proof. induction p; simpl; congruence. Qed.

Lemma Zdigits2_log2 p : Zdigits2 (Zpos p) = Z.log2 (Zpos p) + 1.
Proof.
  simpl. rewrite digits2_pos_size. destruct p; simpl; lia.
Qed.

Lemma fexp_b64 x : fexp 53 1024 x = Z.max (x - 53) (-1074).
Proof. reflexivity. Qed.

Lemma iter_pos_nat {A} (f : A -> A) p x :
  iter_pos f p x = Nat.iter (Pos.to_nat p) f x.
Proof.
  revert x. induction p as [p IH|p IH|]; intros x; cbn [iter_pos].
  - rewrite !IH, <- Nat.iter_add, <- Nat.iter_succ_r.
    f_equal. lia.
  - rewrite !IH, <- Nat.iter_add. f_equal. lia.
  - reflexivity.
Qed.

Lemma shr_1_nonneg m r s :
  0 <= m -> shr_1 (Build_shr_record m r s) = Build_shr_record (m / 2) (Z.odd m) (r || s).
Proof.
  intros Hm. rewrite <- Z.div2_div.
  destruct m as [|[p|p|]|]; try reflexivity. lia.
Qed.

Lemma shr_m_iter n mrs :
  0 <= shr_m mrs -> shr_m (Nat.iter n shr_1 mrs) = shr_m mrs / 2 ^ Z.of_nat n.
Proof.
  intros Hm. induction n as [|n IH].
  - simpl. now rewrite Z.div_1_r.
  - rewrite Nat.iter_succ.
    destruct (Nat.iter n shr_1 mrs) as [m' r' s'] eqn:E. cbn [shr_m] in IH.
    assert (Hp : 0 < 2 ^ Z.of_nat n) by (apply Z.pow_pos_nonneg; lia).
    assert (0 <= m') by (rewrite IH; apply Z.div_pos; lia).
    rewrite shr_1_nonneg by lia. cbn [shr_m]. rewrite IH.
    rewrite Z.div_div by lia.
    rewrite Nat2Z.inj_succ, Z.pow_succ_r by lia.
    f_equal. lia.
Qed.

Lemma mod_pow2_succ m j :
  0 <= j -> m mod 2 ^ (j + 1) = m mod 2 ^ j + 2 ^ j * ((m / 2 ^ j) mod 2).
Proof.
  intros Hj. rewrite Z.pow_add_r by lia. rewrite Z.pow_1_r.
  apply Z.rem_mul_r; [|lia]. apply Z.pow_nonzero; lia.
Qed.

Lemma odd_mod2 x : Z.odd x = negb (x mod 2 =? 0).
Proof.
  rewrite Zmod_odd. destruct (Z.odd x); reflexivity.
Qed.

Lemma shr_iter_exact n m :
  0 <= m ->
  Nat.iter (S n) shr_1 (Build_shr_record m false false) =
  Build_shr_record (m / 2 ^ Z.of_nat (S n))
                   (Z.odd (m / 2 ^ Z.of_nat n))
                   (negb (m mod 2 ^ Z.of_nat n =? 0)).
Proof.
  intros Hm. induction n as [|n IH].
  - rewrite Nat.iter_succ. cbn [Nat.iter nat_rect].
    rewrite shr_1_nonneg by lia.
    change (Z.of_nat 1) with 1. change (Z.of_nat 0) with 0.
    rewrite Z.pow_0_r, Z.pow_1_r, Z.div_1_r, Z.mod_1_r. reflexivity.
  - rewrite Nat.iter_succ, IH.
    assert (Hp : 0 < 2 ^ Z.of_nat (S n)) by (apply Z.pow_pos_nonneg; lia).
    rewrite shr_1_nonneg by (apply Z.div_pos; lia).
    rewrite Z.div_div by lia.
    f_equal.
    + f_equal. rewrite (Nat2Z.inj_succ (S n)), Z.pow_succ_r by lia. lia.
    + rewrite (Nat2Z.inj_succ n). unfold Z.succ.
      rewrite mod_pow2_succ by lia.
      assert (Hp' : 0 < 2 ^ Z.of_nat n) by (apply Z.pow_pos_nonneg; lia).
      pose proof (Z.mod_pos_bound m (2 ^ Z.of_nat n) Hp').
      pose proof (Z.mod_pos_bound (m / 2 ^ Z.of_nat n) 2 ltac:(lia)).
      rewrite odd_mod2.
      destruct (Z.eqb_spec ((m / 2 ^ Z.of_nat n) mod 2) 0) as [E|E];
      destruct (Z.eqb_spec (m mod 2 ^ Z.of_nat n) 0) as [E'|E'];
      destruct (Z.eqb_spec
        (m mod 2 ^ Z.of_nat n + 2 ^ Z.of_nat n * ((m / 2 ^ Z.of_nat n) mod 2)) 0);
      simpl; try reflexivity; try nia.
Qed.

Lemma shr_nonpos mrs e k : k <= 0 -> shr mrs e k = (mrs, e).
Proof. intros Hk. destruct k; try reflexivity. lia. Qed.

Lemma shr_exact_pos m e k :
  0 <= m -> 0 < k ->
  shr (Build_shr_record m false false) e k =
  (Build_shr_record (m / 2 ^ k) (Z.odd (m / 2 ^ (k - 1)))
                    (negb (m mod 2 ^ (k - 1) =? 0)), e + k).
Proof.
  intros Hm Hk. destruct k as [|p|p]; try lia.
  unfold shr. rewrite iter_pos_nat.
  destruct (Pos.to_nat p) as [|n] eqn:E; [lia|].
  rewrite shr_iter_exact by lia.
  assert (Z.pos p = Z.of_nat (S n)) by lia.
  replace (Z.pos p - 1) with (Z.of_nat n) by lia.
  rewrite H. reflexivity.
Qed.

Lemma rne_shr m k :
  0 <= m -> 0 < k ->
  round_nearest_even (m / 2 ^ k)
    (loc_of_shr_record
       (Build_shr_record (m / 2 ^ k) (Z.odd (m / 2 ^ (k - 1)))
                         (negb (m mod 2 ^ (k - 1) =? 0)))) = Zrne m k.
Proof.
  intros Hm Hk. unfold Zrne.
  assert (Hh : 0 < 2 ^ (k - 1)) by (apply Z.pow_pos_nonneg; lia).
  pose proof (mod_pow2_succ m (k - 1) ltac:(lia)) as Hmod.
  replace (k - 1 + 1) with k in Hmod by lia.
  rewrite Hmod, odd_mod2. clear Hmod.
  pose proof (Z.mod_pos_bound m (2 ^ (k - 1)) Hh).
  pose proof (Z.mod_pos_bound (m / 2 ^ (k - 1)) 2 ltac:(lia)).
  assert (Hb : (m / 2 ^ (k - 1)) mod 2 = 0 \/ (m / 2 ^ (k - 1)) mod 2 = 1) by lia.
  destruct Hb as [Hb|Hb]; rewrite Hb;
  destruct (Z.eqb_spec (m mod 2 ^ (k - 1)) 0) as [E'|E']; simpl;
  destruct (Z.ltb_spec (m mod 2 ^ (k - 1) + 2 ^ (k - 1) * 0) (2 ^ (k - 1)));
  destruct (Z.ltb_spec (m mod 2 ^ (k - 1) + 2 ^ (k - 1) * 1) (2 ^ (k - 1)));
  destruct (Z.ltb_spec (2 ^ (k - 1)) (m mod 2 ^ (k - 1) + 2 ^ (k - 1) * 1));
  try reflexivity; try lia.
Qed.

Lemma log2_lt_pow2' a b : 0 < a -> a < 2 ^ b -> Z.log2 a + 1 <= b.
Proof.
  intros Ha Hb.
  destruct (Z_lt_le_dec b 0) as [Hn|Hn].
  - rewrite Z.pow_neg_r in Hb by lia. lia.
  - apply Z.log2_lt_pow2 in Hb; lia.
Qed.

Lemma binary_round_aux_represents (m : positive) (e c : Z) :
  c <= e -> e <= 971 -> Z.log2 (Zpos m) + 1 + e <= 1023 ->
  represents c (binary_round_aux 53 1024 false (Zpos m) e loc_Exact)
             (Zround (-1074 - c) (Zpos m * 2 ^ (e - c))).
Proof.
  intros Hc He Hmag.
  pose proof (Z.log2_nonneg (Zpos m)) as Hl0.
  pose proof (Z.log2_spec (Zpos m) ltac:(lia)) as [Hlo Hhi]. unfold Z.succ in Hhi.
  assert (Hpc : 0 < 2 ^ (e - c)) by (apply Z.pow_pos_nonneg; lia).
  assert (HlX : Z.log2 (Zpos m * 2 ^ (e - c)) = e - c + Z.log2 (Zpos m))
    by (apply Z.log2_mul_pow2; lia).
  unfold binary_round_aux, shr_fexp.
  rewrite Zdigits2_log2, fexp_b64.
  set (d := Z.log2 (Zpos m) + 1) in *.
  set (E := Z.max (d + e - 53) (-1074)).
  cbn [shr_record_of_loc].
  unfold Zround. rewrite HlX.
  replace (Z.max (e - c + Z.log2 (Z.pos m) + 1 - 53) (-1074 - c)) with (E - c)
    by (unfold E, d; lia).
  destruct (Z_le_gt_dec (E - e) 0) as [Hk|Hk].
  - (* no shift: the product already fits *)
    rewrite shr_nonpos by exact Hk.
    cbn [shr_m loc_of_shr_record round_nearest_even].
    rewrite Zdigits2_log2, fexp_b64. fold d. fold E.
    cbn [shr_record_of_loc]. rewrite shr_nonpos by exact Hk.
    cbn [shr_m].
    destruct (Z.leb_spec e (1024 - 53)) as [_|Hbad]; [|lia].
    cbn [represents]. split; [lia|].
    destruct (Z.leb_spec (E - c) 0) as [Hg|Hg]; [reflexivity|].
    replace (e - c) with ((e - E) + (E - c)) at 1 by lia.
    rewrite Z.pow_add_r, Z.mul_assoc by lia.
    rewrite Zrne_exact by lia.
    rewrite <- Z.mul_assoc, <- Z.pow_add_r by lia.
    do 2 f_equal. lia.
  - (* the low [E - e] bits are rounded away *)
    rewrite shr_exact_pos by lia.
    cbn [shr_m]. rewrite rne_shr by lia.
    replace (e + (E - e)) with E by lia.
    destruct (Z.leb_spec (E - c) 0) as [Hg|Hg]; [lia|].
    replace (E - c) with ((E - e) + (e - c)) at 1 by lia.
    rewrite Zrne_shift by lia.
    set (k := E - e) in *.
    assert (Hpk : 0 < 2 ^ k) by (apply Z.pow_pos_nonneg; lia).
    assert (Hq : Zpos m / 2 ^ k < 2 ^ 53).
    { apply Z.div_lt_upper_bound; [lia|].
      rewrite <- Z.pow_add_r by lia.
      eapply Z.lt_le_trans; [exact Hhi|]. apply Z.pow_le_mono_r; lia. }
    pose proof (Zrne_range (Zpos m) k ltac:(lia)) as [Hr1 Hr2].
    assert (Hq0 : 0 <= Zpos m / 2 ^ k) by (apply Z.div_pos; lia).
    set (m1 := Zrne (Zpos m) k) in *.
    destruct (Z.eq_dec m1 0) as [Hz|Hnz].
    { rewrite Hz. cbn [Zdigits2]. rewrite fexp_b64.
      rewrite shr_nonpos by (unfold E; lia).
      cbn [shr_record_of_loc shr_m represents]. reflexivity. }
    destruct m1 as [|p1|p1] eqn:Em1; try lia.
    rewrite Zdigits2_log2, fexp_b64.
    destruct (Z.eq_dec (Zpos p1) (2 ^ 53)) as [Htop|Htop].
    + (* rounding carried into the next binade *)
      rewrite Htop. change (Z.log2 (2 ^ 53)) with 53.
      replace (Z.max (53 + 1 + E - 53) (-1074) - E) with 1 by (unfold E; lia).
      rewrite shr_exact_pos by lia.
      cbn [shr_m].
      change (2 ^ 53 / 2 ^ 1) with (Zpos (2 ^ 52)).
      cbv iota.
      destruct (Z.leb_spec (E + 1) (1024 - 53)) as [_|Hbad]; [|unfold E, d in *; lia].
      cbn [represents]. split; [lia|].
      replace (E + 1 - c) with (1 + (E - c)) by lia.
      rewrite Z.pow_add_r by lia. change (2 ^ 53) with (Zpos (2 ^ 52) * 2 ^ 1). ring.
    + assert (Hd1 : Z.log2 (Zpos p1) + 1 <= 53)
        by (apply log2_lt_pow2'; lia).
      rewrite shr_nonpos by (unfold E; lia).
      cbn [shr_record_of_loc shr_m].
      destruct (Z.leb_spec E (1024 - 53)) as [_|Hbad]; [|unfold E, d in *; lia].
      cbn [represents]. split; [lia|reflexivity].
Qed.

(** ** Conversions and products of doubles *)

Lemma binary_round_aux_fits s (m : positive) (e : Z) :
  Z.max (Z.log2 (Zpos m) + 1 + e - 53) (-1074) <= e -> e <= 971 ->
  binary_round_aux 53 1024 s (Zpos m) e loc_Exact = S754_finite s m e.
Proof.
  intros Hk He. unfold binary_round_aux, shr_fexp.
  rewrite Zdigits2_log2, fexp_b64. cbn [shr_record_of_loc].
  rewrite shr_nonpos by lia.
  cbn [shr_m loc_of_shr_record round_nearest_even].
  rewrite Zdigits2_log2, fexp_b64. cbn [shr_record_of_loc].
  rewrite shr_nonpos by lia. cbn [shr_m].
  destruct (Z.leb_spec e (1024 - 53)); [reflexivity|lia].
Qed.

Lemma shl_align_le mx ex ex' :
  ex' <= ex ->
  exists mz, shl_align mx ex ex' = (mz, ex') /\ Zpos mz = Zpos mx * 2 ^ (ex - ex').
Proof.
  intros H. unfold shl_align.
  destruct (ex' - ex) as [|d|d] eqn:E; try lia.
  - exists mx. assert (ex' = ex) by lia. subst. split; [reflexivity|].
    rewrite Z.sub_diag. lia.
  - exists (Pos.iter xO mx d). split; [reflexivity|].
    change (Pos.iter xO mx d) with (shift_pos d mx).
    rewrite shift_pos_correct, Z.pow_pos_fold.
    replace (ex - ex') with (Zpos d) by lia. lia.
Qed.

(** An integer of at most 53 bits is converted exactly, to a normal double. *)
Lemma double_of_Z_pos n :
  0 < n < 2 ^ 53 ->
  exists m e, double_of_Z n = S754_finite false m e /\
              -52 <= e <= 0 /\ Zpos m = n * 2 ^ (- e) /\
              2 ^ 52 <= Zpos m < 2 ^ 53.
Proof.
  intros [Hn0 Hn]. destruct n as [|p|p]; try lia.
  pose proof (Z.log2_nonneg (Zpos p)) as Hl0.
  pose proof (Z.log2_spec (Zpos p) ltac:(lia)) as [Hlo Hhi]. unfold Z.succ in Hhi.
  assert (Hl : Z.log2 (Zpos p) < 53) by (apply Z.log2_lt_pow2; lia).
  set (e := Z.log2 (Zpos p) - 52).
  unfold double_of_Z, binary_normalize, binary_round.
  change (Zpos (digits2_pos p)) with (Zdigits2 (Zpos p)).
  rewrite Zdigits2_log2. change (fexp prec emax) with (fexp 53 1024).
  rewrite fexp_b64.
  replace (Z.max (Z.log2 (Zpos p) + 1 + 0 - 53) (-1074)) with e by (unfold e; lia).
  destruct (shl_align_le p 0 e ltac:(unfold e; lia)) as (mz & Hal & Hmz).
  rewrite Hal.
  assert (Hpe : 0 < 2 ^ (0 - e)) by (apply Z.pow_pos_nonneg; unfold e; lia).
  assert (Hlz : Z.log2 (Zpos mz) = 52).
  { rewrite Hmz, Z.log2_mul_pow2 by (unfold e; lia). unfold e. lia. }
  change (binary_round_aux prec emax) with (binary_round_aux 53 1024).
  rewrite binary_round_aux_fits by (try rewrite Hlz; unfold e; lia).
  exists mz, e. split; [reflexivity|].
  split; [unfold e; lia|]. split; [rewrite Hmz; f_equal; lia|].
  pose proof (Z.log2_spec (Zpos mz) ltac:(lia)) as [Hlo' Hhi'].
  rewrite Hlz in Hlo', Hhi'. change (Z.succ 52) with 53 in Hhi'. lia.
Qed.

(** The product of two positive doubles is the rounding of the exact
    product. *)
Lemma dmul_represents (mx my : positive) (ex ey c : Z) :
  c <= ex + ey -> ex + ey <= 971 ->
  Z.log2 (Zpos mx * Zpos my) + 1 + (ex + ey) <= 1023 ->
  represents c (dmul (S754_finite false mx ex) (S754_finite false my ey))
             (Zround (-1074 - c) (Zpos mx * Zpos my * 2 ^ (ex + ey - c))).
Proof.
  intros Hc He Hmag. unfold dmul. cbn [SFmul xorb].
  change (Zpos mx * Zpos my) with (Zpos (mx * my)) in *.
  now apply binary_round_aux_represents.
Qed.

Lemma represents_nonneg c x V : represents c x V -> 0 <= V.
Proof.
  destruct x as [s|s| |[|] m e]; cbn [represents]; try tauto; [lia|].
  intros [Hc ->]. assert (0 < 2 ^ (e - c)) by (apply Z.pow_pos_nonneg; lia). nia.
Qed.

(** Truncation reads the integer part off the scaled value. *)
Lemma SFtrunc_represents c x V :
  c <= 0 -> represents c x V -> SFtrunc x = V / 2 ^ (- c).
Proof.
  intros Hc. destruct x as [s|s| |[|] m e]; cbn [represents]; try tauto.
  - intros ->. reflexivity.
  - intros [Hce ->]. cbn [SFtrunc cond_Zopp].
    assert (Hp : 0 < 2 ^ (e - c)) by (apply Z.pow_pos_nonneg; lia).
    destruct (Z_le_gt_dec 0 e) as [He|He].
    + rewrite Z.shiftl_mul_pow2 by lia.
      replace (e - c) with (e + - c) by lia.
      rewrite Z.pow_add_r, Z.mul_assoc by lia.
      rewrite Z.div_mul; [reflexivity|]. apply Z.pow_nonzero; lia.
    + rewrite Z.shiftl_div_pow2 by lia.
      replace (- c) with (- e + (e - c)) by lia.
      rewrite Z.pow_add_r by lia.
      rewrite Z.div_mul_cancel_r; [reflexivity| |lia].
      apply Z.pow_nonzero; lia.
Qed.

Lemma SFfloor_represents c x V : represents c x V -> SFfloor x = SFtrunc x.
Proof.
  destruct x as [s|s| |[|] m e]; cbn [represents]; try tauto; reflexivity.
Qed.

Lemma double_to_int_represents c x V :
  c <= 0 -> represents c x V -> V / 2 ^ (- c) <= INT_MAX ->
  double_to_int x = Some (V / 2 ^ (- c)).
Proof.
  intros Hc Hr Hmax.
  pose proof (SFtrunc_represents c x V Hc Hr) as Ht.
  pose proof (represents_nonneg c x V Hr) as HV.
  assert (0 <= V / 2 ^ (- c)).
  { apply Z.div_pos; [lia|]. apply Z.pow_pos_nonneg; lia. }
  unfold double_to_int. rewrite Ht.
  destruct x as [s|s| |[|] m e]; cbn [represents] in Hr; try tauto;
  (destruct (Z.leb_spec INT_MIN (V / 2 ^ (- c))); [|unfold INT_MIN in *; lia]);
  (destruct (Z.leb_spec (V / 2 ^ (- c)) INT_MAX); [|lia]); reflexivity.
Qed.

(** [SFfloor] is the floor of the exact value. *)
Lemma Qpower_2_pos p : Qpower 2 (Zpos p) = (2 ^ Zpos p # 1)%Q.
Proof.
  cbn [Qpower]. change 2%Q with (2 # 1)%Q.
  rewrite Qpower_decomp_positive. f_equal.
  apply Pos2Z.inj. rewrite Pos2Z.inj_pow. apply Z.pow_1_l. lia.
Qed.

Lemma SFfloor_Qfloor s m e :
  SFfloor (S754_finite s m e) = Qfloor (SF2Q (S754_finite s m e)).
Proof.
  cbn [SFfloor SF2Q].
  set (a := cond_Zopp s (Zpos m)).
  destruct e as [|p|p].
  - cbn [Qpower]. unfold Qfloor, Qmult, inject_Z. cbn [Qnum Qden].
    rewrite Z.mul_1_r, Z.div_1_r. apply Z.shiftl_0_r.
  - rewrite Z.shiftl_mul_pow2 by lia. rewrite Qpower_2_pos.
    unfold Qfloor, Qmult, inject_Z. cbn [Qnum Qden]. now rewrite Z.div_1_r.
  - rewrite Z.shiftl_div_pow2 by lia.
    change (- Zneg p) with (Zpos p).
    change (Qpower 2 (Zneg p)) with (/ Qpower 2 (Zpos p))%Q.
    rewrite Qpower_2_pos.
    assert (H : 0 < 2 ^ Zpos p) by (apply Z.pow_pos_nonneg; lia).
    destruct (2 ^ Zpos p) as [|q|q] eqn:E; try lia.
    unfold Qfloor, Qmult, Qinv, inject_Z. cbn [Qnum Qden].
    rewrite Z.mul_1_r. reflexivity.
Qed.

(** ** Comparisons *)

Lemma dlt_finite_pos m1 e1 m2 e2 :
  dlt (S754_finite false m1 e1) (S754_finite false m2 e2) = true <->
  e1 < e2 \/ (e1 = e2 /\ Zpos m1 < Zpos m2).
Proof.
  unfold dlt, SFltb. cbn [SFcompare].
  destruct (Z.compare_spec e1 e2) as [E|E|E].
  - change (Pos.compare_cont Eq m1 m2) with (Pos.compare m1 m2).
    destruct (Pos.compare_spec m1 m2) as [F|F|F]; split; intros H;
      try discriminate; try reflexivity; try lia.
  - split; [lia|reflexivity].
  - split; [discriminate|lia].
Qed.

Lemma dle_finite_pos m1 e1 m2 e2 :
  dle (S754_finite false m1 e1) (S754_finite false m2 e2) = true <->
  e1 < e2 \/ (e1 = e2 /\ Zpos m1 <= Zpos m2).
Proof.
  unfold dle, SFleb. cbn [SFcompare].
  destruct (Z.compare_spec e1 e2) as [E|E|E].
  - change (Pos.compare_cont Eq m1 m2) with (Pos.compare m1 m2).
    destruct (Pos.compare_spec m1 m2) as [F|F|F]; split; intros H;
      try discriminate; try reflexivity; try lia.
  - split; [lia|reflexivity].
  - split; [discriminate|lia].
Qed.

Lemma dlt_dle x y : dlt x y = true -> dle x y = true.
Proof.
  unfold dlt, dle, SFltb, SFleb.
  destruct (SFcompare x y) as [[| |]|]; congruence.
Qed.

(** A double has a mantissa of at most 53 bits, of exactly 53 bits unless
    its exponent is the least one. *)
Lemma is_double_finite s m e :
  is_double (S754_finite s m e) ->
  Zpos m < 2 ^ 53 /\ -1074 <= e <= 971 /\ (2 ^ 52 <= Zpos m \/ e = -1074).
Proof.
  unfold is_double, valid_binary, bounded, canonical_mantissa.
  intros H. apply andb_true_iff in H as [Hc Hb].
  apply Z.eqb_eq in Hc. apply Z.leb_le in Hb.
  change (Zpos (digits2_pos m)) with (Zdigits2 (Zpos m)) in Hc.
  rewrite Zdigits2_log2 in Hc. change (fexp prec emax) with (fexp 53 1024) in Hc.
  rewrite fexp_b64 in Hc. change (emax - prec) with 971 in Hb.
  pose proof (Z.log2_spec (Zpos m) ltac:(lia)) as [Hlo Hhi]. unfold Z.succ in Hhi.
  assert (Hl : Z.log2 (Zpos m) <= 52) by lia.
  split.
  - eapply Z.lt_le_trans; [exact Hhi|]. apply Z.pow_le_mono_r; lia.
  - split; [lia|].
    destruct (Z.eq_dec e (-1074)) as [E|E]; [now right|left].
    assert (Z.log2 (Zpos m) = 52) by lia.
    rewrite H in Hlo. exact Hlo.
Qed.

Lemma is_double_mant_ok x : is_double x -> mant_ok x.
Proof.
  destruct x as [s|s| |s m e]; cbn [mant_ok]; try tauto.
  intros H. apply is_double_finite in H as [H _]. exact H.
Qed.

(** With a mantissa of at most 53 bits on the left and a normal one on the
    right, the smaller exponent has the smaller value. *)
Lemma scaled_lt_exp m1 e1 m2 e2 c :
  Zpos m1 < 2 ^ 53 -> 2 ^ 52 <= Zpos m2 -> e1 < e2 -> c <= e1 ->
  Zpos m1 * 2 ^ (e1 - c) < Zpos m2 * 2 ^ (e2 - c).
Proof.
  intros H1 H2 He Hc.
  assert (Hp1 : 0 < 2 ^ (e1 - c)) by (apply Z.pow_pos_nonneg; lia).
  assert (Hp2 : 0 < 2 ^ (e2 - c)) by (apply Z.pow_pos_nonneg; lia).
  assert (Hle : 2 ^ (53 + (e1 - c)) <= 2 ^ (52 + (e2 - c)))
    by (apply Z.pow_le_mono_r; lia).
  rewrite !Z.pow_add_r in Hle by lia. nia.
Qed.

(** The order of two non-negative doubles is the order of their values. *)
Lemma dle_scaled m1 e1 m2 e2 c :
  is_double (S754_finite false m1 e1) -> is_double (S754_finite false m2 e2) ->
  dle (S754_finite false m1 e1) (S754_finite false m2 e2) = true ->
  c <= e1 -> c <= e2 ->
  Zpos m1 * 2 ^ (e1 - c) <= Zpos m2 * 2 ^ (e2 - c).
Proof.
  intros V1 V2 Hle Hc1 Hc2.
  apply is_double_finite in V1 as (Hm1 & He1 & _).
  apply is_double_finite in V2 as (Hm2 & He2 & Hn2).
  apply dle_finite_pos in Hle as [Hlt|[-> Hm]].
  - apply Z.lt_le_incl, scaled_lt_exp; lia.
  - apply Z.mul_le_mono_nonneg_r; [|lia].
    apply Z.pow_nonneg; lia.
Qed.

(** ** Clamping the brightness *)

Lemma clamp_brightness_cases x :
  clamp_brightness x = d0 \/ clamp_brightness x = d1 \/
  (clamp_brightness x = x /\ dlt d0 x = true /\ dlt x d1 = true).
Proof.
  unfold clamp_brightness, std_max, std_min.
  destruct (dlt x d1) eqn:E1.
  - destruct (dlt d0 x) eqn:E0; [right; right; repeat split; assumption|now left].
  - right; left. reflexivity.
Qed.

Lemma open_unit_pos x :
  mant_ok x -> dlt d0 x = true -> dlt x d1 = true ->
  exists m e, x = S754_finite false m e /\ unit_pos m e.
Proof.
  intros Hm H0 H1.
  destruct x as [s|[|]| |[|] m e]; try discriminate.
  exists m, e. split; [reflexivity|]. cbn [mant_ok] in Hm.
  unfold d1 in H1. apply dlt_finite_pos in H1 as [He|[-> Hlt]].
  - repeat split; try lia.
    apply Z.le_trans with (2 ^ 53); [lia|]. apply Z.pow_le_mono_r; lia.
  - repeat split; lia.
Qed.

Lemma unit_pos_d1 : unit_pos 4503599627370496 (-52).
Proof. unfold unit_pos. lia. Qed.

(** For a double [b] in [[0,1]] the clamp changes nothing but the sign of
    a zero. *)
Lemma unit_interval_cases b :
  is_double b -> dle d0 b = true -> dle b d1 = true ->
  (exists s, b = S754_zero s /\ clamp_brightness b = d0) \/
  (exists m e, b = S754_finite false m e /\ unit_pos m e /\ clamp_brightness b = b).
Proof.
  intros Hv H0 H1.
  destruct b as [s|[|]| |[|] m e]; try discriminate.
  - left. exists s. split; [reflexivity|]. now destruct s.
  - right. exists m, e. split; [reflexivity|].
    apply is_double_finite in Hv as (Hm & He & _).
    unfold d1 in H1. apply dle_finite_pos in H1.
    assert (Hu : unit_pos m e).
    { destruct H1 as [Hlt|[-> Hle]].
      - repeat split; try lia.
        apply Z.le_trans with (2 ^ 53); [lia|]. apply Z.pow_le_mono_r; lia.
      - repeat split; lia. }
    split; [exact Hu|].
    unfold clamp_brightness, std_max, std_min.
    destruct (dlt (S754_finite false m e) d1) eqn:E1; [reflexivity|].
    (* not below 1.0 and at most 1.0: this is 1.0 itself *)
    assert (e = -52 /\ m = 4503599627370496%positive) as [-> ->].
    { destruct H1 as [Hlt|[-> Hle]].
      - assert (dlt (S754_finite false m e) d1 = true)
          by (apply dlt_finite_pos; lia). congruence.
      - destruct (Z.eq_dec (Zpos m) 4503599627370496) as [E|E].
        + split; [reflexivity|]. congruence.
        + assert (dlt (S754_finite false m (-52)) d1 = true)
            by (apply dlt_finite_pos; lia). congruence. }
    reflexivity.
Qed.

(** ** The product [brightness * (len - 1)] *)

Lemma log2_normal m : 2 ^ 52 <= Zpos m < 2 ^ 53 -> Z.log2 (Zpos m) = 52.
Proof. intros H. apply Z.log2_unique; [lia|exact H]. Qed.

(** The index computed from a brightness of at most 1 is defined, lies
    within the ramp, and is the last index when the brightness is 1. *)
Lemma glyph_product m e n :
  unit_pos m e -> 1 <= n <= INT_MAX ->
  exists i,
    double_to_int (dmul (S754_finite false m e) (double_of_Z n)) = Some i /\
    0 <= i <= n /\
    SFtrunc (dmul (S754_finite false m e) (double_of_Z n)) = i /\
    SFfloor (dmul (S754_finite false m e) (double_of_Z n)) = i /\
    (Zpos m = 2 ^ (- e) -> i = n).
Proof.
  intros (Hm & He & Hu) [Hn1 Hn2]. unfold INT_MAX in Hn2.
  destruct (double_of_Z_pos n ltac:(lia)) as (mn & en & Hn & Hen & Hmn & Hnorm).
  rewrite Hn.
  pose proof (log2_normal mn Hnorm) as Hlmn.
  assert (Hpe : 0 < 2 ^ (- e)) by (apply Z.pow_pos_nonneg; lia).
  assert (Hpen : 0 < 2 ^ (- en)) by (apply Z.pow_pos_nonneg; lia).
  assert (Hpc : 0 < 2 ^ (- (e + en))) by (apply Z.pow_pos_nonneg; lia).
  assert (Hmag : Z.log2 (Zpos m * Zpos mn) + 1 + (e + en) <= 1023).
  { assert (Z.log2 (Zpos m * Zpos mn) < 106); [|lia].
    apply Z.log2_lt_pow2; [lia|].
    change (2 ^ 106) with (2 ^ 53 * 2 ^ 53). nia. }
  pose proof (dmul_represents m mn e en (e + en) ltac:(lia) ltac:(lia) Hmag) as Hr.
  rewrite Z.sub_diag, Z.pow_0_r, Z.mul_1_r in Hr.
  set (t := -1074 - (e + en)) in *.
  set (X := Zpos m * Zpos mn) in *.
  set (P := Zpos mn * 2 ^ (- e)).
  assert (HXP : X <= P) by (unfold X, P; nia).
  assert (HP : Zround t P = P).
  { apply Zround_exact with (p := Zpos mn).
    unfold P at 2. rewrite Z.log2_mul_pow2 by lia. rewrite Hlmn.
    unfold P. do 2 f_equal. unfold t. lia. }
  assert (HV : Zround t X <= P).
  { rewrite <- HP. apply Zround_mono; unfold X; lia. }
  assert (HPn : P = n * 2 ^ (- (e + en))).
  { unfold P. rewrite Hmn. replace (- (e + en)) with (- en + - e) by lia.
    rewrite Z.pow_add_r by lia. ring. }
  assert (Hi : Zround t X / 2 ^ (- (e + en)) <= n).
  { apply Z.div_le_upper_bound; [lia|]. rewrite Z.mul_comm, <- HPn. exact HV. }
  pose proof (represents_nonneg _ _ _ Hr) as HV0.
  exists (Zround t X / 2 ^ (- (e + en))).
  split; [|split; [|split; [|split]]].
  - apply double_to_int_represents; [lia|exact Hr|unfold INT_MAX; lia].
  - split; [apply Z.div_pos; lia|exact Hi].
  - apply SFtrunc_represents; [lia|exact Hr].
  - rewrite (SFfloor_represents _ _ _ Hr). apply SFtrunc_represents; [lia|exact Hr].
  - intros Hone.
    assert (X = P) by (unfold X, P; rewrite Hone; ring).
    rewrite H, HP, HPn. apply Z.div_mul. lia.
Qed.

(** The truncated product is monotone in the brightness. *)
Lemma glyph_product_mono m1 e1 m2 e2 n :
  unit_pos m1 e1 -> unit_pos m2 e2 -> 1 <= n <= INT_MAX ->
  Zpos m1 * 2 ^ (e1 - Z.min e1 e2) <= Zpos m2 * 2 ^ (e2 - Z.min e1 e2) ->
  SFtrunc (dmul (S754_finite false m1 e1) (double_of_Z n)) <=
  SFtrunc (dmul (S754_finite false m2 e2) (double_of_Z n)).
Proof.
  intros (Hm1 & He1 & Hu1) (Hm2 & He2 & Hu2) [Hn1 Hn2] Hle. unfold INT_MAX in Hn2.
  destruct (double_of_Z_pos n ltac:(lia)) as (mn & en & Hn & Hen & Hmn & Hnorm).
  rewrite Hn.
  set (c0 := Z.min e1 e2) in *.
  assert (Hmag : forall m : positive, Zpos m < 2 ^ 53 ->
                   Z.log2 (Zpos m * Zpos mn) < 106).
  { intros m Hm. apply Z.log2_lt_pow2; [lia|].
    change (2 ^ 106) with (2 ^ 53 * 2 ^ 53). nia. }
  pose proof (Hmag m1 Hm1) as Hg1. pose proof (Hmag m2 Hm2) as Hg2.
  pose proof (dmul_represents m1 mn e1 en (c0 + en)
                ltac:(unfold c0; lia) ltac:(lia) ltac:(lia)) as Hr1.
  pose proof (dmul_represents m2 mn e2 en (c0 + en)
                ltac:(unfold c0; lia) ltac:(lia) ltac:(lia)) as Hr2.
  replace (e1 + en - (c0 + en)) with (e1 - c0) in Hr1 by lia.
  replace (e2 + en - (c0 + en)) with (e2 - c0) in Hr2 by lia.
  rewrite (SFtrunc_represents (c0 + en) _ _ ltac:(unfold c0; lia) Hr1).
  rewrite (SFtrunc_represents (c0 + en) _ _ ltac:(unfold c0; lia) Hr2).
  assert (Hp1 : 0 < 2 ^ (e1 - c0)) by (apply Z.pow_pos_nonneg; unfold c0; lia).
  apply Z.div_le_mono; [apply Z.pow_pos_nonneg; unfold c0; lia|].
  apply Zround_mono; nia.
Qed.

(** ** The glyph index *)

Lemma last_index N :
  2 <= N <= 2 ^ 31 ->
  wrap_size_t (N - 1) = N - 1 /\ wrap_int (N - 1) = N - 1.
Proof.
  intros H. unfold wrap_size_t, wrap_int. split.
  - apply Z.mod_small. lia.
  - rewrite Z.mod_small; lia.
Qed.

Lemma dmul_zero_count s n :
  1 <= n <= INT_MAX ->
  exists s', dmul (S754_zero s) (double_of_Z n) = S754_zero s'.
Proof.
  intros [Hn1 Hn2]. unfold INT_MAX in Hn2.
  destruct (double_of_Z_pos n ltac:(lia)) as (mn & en & Hn & _).
  rewrite Hn. eexists. reflexivity.
Qed.

Lemma glyphIndex_zero N s :
  2 <= N <= 2 ^ 31 ->
  glyphIndex N (S754_zero s) = Some 0 /\ glyphIndex_spec N (S754_zero s) = 0.
Proof.
  intros HN. destruct (last_index N HN) as [Hs Hi].
  assert (Hn : 1 <= N - 1 <= INT_MAX) by (unfold INT_MAX; lia).
  split.
  - unfold glyphIndex. rewrite Hs, Hi.
    replace (clamp_brightness (S754_zero s)) with d0 by (now destruct s).
    unfold d0.
    destruct (dmul_zero_count false (N - 1) Hn) as [s' ->].
    cbn [double_to_int SFtrunc]. change (INT_MIN <=? 0) with true.
    change (0 <=? INT_MAX) with true. cbn [andb]. f_equal. lia.
  - unfold glyphIndex_spec.
    destruct (dmul_zero_count s (N - 1) Hn) as [s' ->].
    cbn [SFfloor]. unfold clamp. lia.
Qed.

Lemma glyphIndex_unit_pos N m e :
  2 <= N <= 2 ^ 31 -> unit_pos m e ->
  clamp_brightness (S754_finite false m e) = S754_finite false m e ->
  exists i,
    glyphIndex N (S754_finite false m e) = Some i /\ 0 <= i <= N - 1 /\
    i = SFtrunc (dmul (S754_finite false m e) (double_of_Z (N - 1))) /\
    i = glyphIndex_spec N (S754_finite false m e) /\
    (Zpos m = 2 ^ (- e) -> i = N - 1).
Proof.
  intros HN Hu Hcl. destruct (last_index N HN) as [Hs Hi].
  assert (Hn : 1 <= N - 1 <= INT_MAX) by (unfold INT_MAX; lia).
  destruct (glyph_product m e (N - 1) Hu Hn) as (i & Hd & Hr & Ht & Hf & Hone).
  exists i. unfold glyphIndex, glyphIndex_spec, clamp.
  rewrite Hs, Hi, Hcl, Hd, Hf.
  repeat split; try lia; try (f_equal; lia).
Qed.

(** C1 (amended). For a ramp of [N] glyphs, [2 <= N <= 2^31], and a double
    [b] with [0 <= b <= 1], the index computed by [getASCIIChar] is
    [clamp(floor(b * (N - 1)), 0, N - 1)], the product being the one of
    [double]; the index does not decrease when [b] grows within [[0,1]];
    brightness 0 gives index 0 and brightness 1 gives index [N - 1]. *)
Theorem glyphIndex_linear (N : Z) (b : double) :
  2 <= N <= 2 ^ 31 ->
  is_double b -> dle d0 b = true -> dle b d1 = true ->
  glyphIndex N b = Some (glyphIndex_spec N b) /\
  (forall b', is_double b' -> dle d0 b' = true -> dle b' d1 = true ->
     dle b b' = true ->
     exists i i', glyphIndex N b = Some i /\ glyphIndex N b' = Some i' /\ i <= i') /\
  glyphIndex N d0 = Some 0 /\
  glyphIndex N d1 = Some (N - 1).
Proof.
  intros HN Hv H0 H1.
  assert (Hn : 1 <= N - 1 <= INT_MAX) by (unfold INT_MAX; lia).
  split; [|split; [|split]].
  - destruct (unit_interval_cases b Hv H0 H1)
      as [(s & -> & _)|(m & e & -> & Hu & Hcl)].
    + destruct (glyphIndex_zero N s HN) as [-> ->]. reflexivity.
    + destruct (glyphIndex_unit_pos N m e HN Hu Hcl) as (i & -> & _ & _ & <- & _).
      reflexivity.
  - intros b' Hv' H0' H1' Hle.
    destruct (unit_interval_cases b Hv H0 H1)
      as [(s & -> & _)|(m & e & -> & Hu & Hcl)];
    destruct (unit_interval_cases b' Hv' H0' H1')
      as [(s' & -> & _)|(m' & e' & -> & Hu' & Hcl')].
    + exists 0, 0. destruct (glyphIndex_zero N s HN) as [-> _].
      destruct (glyphIndex_zero N s' HN) as [-> _]. repeat split; lia.
    + destruct (glyphIndex_unit_pos N m' e' HN Hu' Hcl') as (i' & Hi' & Hr' & _).
      exists 0, i'. destruct (glyphIndex_zero N s HN) as [-> _].
      repeat split; [exact Hi'|lia].
    + discriminate Hle.
    + destruct (glyphIndex_unit_pos N m e HN Hu Hcl) as (i & Hi & _ & Ht & _).
      destruct (glyphIndex_unit_pos N m' e' HN Hu' Hcl') as (i' & Hi' & _ & Ht' & _).
      exists i, i'. repeat split; [exact Hi|exact Hi'|].
      rewrite Ht, Ht'. apply glyph_product_mono; try assumption.
      apply dle_scaled; try assumption; lia.
  - apply (glyphIndex_zero N false HN).
  - destruct (glyphIndex_unit_pos N 4503599627370496 (-52) HN unit_pos_d1 eq_refl)
      as (i & Hi & _ & _ & _ & Hone).
    unfold d1. rewrite Hi. f_equal. apply Hone. reflexivity.
Qed.

(** The statement applies to the ramp of the program, at brightness 1/2. *)
Lemma glyphIndex_linear_witness :
  glyphIndex 70 d0_5 = Some (glyphIndex_spec 70 d0_5) /\
  (forall b', is_double b' -> dle d0 b' = true -> dle b' d1 = true ->
     dle d0_5 b' = true ->
     exists i i', glyphIndex 70 d0_5 = Some i /\ glyphIndex 70 b' = Some i' /\ i <= i') /\
  glyphIndex 70 d0 = Some 0 /\
  glyphIndex 70 d1 = Some (70 - 1).
Proof.
  apply (glyphIndex_linear 70 d0_5); [lia|reflexivity|reflexivity|reflexivity].
Defined.

(** C1 as stated fails in two places. A ramp of [2^31 + 1] glyphs has a last
    index that is no [int]: [static_cast<int>(len - 1)] is [INT_MIN], and
    brightness 1/2 is mapped to index 0, not to [2^30]. And on the ramp of
    the program (70 glyphs) the double [b = 0x1.642c8590b2164p-5], just below
    [3/69], has the exact product [b * 69 = 2.9999999999999999...], which the
    multiplication of [double] rounds to [3.0]: the code selects glyph 3
    where the floor of the exact product is 2. *)
Lemma glyphIndex_counterexample :
  (glyphIndex (2 ^ 31 + 1) d0_5 = Some 0 /\
   glyphIndex_spec (2 ^ 31 + 1) d0_5 = 2 ^ 30) /\
  (let b := S754_finite false 6265877742428516 (-57) in
   is_double b /\ dle d0 b = true /\ dle b d1 = true /\
   glyphIndex 70 b = Some 3 /\ glyphIndex_exact 70 b = 2).
Proof. vm_compute. repeat split; reflexivity. Qed.

(** ** Every rounding yields a mantissa of at most 53 bits *)

Lemma round_nearest_even_nonneg m l : 0 <= m -> 0 <= round_nearest_even m l.
Proof.
  intros Hm. destruct l as [|[| |]]; cbn [round_nearest_even]; try lia.
  destruct (Z.even m); lia.
Qed.

Lemma shr_m_nonneg mrs e k :
  0 <= shr_m mrs -> 0 <= shr_m (fst (shr mrs e k)).
Proof.
  intros Hm. destruct k as [|p|p]; cbn [shr fst]; try exact Hm.
  rewrite iter_pos_nat, shr_m_iter by exact Hm.
  apply Z.div_pos; [exact Hm|]. apply Z.pow_pos_nonneg; lia.
Qed.

Lemma shr_record_of_loc_m m l : shr_m (shr_record_of_loc m l) = m.
Proof. destruct l as [|[| |]]; reflexivity. Qed.

Lemma binary_round_aux_mant s mx ex lx :
  0 <= mx -> mant_ok (binary_round_aux 53 1024 s mx ex lx).
Proof.
  intros Hmx. unfold binary_round_aux.
  destruct (shr_fexp 53 1024 mx ex lx) as [mrs' e'] eqn:E1.
  assert (H1 : 0 <= shr_m mrs').
  { change mrs' with (fst (mrs', e')). rewrite <- E1. unfold shr_fexp.
    apply shr_m_nonneg. now rewrite shr_record_of_loc_m. }
  pose proof (round_nearest_even_nonneg _ (loc_of_shr_record mrs') H1) as Hm1.
  set (m1 := round_nearest_even (shr_m mrs') (loc_of_shr_record mrs')) in *.
  unfold shr_fexp. cbn [shr_record_of_loc].
  destruct m1 as [|p|p]; try lia.
  - (* the rounded mantissa is zero *)
    destruct (fexp 53 1024 (Zdigits2 0 + e') - e') as [|k|k]; cbn [shr];
      try exact I.
    rewrite iter_pos_nat.
    pose proof (shr_m_iter (Pos.to_nat k) (Build_shr_record 0 false false)
                  (Z.le_refl 0)) as Hz.
    cbn [shr_m] in Hz. rewrite Z.div_0_l in Hz
      by (apply Z.pow_nonzero; lia).
    rewrite Hz. exact I.
  - rewrite Zdigits2_log2, fexp_b64.
    pose proof (Z.log2_nonneg (Zpos p)) as Hl0.
    pose proof (Z.log2_spec (Zpos p) ltac:(lia)) as [Hlo Hhi].
    unfold Z.succ in Hhi.
    set (k := Z.max (Z.log2 (Zpos p) + 1 + e' - 53) (-1074) - e').
    destruct (Z_le_gt_dec k 0) as [Hk|Hk].
    + rewrite shr_nonpos by exact Hk. cbn [shr_m].
      destruct (e' <=? 1024 - 53); [|exact I]. cbn [mant_ok].
      eapply Z.lt_le_trans; [exact Hhi|]. apply Z.pow_le_mono_r; lia.
    + rewrite shr_exact_pos by lia. cbn [shr_m].
      assert (Hq : Zpos p / 2 ^ k < 2 ^ 53).
      { apply Z.div_lt_upper_bound; [apply Z.pow_pos_nonneg; lia|].
        rewrite <- Z.pow_add_r by lia.
        eapply Z.lt_le_trans; [exact Hhi|]. apply Z.pow_le_mono_r; lia. }
      destruct (Zpos p / 2 ^ k) as [|q|q]; try exact I.
      destruct (e' + k <=? 1024 - 53); [exact Hq|exact I].
Qed.

Lemma ddiv_mant_ok x y : mant_ok (ddiv x y).
Proof.
  unfold ddiv.
  destruct x as [sx|sx| |sx mx ex], y as [sy|sy| |sy my ey];
    cbn [SFdiv mant_ok]; try exact I.
  destruct (SFdiv_core_binary prec emax (Zpos mx) ex (Zpos my) ey)
    as [[mz ez] lz] eqn:E.
  apply binary_round_aux_mant.
  unfold SFdiv_core_binary in E.
  match type of E with
  | (let '(q, r) := Z.div_eucl ?a ?b in _) = _ =>
      assert (Ha : 0 <= a);
      [|pose proof (Z.div_pos a b Ha ltac:(lia)) as Hq;
        unfold Z.div in Hq; destruct (Z.div_eucl a b) as [q r]]
  end.
  - match goal with
    | |- 0 <= match ?s with _ => _ end => destruct s
    end; try lia.
    apply Z.shiftl_nonneg. lia.
  - injection E as <- _ _. exact Hq.
Qed.

(** ** The glyph index is defined for every brightness *)

Lemma glyphIndex_clamp_eq N x y :
  clamp_brightness x = clamp_brightness y -> glyphIndex N x = glyphIndex N y.
Proof. intros H. unfold glyphIndex. now rewrite H. Qed.

Lemma clamp_brightness_unit x :
  dle d0 (clamp_brightness x) = true /\ dle (clamp_brightness x) d1 = true.
Proof.
  destruct (clamp_brightness_cases x) as [->|[->|(-> & H0 & H1)]].
  - split; reflexivity.
  - split; reflexivity.
  - split; now apply dlt_dle.
Qed.

Lemma glyphIndex_total N x :
  2 <= N <= 2 ^ 31 -> mant_ok x ->
  exists i, glyphIndex N x = Some i /\ 0 <= i <= N - 1.
Proof.
  intros HN Hm.
  destruct (clamp_brightness_cases x) as [H|[H|(H & H0 & H1)]].
  - exists 0. rewrite (glyphIndex_clamp_eq N x d0) by (rewrite H; reflexivity).
    split; [apply (glyphIndex_zero N false HN)|lia].
  - destruct (glyphIndex_unit_pos N _ _ HN unit_pos_d1 eq_refl)
      as (i & Hi & Hr & _).
    exists i. rewrite (glyphIndex_clamp_eq N x d1) by (rewrite H; reflexivity).
    split; assumption.
  - destruct (open_unit_pos x Hm H0 H1) as (m & e & -> & Hu).
    destruct (glyphIndex_unit_pos N m e HN Hu H) as (i & Hi & Hr & _).
    exists i. split; assumption.
Qed.

Lemma string_get_some s n :
  (n < String.length s)%nat -> exists c, String.get n s = Some c.
Proof.
  revert n. induction s as [|a s IH]; intros n Hn; cbn [String.length] in Hn.
  - lia.
  - destruct n as [|n]; cbn [String.get].
    + now exists a.
    + apply IH. lia.
Qed.

Lemma string_at_some s i :
  0 <= i < Z.of_nat (String.length s) ->
  exists c, string_at s i = Some c /\ String.get (Z.to_nat i) s = Some c.
Proof.
  intros Hi. unfold string_at.
  destruct (Z.ltb_spec i 0); [lia|].
  destruct (string_get_some s (Z.to_nat i) ltac:(lia)) as [c Hc].
  exists c. rewrite Hc. split; reflexivity.
Qed.

(** The glyph of a luminance is always defined, on the ramp of the program. *)
Lemma getASCIIChar_luminance (pixel : Vec3b) :
  exists i c,
    glyphIndex (Z.of_nat (String.length ASCII_CHARS)) (luminance pixel) = Some i /\
    0 <= i < Z.of_nat (String.length ASCII_CHARS) /\
    getASCIIChar ASCII_CHARS (luminance pixel) = Some c /\
    String.get (Z.to_nat i) ASCII_CHARS = Some c.
Proof.
  change (Z.of_nat (String.length ASCII_CHARS)) with 70.
  destruct (glyphIndex_total 70 (luminance pixel) ltac:(lia)
              (ddiv_mant_ok _ _)) as (i & Hi & Hr).
  destruct (string_at_some ASCII_CHARS i) as (c & Hc & Hg).
  { change (Z.of_nat (String.length ASCII_CHARS)) with 70. lia. }
  exists i, c. unfold getASCIIChar.
  change (Z.of_nat (String.length ASCII_CHARS)) with 70.
  rewrite Hi. repeat split; try assumption; lia.
Qed.

(** C3. For every pixel, whatever integers its three components are
    (negative ones and ones above 255 included), the clamped luminance lies
    in [[0,1]] and [getASCIIChar] is defined on the luminance: it returns the
    glyph of an index within the ramp of the program. *)
Theorem luminance_glyph_total (pixel : Vec3b) :
  dle d0 (clamp_brightness (luminance pixel)) = true /\
  dle (clamp_brightness (luminance pixel)) d1 = true /\
  exists i c,
    glyphIndex (Z.of_nat (String.length ASCII_CHARS)) (luminance pixel) = Some i /\
    0 <= i < Z.of_nat (String.length ASCII_CHARS) /\
    getASCIIChar ASCII_CHARS (luminance pixel) = Some c /\
    String.get (Z.to_nat i) ASCII_CHARS = Some c.
Proof.
  destruct (clamp_brightness_unit (luminance pixel)) as [H0 H1].
  split; [exact H0|]. split; [exact H1|].
  apply getASCIIChar_luminance.
Qed.

(** ** Grid sizing *)

Lemma wrap_int_range z : INT_MIN <= wrap_int z <= INT_MAX.
Proof.
  unfold wrap_int, INT_MIN, INT_MAX.
  pose proof (Z.mod_pos_bound (z + 2 ^ 31) (2 ^ 32) ltac:(lia)). lia.
Qed.

Lemma wrap_int_small z : INT_MIN <= z <= INT_MAX -> wrap_int z = z.
Proof.
  unfold INT_MIN, INT_MAX, wrap_int. intros H.
  rewrite Z.mod_small; lia.
Qed.

(** Halving a positive [int] in [double] is exact; the cast drops the half. *)
Lemma halve_positive q :
  0 < q <= INT_MAX -> double_to_int (dmul (double_of_Z q) d0_5) = Some (q / 2).
Proof.
  intros [Hq0 Hq]. unfold INT_MAX in Hq.
  destruct (double_of_Z_pos q ltac:(lia)) as (mq & eq & -> & He & Hmq & Hnorm).
  pose proof (log2_normal mq Hnorm) as Hl.
  unfold d0_5.
  assert (Hmag : Z.log2 (Zpos mq * Zpos 4503599627370496) = 104).
  { change (Zpos 4503599627370496) with (2 ^ 52).
    rewrite Z.log2_mul_pow2 by lia. lia. }
  pose proof (dmul_represents mq 4503599627370496 eq (-53) (eq + -53)
                ltac:(lia) ltac:(lia) ltac:(lia)) as Hr.
  rewrite Z.sub_diag, Z.pow_0_r, Z.mul_1_r in Hr.
  rewrite (Zround_exact _ _ (Zpos mq)) in Hr
    by (rewrite Hmag; change (Zpos 4503599627370496) with (2 ^ 52);
        do 2 f_equal; lia).
  assert (Hval : Zpos mq * Zpos 4503599627370496 / 2 ^ (- (eq + -53)) = q / 2).
  { rewrite Hmq. change (Zpos 4503599627370496) with (2 ^ 52).
    rewrite <- Z.mul_assoc, <- Z.pow_add_r by lia.
    replace (- (eq + -53)) with (1 + (- eq + 52)) by lia.
    rewrite (Z.pow_add_r 2 1) by lia. change (2 ^ 1) with 2.
    apply Z.div_mul_cancel_r; [lia|]. apply Z.pow_nonzero; lia. }
  rewrite <- Hval.
  apply double_to_int_represents; [lia|exact Hr|].
  rewrite Hval. unfold INT_MAX.
  apply Z.le_trans with q; [|lia].
  apply Z.div_le_upper_bound; lia.
Qed.

Lemma asciiHeight_nonneg aw W H :
  0 < W -> 0 < H -> 0 <= aw -> aw * H <= INT_MAX ->
  asciiHeight_of aw W H = Some (aw * H / W / 2).
Proof.
  intros HW HH Haw Hov.
  assert (H0 : 0 <= aw * H) by nia.
  unfold asciiHeight_of, int_mul, int_div.
  destruct (Z.eqb_spec W 0) as [E0|_]; [lia|].
  rewrite (wrap_int_small (aw * H)) by (unfold INT_MIN; lia).
  rewrite Z.quot_div_nonneg by lia.
  assert (Hq0 : 0 <= aw * H / W) by (apply Z.div_pos; lia).
  assert (Hq : aw * H / W <= INT_MAX).
  { apply Z.le_trans with (aw * H); [|exact Hov].
    apply Z.div_le_upper_bound; nia. }
  rewrite wrap_int_small by (unfold INT_MIN; lia).
  destruct (Z.eq_dec (aw * H / W) 0) as [E|E].
  - rewrite E. reflexivity.
  - apply halve_positive. lia.
Qed.

Lemma asciiHeight_spec_div aw W H :
  0 < W -> asciiHeight_spec aw W H = aw * H / (W * 2).
Proof.
  intros HW. destruct W as [|w|w]; try lia.
  unfold asciiHeight_spec, Qdiv, Qinv, Qmult, inject_Z, Qfloor.
  cbn [Qnum Qden]. rewrite !Z.mul_1_r. reflexivity.
Qed.

(** C2 (amended). For a video of positive width and height and a
    non-negative [asciiWidth] whose product with the height fits an [int],
    the grid height the code computes, with its integer division and its
    truncation, is the formula of the specification evaluated over the
    rationals; 1920 by 1080 at width 150 gives 42 rows. *)
Theorem asciiHeight_matches_spec (asciiWidth originalWidth originalHeight : Z) :
  0 < originalWidth -> 0 < originalHeight ->
  0 <= asciiWidth -> asciiWidth * originalHeight <= INT_MAX ->
  asciiHeight_of asciiWidth originalWidth originalHeight =
    Some (asciiHeight_spec asciiWidth originalWidth originalHeight) /\
  asciiHeight_of 150 1920 1080 = Some 42.
Proof.
  intros HW HH Haw Hov. split; [|reflexivity].
  rewrite asciiHeight_nonneg, asciiHeight_spec_div by assumption.
  rewrite Z.div_div by lia. reflexivity.
Qed.

Lemma asciiHeight_matches_spec_witness :
  asciiHeight_of 150 1920 1080 = Some (asciiHeight_spec 150 1920 1080) /\
  asciiHeight_of 150 1920 1080 = Some 42.
Proof.
  apply (asciiHeight_matches_spec 150 1920 1080); unfold INT_MAX; lia.
Defined.

(** C2 as stated fails for a negative width, where the code truncates towards
    zero and the specification takes the floor: on 1920 by 1080 the width -1
    gives [-1080 / 1920 = 0] on [int], hence 0 rows, where the floor of
    [-0.28125] is -1. It also fails for a width that [main] accepts with a
    height that makes the product exceed [INT_MAX]: [300 * 7158279] is taken
    modulo [2^32]. *)
Lemma asciiHeight_counterexample :
  (asciiHeight_of (-1) 1920 1080 = Some 0 /\
   asciiHeight_spec (-1) 1920 1080 = -1) /\
  (asciiHeight_of 300 1000 7158279 = Some (-1073741) /\
   asciiHeight_spec 300 1000 7158279 = 1073741).
Proof. vm_compute. repeat split; reflexivity. Qed.

(** *** The grid height for every width

    The sign of a rounding is the sign given to it, so the halving of a
    negative quotient mirrors that of its opposite: the cast truncates
    towards zero. The grid height is thus defined whenever the width of the
    video is not zero. *)






(** ** The rasteriser loop *)

Section Rasteriser.

Context {ops : ImageOps}.

Lemma zrange_app i n m :
  zrange i (n + m) = zrange i n ++ zrange (i + Z.of_nat n) m.
Proof.
  revert i. induction n as [|n IH]; intros i.
  - cbn [zrange Nat.add app]. f_equal. lia.
  - cbn [zrange Nat.add app]. rewrite IH. do 3 f_equal. lia.
Qed.

Lemma zrange_length i n : List.length (zrange i n) = n.
Proof. revert i. induction n as [|n IH]; intros i; cbn; [|rewrite IH]; reflexivity. Qed.

(** A loop whose body never fails folds its body over the counter values. *)
Lemma for_count_total {S : Type} (body : Z -> S -> option S) (f : Z -> S -> S) :
  (forall i s, body i s = Some (f i s)) ->
  forall n i s,
    for_count n i body s = Some (fold_left (fun s i => f i s) (zrange i n) s).
Proof.
  intros Hb. induction n as [|n IH]; intros i s.
  - reflexivity.
  - cbn [for_count zrange fold_left]. rewrite Hb. apply IH.
Qed.

Variable self : Converter.
Variable colorFrame : Mat.

(** The ramp gives a glyph for the luminance of every pixel. *)
Hypothesis glyph_total :
  forall pixel, exists c, getASCIIChar (currentCharset self) (luminance pixel) = Some c.

Lemma draw_cell_total y x st :
  draw_cell self colorFrame y x st =
  Some (putText (fst st)
          (cell_draw (cell_glyph (currentCharset self) colorFrame (y, x))
                     (at_ colorFrame y x) x y),
        debug_of self colorFrame y x (snd st)).
Proof.
  destruct st as [canvas log]. unfold draw_cell, debug_of, cell_glyph.
  cbn [fst snd].
  destruct (glyph_total (at_ colorFrame y x)) as [c ->]. reflexivity.
Qed.

Lemma row_fold_canvas y xs st :
  fst (fold_left (fun s x => row_step self colorFrame y x s) xs st) =
  fold_left putText
    (map (fun cell =>
            cell_draw (cell_glyph (currentCharset self) colorFrame cell)
                      (at_ colorFrame (fst cell) (snd cell)) (snd cell) (fst cell))
         (map (fun x => (y, x)) xs))
    (fst st).
Proof.
  revert st. induction xs as [|x xs IH]; intros st.
  - reflexivity.
  - cbn [fold_left map]. rewrite IH. reflexivity.
Qed.

Lemma debug_of_pixel y x log :
  Forall pixel_event log -> Forall pixel_event (debug_of self colorFrame y x log).
Proof.
  intros Hl. unfold debug_of.
  destruct ((x <? 3) && (y <? 2) && (frameCount self =? 0)); [|exact Hl].
  apply Forall_app. split; [exact Hl|]. repeat constructor.
Qed.

Lemma row_fold_log y xs st :
  Forall pixel_event (snd st) ->
  Forall pixel_event (snd (fold_left (fun s x => row_step self colorFrame y x s) xs st)).
Proof.
  revert st. induction xs as [|x xs IH]; intros st Hst; [exact Hst|].
  cbn [fold_left]. apply IH. unfold row_step. cbn [snd].
  now apply debug_of_pixel.
Qed.

Lemma generateColorASCIIFrame_total :
  exists debug,
    generateColorASCIIFrame self colorFrame =
    Some (fold_left putText (frame_calls (currentCharset self) colorFrame)
            (Mat_black (int_mul (rows colorFrame) ASCII_CHAR_HEIGHT)
                       (int_mul (cols colorFrame) ASCII_CHAR_WIDTH)),
          debug) /\
    Forall pixel_event debug.
Proof.
  unfold generateColorASCIIFrame, for_range, frame_calls, grid_cells.
  rewrite !Z.sub_0_r.
  set (w := Z.to_nat (cols colorFrame)).
  set (canvas := Mat_black _ _).
  assert (Hrow : forall y st,
             for_count w 0 (fun x => draw_cell self colorFrame y x) st =
             Some (fold_left (fun s x => row_step self colorFrame y x s)
                     (zrange 0 w) st)).
  { intros y st. apply for_count_total. intros x s. apply draw_cell_total. }
  rewrite (for_count_total _
             (fun y st => fold_left (fun s x => row_step self colorFrame y x s)
                            (zrange 0 w) st))
    by (intros y st; apply Hrow).
  assert (Hnil : Forall pixel_event (@nil Event)) by constructor.
  revert Hnil.
  generalize (zrange 0 (Z.to_nat (rows colorFrame))) as ys.
  generalize (@nil Event) as log. generalize canvas as cv.
  intros cv log ys. revert cv log.
  induction ys as [|y ys IH]; intros cv log Hlog.
  - exists log. split; [reflexivity|exact Hlog].
  - cbn [fold_left flat_map]. rewrite map_app, fold_left_app.
    pose proof (row_fold_log y (zrange 0 w) (cv, log) Hlog) as Hl'.
    pose proof (row_fold_canvas y (zrange 0 w) (cv, log)) as Hc.
    destruct (fold_left (fun s x => row_step self colorFrame y x s)
                (zrange 0 w) (cv, log)) as [cv' log'] eqn:E.
    cbn [fst snd] in Hl', Hc.
    destruct (IH cv' log' Hl') as (debug & Hd & HF). exists debug.
    split; [|exact HF]. rewrite Hd, Hc. reflexivity.
Qed.

End Rasteriser.

Lemma ASCII_CHARS_glyph_total (self : Converter) :
  currentCharset self = ASCII_CHARS ->
  forall pixel, exists c, getASCIIChar (currentCharset self) (luminance pixel) = Some c.
Proof.
  intros -> pixel.
  destruct (getASCIIChar_luminance pixel) as (i & c & _ & _ & Hc & _).
  now exists c.
Qed.

(** ** The canvas *)

Lemma nth_error_zrange i n k :
  (k < n)%nat -> nth_error (zrange i n) k = Some (i + Z.of_nat k).
Proof.
  revert i k. induction n as [|n IH]; intros i k Hk; [lia|].
  destruct k as [|k]; cbn [zrange nth_error].
  - f_equal. lia.
  - rewrite IH by lia. f_equal. lia.
Qed.

Lemma nth_error_grid w h y0 k x :
  (k < h)%nat -> (x < w)%nat ->
  nth_error (flat_map (fun y => map (fun x => (y, x)) (zrange 0 w)) (zrange y0 h))
            (k * w + x) = Some (y0 + Z.of_nat k, Z.of_nat x).
Proof.
  revert y0 k. induction h as [|h IH]; intros y0 k Hk Hx; [lia|].
  cbn [zrange flat_map].
  destruct k as [|k].
  - cbn [Nat.mul Nat.add]. rewrite nth_error_app1
      by (rewrite length_map, zrange_length; exact Hx).
    rewrite nth_error_map, nth_error_zrange by exact Hx.
    cbn [option_map]. do 2 f_equal. lia.
  - rewrite nth_error_app2
      by (rewrite length_map, zrange_length; cbn [Nat.mul]; lia).
    rewrite length_map, zrange_length.
    replace (Datatypes.S k * w + x - w)%nat with (k * w + x)%nat
      by (cbn [Nat.mul]; lia).
    rewrite IH by lia. do 2 f_equal. lia.
Qed.

Lemma nth_error_grid_cells height width y x :
  0 <= y < height -> 0 <= x < width ->
  nth_error (grid_cells height width) (Z.to_nat (y * width + x)) = Some (y, x).
Proof.
  intros Hy Hx. unfold grid_cells.
  replace (Z.to_nat (y * width + x))
    with (Z.to_nat y * Z.to_nat width + Z.to_nat x)%nat by nia.
  rewrite nth_error_grid by lia. f_equal. f_equal; lia.
Qed.

Section Canvas.

Context {ops : ImageOps} {laws : ImageOpsLaws ops}.

Lemma fold_putText_rows calls m : rows (fold_left putText calls m) = rows m.
Proof.
  revert m. induction calls as [|d calls IH]; intros m; [reflexivity|].
  cbn [fold_left]. rewrite IH. apply putText_rows.
Qed.

Lemma fold_putText_cols calls m : cols (fold_left putText calls m) = cols m.
Proof.
  revert m. induction calls as [|d calls IH]; intros m; [reflexivity|].
  cbn [fold_left]. rewrite IH. apply putText_cols.
Qed.

Lemma fold_putText_frame calls m y x :
  (forall d, In d calls -> touches d y x = false) ->
  at_ (fold_left putText calls m) y x = at_ m y x.
Proof.
  revert m. induction calls as [|d calls IH]; intros m Hd; [reflexivity|].
  cbn [fold_left]. rewrite IH by (intros d' Hin; apply Hd; now right).
  apply putText_frame. apply Hd. now left.
Qed.

(** C7. The frame rendered for a grid of [asciiWidth] by [asciiHeight]
    cells is a canvas of [asciiHeight * 12] rows and [asciiWidth * 6]
    columns: the black canvas on which the calls of [cv::putText] are
    drawn, one for each cell, row by row; the call of cell [(x, y)] draws
    the glyph selected for the pixel, in the colour of the pixel, at
    [(x * 6, (y + 1) * 12 - 2)]; a pixel that no call touches is black. *)
Theorem output_frame_canvas (self : Converter) (frame : Mat)
  (asciiWidth asciiHeight : Z) :
  currentCharset self = ASCII_CHARS ->
  0 < asciiWidth -> asciiWidth * ASCII_CHAR_WIDTH <= INT_MAX ->
  0 < asciiHeight -> asciiHeight * ASCII_CHAR_HEIGHT <= INT_MAX ->
  let resized := resize frame (mkSize asciiWidth asciiHeight) INTER_AREA in
  exists asciiFrame debug calls,
    generateColorASCIIFrame self resized = Some (asciiFrame, debug) /\
    rows asciiFrame = asciiHeight * ASCII_CHAR_HEIGHT /\
    cols asciiFrame = asciiWidth * ASCII_CHAR_WIDTH /\
    asciiFrame =
      fold_left putText calls
        (Mat_black (asciiHeight * ASCII_CHAR_HEIGHT) (asciiWidth * ASCII_CHAR_WIDTH)) /\
    List.length calls = Z.to_nat (asciiHeight * asciiWidth) /\
    (forall y x, 0 <= y < asciiHeight -> 0 <= x < asciiWidth ->
       exists c,
         getASCIIChar ASCII_CHARS (luminance (at_ resized y x)) = Some c /\
         nth_error calls (Z.to_nat (y * asciiWidth + x)) =
         Some (mkDraw (String c EmptyString)
                      (mkPoint (x * ASCII_CHAR_WIDTH)
                               ((y + 1) * ASCII_CHAR_HEIGHT - 2))
                      FONT_HERSHEY_SIMPLEX ASCII_FONT_SIZE
                      (mkScalar (ch0 (at_ resized y x)) (ch1 (at_ resized y x))
                                (ch2 (at_ resized y x)))
                      1 LINE_AA)) /\
    (forall y x, (forall d, In d calls -> touches d y x = false) ->
       at_ asciiFrame y x = black).
Proof.
  intros Hcs Hw Hwmax Hh Hhmax resized.
  assert (Hcols : cols resized = asciiWidth) by (apply resize_cols; assumption).
  assert (Hrows : rows resized = asciiHeight) by (apply resize_rows; assumption).
  destruct (generateColorASCIIFrame_total self resized
              (ASCII_CHARS_glyph_total self Hcs)) as (debug & Hgen & _).
  rewrite Hcs, Hrows, Hcols in Hgen.
  unfold ASCII_CHAR_WIDTH, ASCII_CHAR_HEIGHT, INT_MAX in *.
  unfold int_mul in Hgen.
  rewrite !wrap_int_small in Hgen by (unfold INT_MIN, INT_MAX; lia).
  eexists _, debug, (frame_calls ASCII_CHARS resized).
  split; [exact Hgen|].
  split; [rewrite fold_putText_rows; reflexivity|].
  split; [rewrite fold_putText_cols; reflexivity|].
  split; [reflexivity|].
  split.
  { unfold frame_calls, grid_cells. rewrite length_map, Hrows, Hcols.
    rewrite (flat_map_constant_length (c := Z.to_nat asciiWidth))
      by (intros; rewrite length_map; apply zrange_length).
    rewrite zrange_length. nia. }
  split.
  - intros y x Hy Hx.
    destruct (getASCIIChar_luminance (at_ resized y x)) as (i & c & _ & _ & Hc & _).
    exists c. split; [exact Hc|].
    unfold frame_calls. rewrite nth_error_map, Hrows, Hcols.
    rewrite nth_error_grid_cells by assumption.
    cbn [option_map fst snd]. unfold cell_draw, cell_glyph. cbn [fst snd].
    rewrite Hc. unfold int_mul, int_sub, int_add, ASCII_CHAR_WIDTH, ASCII_CHAR_HEIGHT.
    rewrite (wrap_int_small (y + 1)) by (unfold INT_MIN, INT_MAX; lia).
    rewrite (wrap_int_small ((y + 1) * 12)) by (unfold INT_MIN, INT_MAX; lia).
    rewrite !wrap_int_small by (unfold INT_MIN, INT_MAX; lia).
    reflexivity.
  - intros y x Hfree. rewrite fold_putText_frame by exact Hfree. reflexivity.
Qed.

End Canvas.

(** ** Reading the event log *)

Lemma pixel_events_silent l :
  Forall pixel_event l ->
  written_frames l = [] /\ codecs_tried l = [] /\ grid_announced l = [] /\
  Forall loop_event l.
Proof.
  induction 1 as [|e l He _ (IH1 & IH2 & IH3 & IH4)].
  - repeat split; constructor.
  - destruct e as [| | | | | |[]|]; cbn [pixel_event] in He; try contradiction.
    unfold written_frames, codecs_tried, grid_announced in *.
    cbn [flat_map app]. repeat split; try assumption.
    constructor; [exact I|assumption].
Qed.

Lemma loop_events_silent l :
  Forall loop_event l -> codecs_tried l = [] /\ grid_announced l = [].
Proof.
  induction 1 as [|e l He _ (IH1 & IH2)].
  - split; reflexivity.
  - unfold codecs_tried, grid_announced in *.
    destruct e as [| | | | | |[]|]; cbn [loop_event] in He; try contradiction;
      cbn [flat_map app]; split; assumption.
Qed.

Lemma testCharacterDisplay_silent self :
  written_frames (testCharacterDisplay self) = [] /\
  codecs_tried (testCharacterDisplay self) = [] /\
  grid_announced (testCharacterDisplay self) = [].
Proof.
  unfold testCharacterDisplay, written_frames, codecs_tried, grid_announced.
  cbn [flat_map app].
  generalize (seq 0 (String.length (currentCharset self))) as l.
  induction l as [|i l (IH1 & IH2 & IH3)]; [repeat split|].
  cbn [map flat_map app]. repeat split; assumption.
Qed.

(** ** The candidate codecs *)

Section Pipeline.

Context {ops : ImageOps}.

Lemma open_writer_spec w outputPath fps frameSize codecs :
  let opens c := writer_opens w outputPath c fps frameSize in
  fst (open_writer w outputPath fps frameSize codecs) =
    find opens (codec_ids codecs) /\
  codecs_tried (snd (open_writer w outputPath fps frameSize codecs)) =
    tried_until opens (codec_ids codecs) /\
  written_frames (snd (open_writer w outputPath fps frameSize codecs)) = [] /\
  grid_announced (snd (open_writer w outputPath fps frameSize codecs)) = [].
Proof.
  intros opens. induction codecs as [|codec rest (IH1 & IH2 & IH3 & IH4)].
  - repeat split.
  - cbn [open_writer codec_ids map find tried_until].
    fold (codec_ids rest). unfold opens at 1 3.
    destruct (writer_opens w outputPath (nth 0 codec 0) fps frameSize).
    + repeat split.
    + destruct (open_writer w outputPath fps frameSize rest) as [r evs].
      cbn [fst snd] in *.
      unfold codecs_tried, written_frames, grid_announced in *.
      cbn [flat_map app]. repeat split; try assumption.
      now rewrite IH2.
Qed.

Lemma tried_until_first opens pre c post :
  (forall c', In c' pre -> opens c' = false) -> opens c = true ->
  find opens (pre ++ c :: post) = Some c /\
  tried_until opens (pre ++ c :: post) =
    map (fun c' => (c', false)) pre ++ [(c, true)].
Proof.
  intros Hpre Hc. induction pre as [|a pre IH].
  - cbn [app find tried_until map]. rewrite Hc. split; reflexivity.
  - cbn [app find tried_until map].
    rewrite (Hpre a) by now left.
    destruct IH as [IH1 IH2]; [intros c' Hin; apply Hpre; now right|].
    rewrite IH1, IH2. split; reflexivity.
Qed.

Lemma tried_until_none opens ids :
  (forall c, In c ids -> opens c = false) ->
  find opens ids = None /\
  tried_until opens ids = map (fun c => (c, false)) ids.
Proof.
  intros Hall. induction ids as [|a ids IH].
  - split; reflexivity.
  - cbn [find tried_until map]. rewrite (Hall a) by now left.
    destruct IH as [IH1 IH2]; [intros c Hin; apply Hall; now right|].
    rewrite IH1, IH2. split; reflexivity.
Qed.

(** The nested tests of the variant with inline literals try the same
    codecs with the same outcome as the loop over its two candidates. *)
Lemma open_writer_inline_agrees w outputPath fps frameSize :
  let two := [[fourcc "m" "p" "4" "v"]; [fourcc "a" "v" "c" "1"]] in
  fst (open_writer_inline w outputPath fps frameSize) =
    fst (open_writer w outputPath fps frameSize two) /\
  codecs_tried (snd (open_writer_inline w outputPath fps frameSize)) =
    codecs_tried (snd (open_writer w outputPath fps frameSize two)).
Proof.
  unfold open_writer_inline. cbn [open_writer nth].
  destruct (writer_opens w outputPath (fourcc "m" "p" "4" "v") fps frameSize);
    [split; reflexivity|].
  destruct (writer_opens w outputPath (fourcc "a" "v" "c" "1") fps frameSize);
    split; reflexivity.
Qed.

(** ** The main loop *)

Lemma wrap_int_succ a : wrap_int (wrap_int a + 1) = wrap_int (a + 1).
Proof.
  unfold wrap_int.
  replace ((a + 2 ^ 31) mod 2 ^ 32 - 2 ^ 31 + 1 + 2 ^ 31)
    with ((a + 2 ^ 31) mod 2 ^ 32 + 1) by lia.
  replace (a + 1 + 2 ^ 31) with (a + 2 ^ 31 + 1) by lia.
  rewrite Zplus_mod_idemp_l. reflexivity.
Qed.

Lemma process_frames_spec self asciiWidth asciiHeight totalFrames stream :
  currentCharset self = ASCII_CHARS ->
  exists self' evs,
    process_frames self asciiWidth asciiHeight totalFrames stream =
      Some (self', evs) /\
    written_frames evs =
      map (render_frame ASCII_CHARS asciiWidth asciiHeight) (frames_read stream) /\
    Forall loop_event evs /\
    currentCharset self' = ASCII_CHARS /\
    wrap_int (frameCount self') =
      wrap_int (frameCount self + Z.of_nat (List.length (frames_read stream))).
Proof.
  revert self. induction stream as [|frame rest IH]; intros self Hcs.
  - exists self, [EvRead]. cbn [process_frames frames_read map List.length].
    repeat split; try assumption.
    + repeat constructor.
    + now rewrite Z.add_0_r.
  - cbn [process_frames frames_read].
    destruct (Mat_empty frame).
    + exists self, [EvRead]. cbn [map List.length].
      repeat split; try assumption.
      * repeat constructor.
      * now rewrite Z.add_0_r.
    + set (resized := resize frame (mkSize asciiWidth asciiHeight) INTER_AREA).
      destruct (generateColorASCIIFrame_total self resized
                  (ASCII_CHARS_glyph_total self Hcs)) as (debug & Hgen & Hdbg).
      rewrite Hgen, Hcs.
      set (self1 := mkConverter ASCII_CHARS (int_add (frameCount self) 1)).
      destruct (IH self1 eq_refl) as (self' & evs & Hrec & Hw & Hl & Hcs' & Hfc).
      rewrite Hrec.
      destruct (pixel_events_silent debug Hdbg) as (Hd1 & _ & _ & Hd4).
      eexists self', _. split; [reflexivity|].
      split; [|split; [|split]].
      * unfold written_frames in *. cbn [flat_map app].
        rewrite flat_map_app, Hd1. cbn [flat_map app].
        rewrite flat_map_app, Hw. cbn [map]. f_equal.
        destruct (int_rem (int_add (frameCount self) 1) 30 =? 0); reflexivity.
      * constructor; [exact I|].
        apply Forall_app. split; [exact Hd4|].
        constructor; [exact I|].
        apply Forall_app. split; [|exact Hl].
        destruct (int_rem (int_add (frameCount self) 1) 30 =? 0);
          repeat constructor.
      * exact Hcs'.
      * rewrite Hfc. unfold self1. cbn [frameCount List.length].
        unfold int_add.
        rewrite Nat2Z.inj_succ.
        replace (wrap_int (frameCount self + 1)
                 + Z.of_nat (List.length (frames_read rest)))
          with (wrap_int (frameCount self + 1) + 1
                + (Z.of_nat (List.length (frames_read rest)) - 1)) by lia.
        unfold wrap_int at 1 3.
        unfold wrap_int.
        f_equal.
        replace ((frameCount self + 1 + 2 ^ 31) mod 2 ^ 32 - 2 ^ 31 + 1 +
                 (Z.of_nat (List.length (frames_read rest)) - 1) + 2 ^ 31)
          with ((frameCount self + 1 + 2 ^ 31) mod 2 ^ 32
                 + Z.of_nat (List.length (frames_read rest))) by lia.
        rewrite Zplus_mod_idemp_l. f_equal. lia.
Qed.

End Pipeline.

(** ** The conversion as a whole *)

Lemma find_some_exists {A : Type} (p : A -> bool) (l : list A) :
  (exists a, In a l /\ p a = true) -> exists a, find p l = Some a /\ p a = true.
Proof.
  intros (a & Hin & Hp). induction l as [|b l IH]; [contradiction|].
  cbn [find]. destruct (p b) eqn:E.
  - now exists b.
  - destruct Hin as [->|Hin]; [congruence|]. now apply IH.
Qed.

Lemma frames_read_all stream :
  Forall (fun f => Mat_empty f = false) stream -> frames_read stream = stream.
Proof.
  induction 1 as [|f stream Hf _ IH]; [reflexivity|].
  cbn [frames_read]. rewrite Hf, IH. reflexivity.
Qed.

Section Conversion.

Context {ops : ImageOps}.

Variables (w : World) (self : Converter) (inputPath outputPath : string).
Variables (asciiWidth asciiHeight : Z) (quality : double) (video : Video).

Hypothesis ramp : currentCharset self = ASCII_CHARS.
Hypothesis opened : video_at w inputPath = Some video.
Hypothesis height_defined :
  asciiHeight_of asciiWidth (v_width video) (v_height video) = Some asciiHeight.

(** With a codec that opens, the conversion runs to its end. *)
Lemma convert_success c :
  find (codec_opens w outputPath video asciiWidth asciiHeight) (codec_ids codecList) = Some c ->
  exists self' evs,
    convertToColorASCII w self inputPath outputPath asciiWidth quality =
      Some (true, self', evs) /\
    written_frames evs =
      map (render_frame ASCII_CHARS asciiWidth asciiHeight)
          (frames_read (v_frames video)) /\
    codecs_tried evs = tried_until (codec_opens w outputPath video asciiWidth asciiHeight)
        (codec_ids codecList) /\
    grid_announced evs = [(asciiWidth, asciiHeight)] /\
    frameCount self' =
      wrap_int (Z.of_nat (List.length (frames_read (v_frames video)))) /\
    exists rest, evs = EvOpenVideo inputPath true :: rest.
Proof.
  intros Hfind. unfold convertToColorASCII.
  rewrite opened, height_defined.
  unfold codec_opens, frameSize_of in *.
  set (frameSize := mkSize _ _) in *.
  destruct (open_writer_spec w outputPath (v_fps video) frameSize codecList)
    as (Ho1 & Ho2 & Ho3 & Ho4).
  destruct (open_writer w outputPath (v_fps video) frameSize codecList)
    as [r tried] eqn:Eow.
  cbn [fst snd] in Ho1, Ho2, Ho3, Ho4.
  rewrite Hfind in Ho1. subst r.
  set (self0 := mkConverter (currentCharset self) 0).
  destruct (process_frames_spec self0 asciiWidth asciiHeight
              (v_frame_count video) (v_frames video) ramp)
    as (self' & evs & Hp & Hw & Hl & Hcs & Hfc).
  rewrite Hp.
  destruct (loop_events_silent evs Hl) as [Hl1 Hl2].
  destruct (testCharacterDisplay_silent self0) as (Ht1 & Ht2 & Ht3).
  eexists self', _. split; [reflexivity|].
  unfold written_frames, codecs_tried, grid_announced in *.
  cbn [flat_map app].
  repeat (rewrite ?flat_map_app; cbn [flat_map app]).
  rewrite Ho2, Ho3, Ho4, Ht1, Ht2, Ht3, Hl1, Hl2, Hw.
  cbn [app]. rewrite !app_nil_r.
  repeat split; [|eexists; reflexivity].
  assert (Hr : INT_MIN <= frameCount self' <= INT_MAX).
  { (* the counter is 0 or the result of an increment on [int] *)
    clear - Hp. revert Hp. generalize (v_frames video) as stream.
    assert (H0 : INT_MIN <= frameCount self0 <= INT_MAX)
      by (unfold self0, INT_MIN, INT_MAX; cbn [frameCount]; lia).
    revert H0. generalize self0 as s, evs as l.
    intros s l H0 stream. revert s l H0.
    induction stream as [|f rest IH]; intros s l H0 Hp.
    - cbn [process_frames] in Hp. now injection Hp as <- _.
    - cbn [process_frames] in Hp.
      destruct (Mat_empty f); [now injection Hp as <- _|].
      destruct (generateColorASCIIFrame s _) as [[cv dbg]|]; [|discriminate].
      destruct (process_frames _ asciiWidth asciiHeight _ rest)
        as [[s2 l2]|] eqn:E; [|discriminate].
      injection Hp as <- _.
      eapply IH; [|exact E]. cbn [frameCount]. apply wrap_int_range. }
  rewrite <- (wrap_int_small (frameCount self')) by exact Hr.
  rewrite Hfc. reflexivity.
Qed.

(** Without one, it gives up after the last candidate. *)
Lemma convert_no_codec :
  find (codec_opens w outputPath video asciiWidth asciiHeight) (codec_ids codecList) = None ->
  exists before,
    convertToColorASCII w self inputPath outputPath asciiWidth quality =
      Some (false, self,
            before ++ [EvErr (MsgCannotCreateOutput outputPath); EvReleaseCapture]) /\
    written_frames before = [] /\
    codecs_tried before = tried_until (codec_opens w outputPath video asciiWidth asciiHeight)
        (codec_ids codecList) /\
    grid_announced before = [(asciiWidth, asciiHeight)].
Proof.
  intros Hfind. unfold convertToColorASCII.
  rewrite opened, height_defined.
  unfold codec_opens, frameSize_of in *.
  set (frameSize := mkSize _ _) in *.
  destruct (open_writer_spec w outputPath (v_fps video) frameSize codecList)
    as (Ho1 & Ho2 & Ho3 & Ho4).
  destruct (open_writer w outputPath (v_fps video) frameSize codecList)
    as [r tried] eqn:Eow.
  cbn [fst snd] in Ho1, Ho2, Ho3, Ho4.
  rewrite Hfind in Ho1. subst r.
  eexists. split; [rewrite app_assoc; reflexivity|].
  unfold written_frames, codecs_tried, grid_announced in *.
  repeat (rewrite ?flat_map_app; cbn [flat_map app]).
  rewrite Ho2, Ho3, Ho4. repeat split.
Qed.

End Conversion.

(** ** The reference image operations *)

Lemma sample_ops_laws : ImageOpsLaws sample_ops.
Proof.
  constructor; try reflexivity.
  intros m d y x H. cbn [touches sample_ops] in H.
  cbn [putText sample_ops]. unfold sample_putText. cbn [at_]. now rewrite H.
Qed.

(** ** The glyph indices of a run *)








Section Traces.

Context {ops : ImageOps}.




End Traces.

(** ** Statements about a run *)

Section Runs.

Context {ops : ImageOps}.

(** C4. Once the video is open, the writer is opened with the candidates
    in the order of [codecList]; when one opens after the ones before it
    failed, nothing further is tried and the conversion completes; when
    none opens, the conversion reports that the output cannot be created,
    releases the capture and returns [false] without having written a
    frame, and the run ends with exit status 1. *)
Theorem codec_fallback (w : World) (self : Converter)
  (inputPath outputPath : string) (asciiWidth asciiHeight : Z)
  (quality : double) (video : Video) :
  currentCharset self = ASCII_CHARS ->
  video_at w inputPath = Some video ->
  asciiHeight_of asciiWidth (v_width video) (v_height video) = Some asciiHeight ->
  let opens := codec_opens w outputPath video asciiWidth asciiHeight in
  (forall pre c post,
     codec_ids codecList = pre ++ c :: post ->
     (forall c', In c' pre -> opens c' = false) -> opens c = true ->
     exists self' evs,
       convertToColorASCII w self inputPath outputPath asciiWidth quality =
         Some (true, self', evs) /\
       codecs_tried evs = map (fun c' => (c', false)) pre ++ [(c, true)]) /\
  ((forall c, In c (codec_ids codecList) -> opens c = false) ->
   (exists before,
      convertToColorASCII w self inputPath outputPath asciiWidth quality =
        Some (false, self,
              before ++ [EvErr (MsgCannotCreateOutput outputPath);
                         EvReleaseCapture]) /\
      codecs_tried before = map (fun c => (c, false)) (codec_ids codecList) /\
      written_frames before = []) /\
   (exists evs,
      run_converter w inputPath outputPath asciiWidth = Some (1, evs) /\
      written_frames evs = [])).
Proof.
  intros Hcs Hopen Hh opens. split.
  - intros pre c post Hids Hpre Hc.
    destruct (tried_until_first opens pre c post Hpre Hc) as [Hf Ht].
    rewrite <- Hids in Hf, Ht.
    destruct (convert_success w self inputPath outputPath asciiWidth asciiHeight
                quality video Hcs Hopen Hh c Hf)
      as (self' & evs & Hr & _ & Htr & _).
    exists self', evs. split; [exact Hr|]. rewrite Htr. exact Ht.
  - intros Hall.
    destruct (tried_until_none opens _ Hall) as [Hf Ht]. split.
    + destruct (convert_no_codec w self inputPath outputPath asciiWidth
                  asciiHeight quality video Hopen Hh Hf)
        as (before & Hr & Hw & Htr & _).
      exists before. rewrite Htr. repeat split; assumption.
    + destruct (convert_no_codec w new_converter inputPath outputPath asciiWidth
                  asciiHeight d1 video Hopen Hh Hf)
        as (before & Hr & Hw & _).
      unfold run_converter. rewrite Hr. eexists. split; [reflexivity|].
      unfold written_frames in *. cbn [flat_map app].
      rewrite !flat_map_app, Hw. reflexivity.
Qed.

(** C6. When the video is open, every frame of the stream is non-empty and
    one of the candidate codecs opens, the conversion succeeds and hands
    the writer one frame for each frame of the stream, in the order of
    the stream: the k-th frame written is the rendering of the k-th frame
    read, and the frame counter ends at the number of frames. *)
Theorem frames_written_in_order (w : World) (self : Converter)
  (inputPath outputPath : string) (asciiWidth asciiHeight : Z)
  (quality : double) (video : Video) :
  currentCharset self = ASCII_CHARS ->
  video_at w inputPath = Some video ->
  asciiHeight_of asciiWidth (v_width video) (v_height video) = Some asciiHeight ->
  Forall (fun frame => Mat_empty frame = false) (v_frames video) ->
  (exists c, In c (codec_ids codecList) /\
             codec_opens w outputPath video asciiWidth asciiHeight c = true) ->
  exists self' evs,
    convertToColorASCII w self inputPath outputPath asciiWidth quality =
      Some (true, self', evs) /\
    written_frames evs =
      map (render_frame ASCII_CHARS asciiWidth asciiHeight) (v_frames video) /\
    List.length (written_frames evs) = List.length (v_frames video) /\
    (forall k frame, nth_error (v_frames video) k = Some frame ->
       nth_error (written_frames evs) k =
       Some (render_frame ASCII_CHARS asciiWidth asciiHeight frame)) /\
    frameCount self' = wrap_int (Z.of_nat (List.length (v_frames video))).
Proof.
  intros Hcs Hopen Hh Hwf Hcodec.
  destruct (find_some_exists _ _ Hcodec) as (c & Hf & _).
  destruct (convert_success w self inputPath outputPath asciiWidth asciiHeight
              quality video Hcs Hopen Hh c Hf)
    as (self' & evs & Hr & Hw & _ & _ & Hfc & _).
  rewrite (frames_read_all _ Hwf) in Hw, Hfc.
  exists self', evs. split; [exact Hr|]. split; [exact Hw|].
  split; [rewrite Hw; apply length_map|]. split; [|exact Hfc].
  intros k frame Hk. rewrite Hw, nth_error_map, Hk. reflexivity.
Qed.


(** C9. The parameter [quality] of [convertToColorASCII] has no effect on
    the value returned, the converter or the events; and [main] ignores
    every argument after the third, so that the quality it passes is 1.0
    whatever a fourth argument says. *)
Theorem quality_ignored (w : World) (self : Converter)
  (inputPath outputPath : string) (asciiWidth : Z) (q1 q2 : double)
  (program width : string) (extra : list string) :
  convertToColorASCII w self inputPath outputPath asciiWidth q1 =
  convertToColorASCII w self inputPath outputPath asciiWidth q2 /\
  main w (program :: inputPath :: outputPath :: width :: extra) =
  main w [program; inputPath; outputPath; width] /\
  main w [program; inputPath; outputPath; width] =
  match atoi width with
  | None => None
  | Some n =>
      if (n <? MIN_ASCII_WIDTH) || (MAX_ASCII_WIDTH <? n)
      then Some (1, [EvErr (MsgWidthRange MIN_ASCII_WIDTH MAX_ASCII_WIDTH)])
      else match convertToColorASCII w new_converter inputPath outputPath n d1 with
           | None => None
           | Some (true, _, evs) =>
               Some (0, [EvOut MsgBanner] ++ evs ++ [EvOut (MsgSuccess outputPath)])
           | Some (false, _, evs) =>
               Some (1, [EvOut MsgBanner] ++ evs ++ [EvErr MsgFailure])
           end
  end.
Proof.
  split; [reflexivity|]. split; [|reflexivity].
  unfold main. cbn [nth List.length].
  set (n := Z.of_nat (S (S (S (S (List.length extra)))))).
  assert (Hn : 4 <= n) by (unfold n; lia).
  destruct (Z.ltb_spec n 3) as [H|_]; [lia|].
  destruct (Z.leb_spec 4 n) as [_|H]; [|lia].
  reflexivity.
Qed.

End Runs.

(** ** Reading the width *)

Lemma digit_not_space c d : digit_of c = Some d -> isspace c = false.
Proof.
  unfold digit_of, isspace.
  set (n := Z.of_nat (nat_of_ascii c)).
  destruct (Z.leb_spec 48 n), (Z.leb_spec n 57); cbn [andb]; try discriminate.
  intros _.
  destruct (Z.eqb_spec n 32), (Z.leb_spec 9 n), (Z.leb_spec n 13);
    cbn [andb orb]; try reflexivity; lia.
Qed.

Lemma digit_not_sign c d :
  digit_of c = Some d -> Ascii.eqb c "-" = false /\ Ascii.eqb c "+" = false.
Proof.
  intros H. split.
  - destruct (Ascii.eqb_spec c "-") as [->|]; [discriminate|reflexivity].
  - destruct (Ascii.eqb_spec c "+") as [->|]; [discriminate|reflexivity].
Qed.

Lemma digits_value_stop acc s :
  starts_with_digit s = false -> digits_value acc s = acc.
Proof.
  destruct s as [|c r]; [reflexivity|]. cbn [starts_with_digit digits_value].
  destruct (digit_of c); [discriminate|reflexivity].
Qed.

Lemma digits_value_app acc ds rest :
  all_digits ds = true ->
  digits_value acc (ds ++ rest) = digits_value (digits_value acc ds) rest.
Proof.
  revert acc. induction ds as [|c ds IH]; intros acc Hd; [reflexivity|].
  cbn [all_digits] in Hd. cbn [String.append digits_value].
  destruct (digit_of c); [|discriminate]. now apply IH.
Qed.

(** The characters after a leading integer do not count. *)
Lemma atoi_prefix ds rest :
  all_digits ds = true -> ds <> EmptyString -> starts_with_digit rest = false ->
  atoi (ds ++ rest) = atoi ds.
Proof.
  intros Hd Hne Hr. destruct ds as [|c ds]; [congruence|].
  cbn [all_digits] in Hd. destruct (digit_of c) as [d|] eqn:Ed; [|discriminate].
  pose proof (digit_not_space c d Ed) as Hsp.
  destruct (digit_not_sign c d Ed) as [Hm Hp].
  unfold atoi. cbn [String.append skip_space]. rewrite Hsp, Hm, Hp.
  cbn [digits_value]. rewrite Ed.
  rewrite digits_value_app by exact Hd.
  rewrite (digits_value_stop _ rest Hr). reflexivity.
Qed.

Lemma atoi_digits ds :
  all_digits ds = true -> ds <> EmptyString ->
  INT_MIN <= digits_value 0 ds <= INT_MAX ->
  atoi ds = Some (digits_value 0 ds).
Proof.
  intros Hd Hne Hr. destruct ds as [|c ds]; [congruence|].
  pose proof Hd as Hd'.
  cbn [all_digits] in Hd. destruct (digit_of c) as [d|] eqn:Ed; [|discriminate].
  pose proof (digit_not_space c d Ed) as Hsp.
  destruct (digit_not_sign c d Ed) as [Hm Hp].
  unfold atoi. cbn [skip_space]. rewrite Hsp, Hm, Hp.
  destruct (Z.leb_spec INT_MIN (digits_value 0 (String c ds))); [|lia].
  destruct (Z.leb_spec (digits_value 0 (String c ds)) INT_MAX); [|lia].
  reflexivity.
Qed.

(** Without digits where [atoi] looks for them, the result is 0. *)
Lemma atoi_no_digits s :
  starts_with_digit (after_sign s) = false -> atoi s = Some 0.
Proof.
  unfold after_sign, atoi. intros H.
  destruct (skip_space s) as [|c r]; [reflexivity|].
  destruct (Ascii.eqb c "-").
  - rewrite (digits_value_stop 0 r H). reflexivity.
  - destruct (Ascii.eqb c "+").
    + rewrite (digits_value_stop 0 r H). reflexivity.
    + rewrite (digits_value_stop 0 _ H). reflexivity.
Qed.

Section EntryPoint.

Context {ops : ImageOps}.

Lemma main_rejects w program inputPath outputPath width n :
  atoi width = Some n -> n < MIN_ASCII_WIDTH \/ MAX_ASCII_WIDTH < n ->
  main w [program; inputPath; outputPath; width] =
    Some (1, [EvErr (MsgWidthRange MIN_ASCII_WIDTH MAX_ASCII_WIDTH)]).
Proof.
  intros Ha Hn. unfold main. cbn [List.length nth].
  change (Z.of_nat 4 <? 3) with false. change (4 <=? Z.of_nat 4) with true.
  cbv iota. rewrite Ha.
  destruct (Z.ltb_spec n MIN_ASCII_WIDTH), (Z.ltb_spec MAX_ASCII_WIDTH n);
    cbn [orb]; try reflexivity; lia.
Qed.

Lemma main_accepts w program inputPath outputPath width n :
  atoi width = Some n -> MIN_ASCII_WIDTH <= n <= MAX_ASCII_WIDTH ->
  main w [program; inputPath; outputPath; width] =
    run_converter w inputPath outputPath n.
Proof.
  intros Ha Hn. unfold main. cbn [List.length nth].
  change (Z.of_nat 4 <? 3) with false. change (4 <=? Z.of_nat 4) with true.
  cbv iota. rewrite Ha.
  destruct (Z.ltb_spec n MIN_ASCII_WIDTH), (Z.ltb_spec MAX_ASCII_WIDTH n);
    cbn [orb]; try reflexivity; lia.
Qed.

(** The first thing a conversion does to a file is to open the input. *)
Lemma convert_opens_first w self inputPath outputPath n q r s evs :
  convertToColorASCII w self inputPath outputPath n q = Some (r, s, evs) ->
  exists ok rest, evs = EvOpenVideo inputPath ok :: rest.
Proof.
  unfold convertToColorASCII.
  destruct (video_at w inputPath) as [video|].
  - destruct (asciiHeight_of _ _ _) as [h|]; [|discriminate].
    destruct (open_writer _ _ _ _ _) as [[c|] tried].
    + destruct (process_frames _ _ _ _ _) as [[s' l]|]; [|discriminate].
      intros H. eexists _, _.
      apply (f_equal (fun o => match o with Some (_, _, e) => e | None => [] end)) in H.
      rewrite <- H. reflexivity.
    + intros H. eexists _, _.
      apply (f_equal (fun o => match o with Some (_, _, e) => e | None => [] end)) in H.
      rewrite <- H. reflexivity.
  - intros H. eexists _, _.
    apply (f_equal (fun o => match o with Some (_, _, e) => e | None => [] end)) in H.
    rewrite <- H. reflexivity.
Qed.

Lemma run_converter_opens_first w inputPath outputPath n code evs :
  run_converter w inputPath outputPath n = Some (code, evs) ->
  exists ok rest, evs = EvOut MsgBanner :: EvOpenVideo inputPath ok :: rest.
Proof.
  unfold run_converter.
  generalize new_converter as self. intros self.
  destruct (convertToColorASCII w self inputPath outputPath n d1)
    as [[[r s] l]|] eqn:E; [|discriminate].
  destruct (convert_opens_first _ _ _ _ _ _ _ _ _ E) as (ok & rest & ->).
  destruct r; intros H;
    apply (f_equal (fun o => match o with Some (_, e) => e | None => [] end)) in H;
    rewrite <- H; eexists _, _; reflexivity.
Qed.

(** C5 (amended). The width is checked before any file is touched: when
    [atoi] reads the third argument as a number outside [[20, 300]], the run
    ends with exit status 1 and its only event is the diagnostic; when it
    reads a number within [[20, 300]], the conversion starts with that
    width, and its first action on a file is opening the input. "19" and
    "301" are read as 19 and 301, "20" and "300" as 20 and 300. *)
Theorem width_validated_first (w : World)
  (program inputPath outputPath width : string) (n : Z) :
  atoi width = Some n ->
  ((n < MIN_ASCII_WIDTH \/ MAX_ASCII_WIDTH < n) ->
   main w [program; inputPath; outputPath; width] =
     Some (1, [EvErr (MsgWidthRange MIN_ASCII_WIDTH MAX_ASCII_WIDTH)]) /\
   forallb is_file_event
     [EvErr (MsgWidthRange MIN_ASCII_WIDTH MAX_ASCII_WIDTH)] = false) /\
  (MIN_ASCII_WIDTH <= n <= MAX_ASCII_WIDTH ->
   main w [program; inputPath; outputPath; width] =
     run_converter w inputPath outputPath n /\
   forall code evs,
     run_converter w inputPath outputPath n = Some (code, evs) ->
     exists ok rest, evs = EvOut MsgBanner :: EvOpenVideo inputPath ok :: rest) /\
  atoi "19" = Some 19 /\ atoi "301" = Some 301 /\
  atoi "20" = Some 20 /\ atoi "300" = Some 300.
Proof.
  intros Ha. split; [|split].
  - intros Hn. split; [now apply (main_rejects w _ _ _ _ n)|reflexivity].
  - intros Hn. split; [now apply (main_accepts w _ _ _ _ n)|].
    intros code evs. apply run_converter_opens_first.
  - repeat split; reflexivity.
Qed.

(** C10. A third argument that begins with the digits of an integer
    within [[20, 300]] is accepted with that value whatever follows the
    digits, "150abc" as 150; an argument without digits where [atoi] looks
    for them is read as 0 and rejected with exit status 1. *)
Theorem atoi_leading_integer (w : World) (program inputPath outputPath : string) :
  (forall ds rest,
     all_digits ds = true -> ds <> EmptyString ->
     starts_with_digit rest = false ->
     MIN_ASCII_WIDTH <= digits_value 0 ds <= MAX_ASCII_WIDTH ->
     atoi (ds ++ rest) = Some (digits_value 0 ds) /\
     main w [program; inputPath; outputPath; (ds ++ rest)%string] =
       run_converter w inputPath outputPath (digits_value 0 ds)) /\
  (atoi "150abc" = Some 150 /\
   main w [program; inputPath; outputPath; "150abc"%string] =
     run_converter w inputPath outputPath 150) /\
  (forall s,
     starts_with_digit (after_sign s) = false ->
     atoi s = Some 0 /\
     main w [program; inputPath; outputPath; s] =
       Some (1, [EvErr (MsgWidthRange MIN_ASCII_WIDTH MAX_ASCII_WIDTH)])).
Proof.
  split; [|split].
  - intros ds rest Hd Hne Hr Hn.
    assert (Ha : atoi (ds ++ rest) = Some (digits_value 0 ds)).
    { rewrite atoi_prefix by assumption. apply atoi_digits; try assumption.
      unfold MIN_ASCII_WIDTH, MAX_ASCII_WIDTH, INT_MIN, INT_MAX in *. lia. }
    split; [exact Ha|]. now apply main_accepts.
  - split; [reflexivity|]. apply (main_accepts w _ _ _ _ 150); [reflexivity|].
    unfold MIN_ASCII_WIDTH, MAX_ASCII_WIDTH. lia.
  - intros s Hs. pose proof (atoi_no_digits s Hs) as Ha.
    split; [exact Ha|]. apply (main_rejects w _ _ _ s 0 Ha).
    left. unfold MIN_ASCII_WIDTH. lia.
Qed.

End EntryPoint.

(** ** The statements on the small world *)

Lemma codec_fallback_witness :
  (exists self' evs,
     convertToColorASCII (ops := sample_ops) sample_world new_converter
       "miku.mp4" "ascii.mp4" 20 d1 = Some (true, self', evs) /\
     codecs_tried evs =
       [(fourcc "m" "p" "4" "v", false); (fourcc "a" "v" "c" "1", true)]) /\
  (exists evs,
     run_converter (ops := sample_ops) deaf_world "miku.mp4" "ascii.mp4" 20
       = Some (1, evs) /\
     written_frames evs = []).
Proof.
  split.
  - destruct (codec_fallback (ops := sample_ops) sample_world new_converter
                "miku.mp4" "ascii.mp4" 20 5 d1 sample_video
                eq_refl eq_refl ltac:(vm_compute; reflexivity)) as [HA _].
    apply (HA [fourcc "m" "p" "4" "v"] (fourcc "a" "v" "c" "1")
              [fourcc "X" "2" "6" "4"; fourcc "H" "2" "6" "4"]).
    + reflexivity.
    + intros c' [<-|[]]. reflexivity.
    + reflexivity.
  - destruct (codec_fallback (ops := sample_ops) deaf_world new_converter
                "miku.mp4" "ascii.mp4" 20 5 d1 sample_video
                eq_refl eq_refl ltac:(vm_compute; reflexivity)) as [_ HB].
    destruct HB as [_ Hrun]; [intros c _; reflexivity|exact Hrun].
Defined.

Lemma frames_written_in_order_witness :
  exists self' evs,
    convertToColorASCII (ops := sample_ops) sample_world new_converter
      "miku.mp4" "ascii.mp4" 20 d1 = Some (true, self', evs) /\
    written_frames evs =
      map (render_frame (ops := sample_ops) ASCII_CHARS 20 5) (v_frames sample_video) /\
    List.length (written_frames evs) = List.length (v_frames sample_video) /\
    (forall k frame, nth_error (v_frames sample_video) k = Some frame ->
       nth_error (written_frames evs) k =
       Some (render_frame (ops := sample_ops) ASCII_CHARS 20 5 frame)) /\
    frameCount self' = wrap_int (Z.of_nat (List.length (v_frames sample_video))).
Proof.
  apply (frames_written_in_order (ops := sample_ops) sample_world new_converter
           "miku.mp4" "ascii.mp4" 20 5 d1 sample_video).
  - reflexivity.
  - reflexivity.
  - vm_compute. reflexivity.
  - repeat constructor.
  - exists (fourcc "a" "v" "c" "1"). split; [right; left|]; reflexivity.
Defined.

Lemma output_frame_canvas_witness :
  let resized := resize (ImageOps := sample_ops) (sample_frame 0 0 0)
                   (mkSize 20 5) INTER_AREA in
  exists asciiFrame debug calls,
    generateColorASCIIFrame (ops := sample_ops) new_converter resized
      = Some (asciiFrame, debug) /\
    rows asciiFrame = 5 * ASCII_CHAR_HEIGHT /\
    cols asciiFrame = 20 * ASCII_CHAR_WIDTH /\
    asciiFrame =
      fold_left (putText (ImageOps := sample_ops)) calls
        (Mat_black (5 * ASCII_CHAR_HEIGHT) (20 * ASCII_CHAR_WIDTH)) /\
    List.length calls = Z.to_nat (5 * 20) /\
    (forall y x, 0 <= y < 5 -> 0 <= x < 20 ->
       exists c,
         getASCIIChar ASCII_CHARS (luminance (at_ resized y x)) = Some c /\
         nth_error calls (Z.to_nat (y * 20 + x)) =
         Some (mkDraw (String c EmptyString)
                      (mkPoint (x * ASCII_CHAR_WIDTH) ((y + 1) * ASCII_CHAR_HEIGHT - 2))
                      FONT_HERSHEY_SIMPLEX ASCII_FONT_SIZE
                      (mkScalar (ch0 (at_ resized y x)) (ch1 (at_ resized y x))
                                (ch2 (at_ resized y x)))
                      1 LINE_AA)) /\
    (forall y x,
       (forall d, In d calls -> touches (ImageOps := sample_ops) d y x = false) ->
       at_ asciiFrame y x = black).
Proof.
  apply (output_frame_canvas (ops := sample_ops) (laws := sample_ops_laws)
           new_converter (sample_frame 0 0 0) 20 5).
  - reflexivity.
  - lia.
  - unfold ASCII_CHAR_WIDTH, INT_MAX. lia.
  - lia.
  - unfold ASCII_CHAR_HEIGHT, INT_MAX. lia.
Defined.


Lemma width_validated_first_witness :
  main (ops := sample_ops) sample_world ["miku"; "miku.mp4"; "ascii.mp4"; "19"]%string
    = Some (1, [EvErr (MsgWidthRange MIN_ASCII_WIDTH MAX_ASCII_WIDTH)]) /\
  main (ops := sample_ops) sample_world ["miku"; "miku.mp4"; "ascii.mp4"; "300"]%string
    = run_converter (ops := sample_ops) sample_world "miku.mp4" "ascii.mp4" 300.
Proof.
  split.
  - destruct (width_validated_first (ops := sample_ops) sample_world
                "miku" "miku.mp4" "ascii.mp4" "19" 19 eq_refl) as [Hrej _].
    apply Hrej. left. unfold MIN_ASCII_WIDTH. lia.
  - destruct (width_validated_first (ops := sample_ops) sample_world
                "miku" "miku.mp4" "ascii.mp4" "300" 300 eq_refl) as [_ [Hacc _]].
    apply Hacc. unfold MIN_ASCII_WIDTH, MAX_ASCII_WIDTH. lia.
Defined.

(** C5 as stated fails for an argument that is no number but begins with
    one: with "150abc" the run is not rejected; it opens the input, writes
    the two frames of the video and ends with exit status 0. *)
Lemma width_counterexample :
  exists evs,
    main (ops := sample_ops) sample_world
      ["miku"; "miku.mp4"; "ascii.mp4"; "150abc"]%string = Some (0, evs) /\
    In (EvOpenVideo "miku.mp4" true) evs /\
    List.length (written_frames evs) = 2%nat.
Proof.
  rewrite (main_accepts (ops := sample_ops) sample_world
             "miku" "miku.mp4" "ascii.mp4" "150abc" 150 eq_refl)
    by (unfold MIN_ASCII_WIDTH, MAX_ASCII_WIDTH; lia).
  unfold run_converter.
  destruct (convert_success (ops := sample_ops) sample_world new_converter
              "miku.mp4" "ascii.mp4" 150 37 d1 sample_video
              eq_refl eq_refl ltac:(vm_compute; reflexivity)
              (fourcc "a" "v" "c" "1") ltac:(vm_compute; reflexivity))
    as (self' & evs & Hr & Hw & _ & _ & _ & rest & Hev).
  rewrite Hr. eexists. split; [reflexivity|]. split.
  - rewrite Hev. right. left. reflexivity.
  - unfold written_frames in *. cbn [flat_map app].
    rewrite !flat_map_app, Hw. cbn [flat_map]. rewrite !app_nil_r.
    reflexivity.
Qed.

(** * Further properties *)

(** ** The glyph mapper on arbitrary ramps and brightnesses *)

Lemma last_index_single N :
  1 <= N <= 2 ^ 31 ->
  wrap_size_t (N - 1) = N - 1 /\ wrap_int (N - 1) = N - 1.
Proof.
  intros H. unfold wrap_size_t, wrap_int. split.
  - apply Z.mod_small. lia.
  - rewrite Z.mod_small; lia.
Qed.

(** NaN and every double from 1.0 upwards are clamped to 1.0; every double
    up to 0.0, the negative zero included, is clamped to 0.0. *)
Lemma clamp_brightness_high x :
  x = S754_nan \/ dle d1 x = true -> clamp_brightness x = d1.
Proof.
  intros [->|H]; [reflexivity|].
  destruct x as [s|[|]| |[|] m e]; try discriminate; try reflexivity.
  unfold d1 in H. apply dle_finite_pos in H.
  unfold clamp_brightness, std_max, std_min.
  destruct (dlt (S754_finite false m e) d1) eqn:E; [|reflexivity].
  unfold d1 in E. apply dlt_finite_pos in E. lia.
Qed.

Lemma clamp_brightness_low x :
  dle x d0 = true -> clamp_brightness x = d0.
Proof.
  intros H.
  destruct x as [s|[|]| |[|] m e]; try discriminate; reflexivity.
Qed.

(** A ramp of one glyph: the last index is 0 and the product is a zero. *)
Lemma glyphIndex_single x : glyphIndex 1 x = Some 0.
Proof.
  destruct (clamp_brightness_cases x) as [H|[H|(H & H0 & H1)]].
  - rewrite (glyphIndex_clamp_eq 1 x d0) by (rewrite H; reflexivity). reflexivity.
  - rewrite (glyphIndex_clamp_eq 1 x d1) by (rewrite H; reflexivity). reflexivity.
  - unfold glyphIndex. rewrite H.
    destruct x as [s|[|]| |[|] m e]; try discriminate. reflexivity.
Qed.

Lemma glyphIndex_one N :
  1 <= N <= 2 ^ 31 -> glyphIndex N d1 = Some (N - 1).
Proof.
  intros HN. destruct (Z.eq_dec N 1) as [->|Hne]; [reflexivity|].
  assert (HN2 : 2 <= N <= 2 ^ 31) by lia.
  destruct (glyphIndex_unit_pos N _ _ HN2 unit_pos_d1 eq_refl)
    as (i & Hi & _ & _ & _ & Hone).
  unfold d1. rewrite Hi. f_equal. apply Hone. reflexivity.
Qed.

Lemma glyphIndex_defined N x :
  1 <= N <= 2 ^ 31 -> mant_ok x ->
  exists i, glyphIndex N x = Some i /\ 0 <= i <= N - 1.
Proof.
  intros HN Hm. destruct (Z.eq_dec N 1) as [->|Hne].
  - exists 0. split; [apply glyphIndex_single|lia].
  - apply glyphIndex_total; [lia|exact Hm].
Qed.

(** X1. On a ramp of 1 to [2^31] glyphs [getASCIIChar] returns a glyph of
    the ramp for every brightness whatsoever, the infinities and NaN
    included; NaN and every brightness from 1.0 upwards select the last
    glyph, every brightness up to 0.0 (the negative zero and minus infinity
    included) selects the first. *)
Theorem getASCIIChar_any_brightness (cs : string) (x : double) :
  1 <= Z.of_nat (String.length cs) <= 2 ^ 31 ->
  (mant_ok x ->
   exists i c,
     glyphIndex (Z.of_nat (String.length cs)) x = Some i /\
     0 <= i < Z.of_nat (String.length cs) /\
     getASCIIChar cs x = Some c /\ String.get (Z.to_nat i) cs = Some c) /\
  (x = S754_nan \/ dle d1 x = true ->
   glyphIndex (Z.of_nat (String.length cs)) x =
     Some (Z.of_nat (String.length cs) - 1) /\
   getASCIIChar cs x = String.get (String.length cs - 1) cs) /\
  (dle x d0 = true ->
   glyphIndex (Z.of_nat (String.length cs)) x = Some 0 /\
   getASCIIChar cs x = String.get 0 cs).
Proof.
  intros HN. set (N := Z.of_nat (String.length cs)) in *.
  assert (Hat : forall i, 0 <= i < N ->
            string_at cs i = String.get (Z.to_nat i) cs).
  { intros i Hi. destruct (string_at_some cs i Hi) as (c & -> & ->). reflexivity. }
  split; [|split].
  - intros Hm. destruct (glyphIndex_defined N x HN Hm) as (i & Hi & Hr).
    destruct (string_at_some cs i ltac:(fold N; lia)) as (c & Hc & Hg).
    exists i, c. unfold getASCIIChar. fold N. rewrite Hi.
    repeat split; try assumption; lia.
  - intros Hx.
    assert (Hg : glyphIndex N x = Some (N - 1)).
    { rewrite (glyphIndex_clamp_eq N x d1)
        by (now rewrite (clamp_brightness_high x Hx)).
      now apply glyphIndex_one. }
    split; [exact Hg|]. unfold getASCIIChar. fold N. rewrite Hg.
    rewrite Hat by lia. f_equal. unfold N. lia.
  - intros Hx.
    assert (Hg : glyphIndex N x = Some 0).
    { rewrite (glyphIndex_clamp_eq N x d0)
        by (now rewrite (clamp_brightness_low x Hx)).
      destruct (Z.eq_dec N 1) as [->|Hne]; [reflexivity|].
      apply (glyphIndex_zero N false). lia. }
    split; [exact Hg|]. unfold getASCIIChar. fold N. rewrite Hg.
    rewrite Hat by lia. reflexivity.
Qed.

(** The statement applies to the ramp of the program and to NaN. *)
Lemma getASCIIChar_any_brightness_witness :
  (mant_ok S754_nan ->
   exists i c,
     glyphIndex (Z.of_nat (String.length ASCII_CHARS)) S754_nan = Some i /\
     0 <= i < Z.of_nat (String.length ASCII_CHARS) /\
     getASCIIChar ASCII_CHARS S754_nan = Some c /\
     String.get (Z.to_nat i) ASCII_CHARS = Some c) /\
  (S754_nan = S754_nan \/ dle d1 S754_nan = true ->
   glyphIndex (Z.of_nat (String.length ASCII_CHARS)) S754_nan =
     Some (Z.of_nat (String.length ASCII_CHARS) - 1) /\
   getASCIIChar ASCII_CHARS S754_nan =
     String.get (String.length ASCII_CHARS - 1) ASCII_CHARS) /\
  (dle S754_nan d0 = true ->
   glyphIndex (Z.of_nat (String.length ASCII_CHARS)) S754_nan = Some 0 /\
   getASCIIChar ASCII_CHARS S754_nan = String.get 0 ASCII_CHARS).
Proof.
  apply (getASCIIChar_any_brightness ASCII_CHARS S754_nan).
  vm_compute. split; discriminate.
Defined.

(** ** The rasteriser and the main loop in closed form *)

Section ClosedForms.

Context {ops : ImageOps}.

Lemma row_fold_debug self colorFrame y xs st :
  snd (fold_left (fun s x => row_step self colorFrame y x s) xs st) =
  snd st ++ flat_map (cell_debug self colorFrame) (map (fun x => (y, x)) xs).
Proof.
  revert st. induction xs as [|x xs IH]; intros st.
  - cbn [fold_left map flat_map]. now rewrite app_nil_r.
  - cbn [fold_left map flat_map]. rewrite IH. unfold row_step. cbn [snd].
    unfold debug_of, cell_debug. cbn [fst snd].
    destruct ((x <? 3) && (y <? 2) && (frameCount self =? 0)).
    + now rewrite <- app_assoc.
    + reflexivity.
Qed.

(** With a ramp that gives a glyph for every luminance, the rasteriser
    returns the canvas with the calls of the frame drawn on it and the
    diagnostics of the frame. *)
Lemma generateColorASCIIFrame_closed self colorFrame :
  (forall pixel, exists c,
      getASCIIChar (currentCharset self) (luminance pixel) = Some c) ->
  generateColorASCIIFrame self colorFrame =
  Some (fold_left putText (frame_calls (currentCharset self) colorFrame)
          (Mat_black (int_mul (rows colorFrame) ASCII_CHAR_HEIGHT)
                     (int_mul (cols colorFrame) ASCII_CHAR_WIDTH)),
        frame_debug self colorFrame).
Proof.
  intros glyph_total.
  unfold generateColorASCIIFrame, for_range, frame_calls, frame_debug, grid_cells.
  rewrite !Z.sub_0_r.
  set (w := Z.to_nat (cols colorFrame)).
  set (canvas := Mat_black _ _).
  assert (Hrow : forall y st,
             for_count w 0 (fun x => draw_cell self colorFrame y x) st =
             Some (fold_left (fun s x => row_step self colorFrame y x s)
                     (zrange 0 w) st)).
  { intros y st. apply for_count_total. intros x s.
    now apply draw_cell_total. }
  rewrite (for_count_total _
             (fun y st => fold_left (fun s x => row_step self colorFrame y x s)
                            (zrange 0 w) st))
    by (intros y st; apply Hrow).
  f_equal.
  assert (Hgen : forall ys cv log,
    fold_left (fun s y => fold_left (fun s x => row_step self colorFrame y x s)
                            (zrange 0 w) s) ys (cv, log) =
    (fold_left putText
       (map (fun cell =>
               cell_draw (cell_glyph (currentCharset self) colorFrame cell)
                 (at_ colorFrame (fst cell) (snd cell)) (snd cell) (fst cell))
            (flat_map (fun y => map (fun x => (y, x)) (zrange 0 w)) ys)) cv,
     log ++ flat_map (cell_debug self colorFrame)
              (flat_map (fun y => map (fun x => (y, x)) (zrange 0 w)) ys))).
  { induction ys as [|y ys IH]; intros cv log.
    - cbn [fold_left flat_map map]. now rewrite app_nil_r.
    - cbn [fold_left flat_map]. rewrite map_app, fold_left_app, flat_map_app.
      pose proof (row_fold_debug self colorFrame y (zrange 0 w) (cv, log)) as Hl.
      pose proof (row_fold_canvas self colorFrame y (zrange 0 w) (cv, log)) as Hc.
      destruct (fold_left (fun s x => row_step self colorFrame y x s)
                  (zrange 0 w) (cv, log)) as [cv' log'] eqn:E.
      cbn [fst snd] in Hl, Hc. rewrite IH, Hl, Hc, app_assoc. reflexivity. }
  rewrite Hgen. reflexivity.
Qed.

Lemma count_after_succ count n :
  count_after count (Datatypes.S n) = int_add (count_after count n) 1.
Proof.
  revert count. induction n as [|n IH]; intros count; [reflexivity|].
  cbn [count_after] in *. now rewrite IH.
Qed.

Lemma count_after_small count n :
  INT_MIN <= count -> count + Z.of_nat n <= INT_MAX ->
  count_after count n = count + Z.of_nat n.
Proof.
  revert count. induction n as [|n IH]; intros count Hlo Hhi.
  - cbn [count_after]. lia.
  - cbn [count_after]. unfold int_add.
    rewrite (wrap_int_small (count + 1)) by lia.
    rewrite IH; lia.
Qed.

(** The main loop on the ramp of the program: it processes the frames up to
    the first empty one, and its events are those of [loop_log]. *)
Lemma process_frames_closed self asciiWidth asciiHeight totalFrames stream :
  currentCharset self = ASCII_CHARS ->
  process_frames self asciiWidth asciiHeight totalFrames stream =
  Some (mkConverter ASCII_CHARS
          (count_after (frameCount self) (List.length (frames_read stream))),
        loop_log ASCII_CHARS asciiWidth asciiHeight totalFrames
                 (frameCount self) (frames_read stream)).
Proof.
  revert self. induction stream as [|frame rest IH]; intros self Hcs.
  - cbn [process_frames frames_read loop_log List.length count_after].
    destruct self as [cs fc]. cbn in Hcs |- *. now subst cs.
  - cbn [process_frames frames_read].
    destruct (Mat_empty frame).
    + cbn [loop_log List.length count_after].
      destruct self as [cs fc]. cbn in Hcs |- *. now subst cs.
    + set (resized := resize frame (mkSize asciiWidth asciiHeight) INTER_AREA).
      rewrite (generateColorASCIIFrame_closed self resized
                 (ASCII_CHARS_glyph_total self Hcs)).
      rewrite Hcs.
      rewrite (IH (mkConverter ASCII_CHARS (int_add (frameCount self) 1)) eq_refl).
      cbn [frameCount List.length count_after loop_log].
      fold resized. unfold render_frame. fold resized.
      destruct self as [cs fc]. cbn [currentCharset frameCount] in *. subst cs.
      reflexivity.
Qed.

End ClosedForms.

(** ** A run in closed form *)

Section RunClosedForm.

Context {ops : ImageOps}.

Variables (w : World) (self : Converter) (inputPath outputPath : string).
Variables (asciiWidth asciiHeight : Z) (quality : double) (video : Video).

Hypothesis ramp : currentCharset self = ASCII_CHARS.
Hypothesis opened : video_at w inputPath = Some video.
Hypothesis height_defined :
  asciiHeight_of asciiWidth (v_width video) (v_height video) = Some asciiHeight.

(** The two outcomes of a run whose video opens. *)
Lemma convert_closed :
  let opening := open_writer w outputPath (v_fps video)
                   (frameSize_of asciiWidth asciiHeight) codecList in
  let frames := frames_read (v_frames video) in
  let count := count_after 0 (List.length frames) in
  convertToColorASCII w self inputPath outputPath asciiWidth quality =
  Some (match fst opening with
        | None =>
            (false, self,
             run_header inputPath video ASCII_CHARS asciiWidth asciiHeight
             ++ snd opening
             ++ [EvErr (MsgCannotCreateOutput outputPath); EvReleaseCapture])
        | Some _ =>
            (true, mkConverter ASCII_CHARS count,
             run_header inputPath video ASCII_CHARS asciiWidth asciiHeight
             ++ snd opening
             ++ [EvOut MsgStart]
             ++ testCharacterDisplay (mkConverter ASCII_CHARS 0)
             ++ loop_log ASCII_CHARS asciiWidth asciiHeight
                  (v_frame_count video) 0 frames
             ++ run_footer outputPath count)
        end).
Proof.
  intros opening frames count.
  unfold convertToColorASCII. rewrite opened, height_defined.
  unfold opening, frameSize_of, run_header, frameSize_of.
  cbn [sz_width sz_height].
  destruct (open_writer w outputPath (v_fps video) _ codecList) as [[c|] tried].
  - cbn [fst snd].
    rewrite (process_frames_closed (mkConverter (currentCharset self) 0)
               asciiWidth asciiHeight (v_frame_count video) (v_frames video) ramp).
    cbn [frameCount]. rewrite ramp. reflexivity.
  - cbn [fst snd]. rewrite ramp. reflexivity.
Qed.

End RunClosedForm.

(** ** The two variants of the program *)

Section Variants.

Context {ops : ImageOps}.

(** With the literals of [miku.cpp] its rasteriser is the one of the
    documented variant. *)
Lemma inline_generateColorASCIIFrame self colorFrame :
  Inline.generateColorASCIIFrame self colorFrame 6 12 (decimal 3 1) =
  generateColorASCIIFrame self colorFrame.
Proof. reflexivity. Qed.

Lemma inline_process_frames self asciiWidth asciiHeight totalFrames stream :
  Inline.process_frames self asciiWidth asciiHeight 6 12 (decimal 3 1)
    totalFrames stream =
  process_frames self asciiWidth asciiHeight totalFrames stream.
Proof.
  revert self. induction stream as [|frame rest IH]; intros self; [reflexivity|].
  cbn [Inline.process_frames process_frames].
  destruct (Mat_empty frame); [reflexivity|].
  rewrite inline_generateColorASCIIFrame.
  destruct (generateColorASCIIFrame self _) as [[asciiFrame debug]|]; [|reflexivity].
  rewrite IH. reflexivity.
Qed.

End Variants.

(** ** What the parts of a log contribute *)

Lemma reads_app l1 l2 : reads (l1 ++ l2) = (reads l1 + reads l2)%nat.
Proof. unfold reads. now rewrite filter_app, length_app. Qed.


(** Messages touch no handle and no file. *)
Lemma messages_silent l :
  Forall (fun e => is_file_event e = false) l ->
  reads l = 0%nat /\ written_frames l = [] /\ codecs_tried l = [] /\
  writer_sizes l = [] /\ file_events l = [] /\
  forall h, protocol_run h l = Some h.
Proof.
  induction 1 as [|e l He _ IH].
  - repeat split.
  - destruct IH as (I1 & I2 & I3 & I4 & I5 & I6).
    destruct e; try discriminate He;
      (repeat split; [exact I1|exact I2|exact I3|exact I4| |exact I6]);
      unfold file_events in *; cbn [filter is_file_event]; exact I5.
Qed.

Lemma messages_no_reports l :
  Forall pixel_event l -> progress_reports l = [].
Proof.
  induction 1 as [|e l He _ IH]; [reflexivity|].
  destruct e; try contradiction. destruct m; try contradiction. exact IH.
Qed.

Lemma testCharacterDisplay_messages self :
  Forall (fun e => is_file_event e = false) (testCharacterDisplay self).
Proof.
  unfold testCharacterDisplay. constructor; [reflexivity|].
  apply Forall_forall. intros e He. apply in_map_iff in He as (i & <- & _).
  reflexivity.
Qed.

Lemma testCharacterDisplay_no_reports self :
  progress_reports (testCharacterDisplay self) = [] /\
  pixel_reports (testCharacterDisplay self) = [].
Proof.
  unfold testCharacterDisplay, progress_reports, pixel_reports.
  cbn [flat_map app].
  generalize (seq 0 (String.length (currentCharset self))) as l.
  induction l as [|i l [IH1 IH2]]; [split; reflexivity|].
  cbn [map flat_map app]. split; assumption.
Qed.

(** The candidates: the writer is open afterwards exactly when one of them
    opened, with the frame size asked for. *)
Lemma open_writer_handles w outputPath fps frameSize codecs :
  let opening := open_writer w outputPath fps frameSize codecs in
  protocol_run (mkHandles true false) (snd opening) =
    Some (mkHandles true (is_open (fst opening))) /\
  writer_sizes (snd opening) = (if is_open (fst opening) then [frameSize] else []) /\
  reads (snd opening) = 0%nat /\
  progress_reports (snd opening) = [] /\ pixel_reports (snd opening) = [].
Proof.
  induction codecs as [|codec rest IH]; cbn [open_writer].
  - repeat split.
  - destruct (writer_opens w outputPath (nth 0 codec 0) fps frameSize) eqn:E.
    + repeat split.
    + cbn zeta in IH.
      destruct (open_writer w outputPath fps frameSize rest) as [r evs].
      cbn [fst snd] in *. exact IH.
Qed.


Section LoopLog.

Context {ops : ImageOps}.

Lemma frame_debug_pixel self colorFrame :
  Forall pixel_event (frame_debug self colorFrame).
Proof.
  unfold frame_debug. apply Forall_flat_map, Forall_forall. intros cell _.
  unfold cell_debug.
  destruct ((snd cell <? 3) && (fst cell <? 2) && (frameCount self =? 0));
    repeat constructor.
Qed.

Lemma frame_debug_messages self colorFrame :
  Forall (fun e => is_file_event e = false) (frame_debug self colorFrame).
Proof.
  eapply Forall_impl; [|apply frame_debug_pixel].
  intros e He. destruct e; try contradiction. reflexivity.
Qed.

Variables (cs : string) (asciiWidth asciiHeight totalFrames : Z).

Lemma loop_log_reads count frames :
  reads (loop_log cs asciiWidth asciiHeight totalFrames count frames) =
  Datatypes.S (List.length frames).
Proof.
  revert count. induction frames as [|frame rest IH]; intros count; [reflexivity|].
  cbn [loop_log List.length].
  change (reads (EvRead :: ?l)) with (Datatypes.S (reads l)).
  rewrite !reads_app, IH.
  destruct (messages_silent _ (frame_debug_messages (mkConverter cs count)
              (resize frame (mkSize asciiWidth asciiHeight) INTER_AREA)))
    as (-> & _).
  destruct (int_rem (int_add count 1) 30 =? 0); reflexivity.
Qed.

Lemma loop_log_written count frames :
  written_frames (loop_log cs asciiWidth asciiHeight totalFrames count frames) =
  map (render_frame cs asciiWidth asciiHeight) frames.
Proof.
  revert count. induction frames as [|frame rest IH]; intros count; [reflexivity|].
  cbn [loop_log map].
  destruct (messages_silent _ (frame_debug_messages (mkConverter cs count)
              (resize frame (mkSize asciiWidth asciiHeight) INTER_AREA)))
    as (_ & Hw & _).
  unfold written_frames in *.
  repeat (rewrite ?flat_map_app; cbn [flat_map app]).
  rewrite Hw, IH.
  destruct (int_rem (int_add count 1) 30 =? 0); reflexivity.
Qed.


Lemma loop_log_sizes count frames :
  writer_sizes (loop_log cs asciiWidth asciiHeight totalFrames count frames) = [].
Proof.
  revert count. induction frames as [|frame rest IH]; intros count; [reflexivity|].
  cbn [loop_log].
  destruct (messages_silent _ (frame_debug_messages (mkConverter cs count)
              (resize frame (mkSize asciiWidth asciiHeight) INTER_AREA)))
    as (_ & _ & _ & Hw & _).
  unfold writer_sizes in *.
  repeat (rewrite ?flat_map_app; cbn [flat_map app]).
  rewrite Hw, IH.
  destruct (int_rem (int_add count 1) 30 =? 0); reflexivity.
Qed.

(** A progress line follows the frames whose number is a multiple of 30. *)
Lemma loop_log_progress count frames :
  0 <= count -> count + Z.of_nat (List.length frames) <= INT_MAX ->
  progress_reports (loop_log cs asciiWidth asciiHeight totalFrames count frames) =
  map (progress_report totalFrames)
      (filter (fun k => k mod 30 =? 0)
              (zrange (count + 1) (List.length frames))).
Proof.
  revert count. induction frames as [|frame rest IH]; intros count H0 Hmax;
    [reflexivity|].
  cbn [List.length] in Hmax. rewrite Nat2Z.inj_succ in Hmax.
  cbn [loop_log List.length zrange filter].
  pose proof (messages_no_reports _ (frame_debug_pixel (mkConverter cs count)
                (resize frame (mkSize asciiWidth asciiHeight) INTER_AREA))) as Hd.
  unfold int_add. rewrite (wrap_int_small (count + 1)) by (unfold INT_MIN; lia).
  specialize (IH (count + 1) ltac:(lia) ltac:(lia)).
  unfold progress_reports in *.
  repeat (rewrite ?flat_map_app; cbn [flat_map app]).
  rewrite Hd, IH.
  unfold int_rem. rewrite Z.rem_mod_nonneg by lia.
  destruct (Z.eqb_spec ((count + 1) mod 30) 0); reflexivity.
Qed.

End LoopLog.

(** ** The diagnostics of the rasteriser *)

Lemma filter_zrange_below k i n :
  filter (fun x => x <? k) (zrange i n) =
  zrange i (Nat.min (Z.to_nat (k - i)) n).
Proof.
  revert i. induction n as [|n IH]; intros i.
  - now rewrite Nat.min_0_r.
  - cbn [zrange filter]. rewrite IH.
    destruct (Z.ltb_spec i k) as [Hlt|Hge].
    + replace (Z.to_nat (k - i)) with (Datatypes.S (Z.to_nat (k - (i + 1)))) by lia.
      reflexivity.
    + replace (Z.to_nat (k - i)) with 0%nat by lia.
      replace (Z.to_nat (k - (i + 1))) with 0%nat by lia.
      reflexivity.
Qed.

Lemma flat_map_zrange_below {A : Type} (g : Z -> list A) k i n :
  flat_map (fun y => if y <? k then g y else []) (zrange i n) =
  flat_map g (zrange i (Nat.min (Z.to_nat (k - i)) n)).
Proof.
  revert i. induction n as [|n IH]; intros i.
  - now rewrite Nat.min_0_r.
  - cbn [zrange flat_map]. rewrite IH.
    destruct (Z.ltb_spec i k) as [Hlt|Hge].
    + replace (Z.to_nat (k - i)) with (Datatypes.S (Z.to_nat (k - (i + 1)))) by lia.
      reflexivity.
    + replace (Z.to_nat (k - i)) with 0%nat by lia.
      replace (Z.to_nat (k - (i + 1))) with 0%nat by lia.
      reflexivity.
Qed.

Lemma filter_flat_map {A B : Type} (p : B -> bool) (f : A -> list B) l :
  filter p (flat_map f l) = flat_map (fun a => filter p (f a)) l.
Proof.
  induction l as [|a l IH]; [reflexivity|].
  cbn [flat_map]. now rewrite filter_app, IH.
Qed.

(** The cells with a diagnostic line are those of the first two rows and
    the first three columns. *)
Lemma first_cells height width :
  filter (fun cell : Z * Z => (snd cell <? 3) && (fst cell <? 2))
         (grid_cells height width) =
  grid_cells (Z.min 2 height) (Z.min 3 width).
Proof.
  unfold grid_cells. rewrite filter_flat_map.
  rewrite (flat_map_ext _
             (fun y => if y <? 2
                       then map (fun x => (y, x))
                              (zrange 0 (Z.to_nat (Z.min 3 width)))
                       else [])).
  - rewrite flat_map_zrange_below. f_equal. f_equal. lia.
  - intros y.
    assert (Hrow : forall xs,
              filter (fun cell : Z * Z => (snd cell <? 3) && (fst cell <? 2))
                     (map (fun x => (y, x)) xs) =
              if y <? 2 then map (fun x => (y, x)) (filter (fun x => x <? 3) xs)
              else []).
    { induction xs as [|x xs IH]; cbn [map filter fst snd].
      - now destruct (y <? 2).
      - rewrite IH. destruct (y <? 2), (x <? 3); reflexivity. }
    rewrite Hrow, filter_zrange_below.
    destruct (y <? 2); [|reflexivity]. f_equal. f_equal. lia.
Qed.

Lemma grid_cells_length height width :
  List.length (grid_cells height width) = (Z.to_nat height * Z.to_nat width)%nat.
Proof.
  unfold grid_cells. generalize 0 at 2 as y0.
  induction (Z.to_nat height) as [|h IH]; intros y0; [reflexivity|].
  cbn [zrange flat_map]. rewrite length_app, length_map, zrange_length, IH.
  reflexivity.
Qed.

Section Diagnostics.

Context {ops : ImageOps}.

Lemma frame_debug_reports self colorFrame :
  pixel_reports (frame_debug self colorFrame) =
  if frameCount self =? 0
  then map (pixel_report (currentCharset self) colorFrame)
           (grid_cells (Z.min 2 (rows colorFrame)) (Z.min 3 (cols colorFrame)))
  else [].
Proof.
  rewrite <- first_cells. unfold frame_debug, pixel_reports.
  generalize (grid_cells (rows colorFrame) (cols colorFrame)) as cells.
  induction cells as [|cell cells IH].
  - now destruct (frameCount self =? 0).
  - cbn [flat_map filter]. rewrite flat_map_app, IH.
    unfold cell_debug.
    destruct (frameCount self =? 0), ((snd cell <? 3) && (fst cell <? 2));
      reflexivity.
Qed.

Variables (cs : string) (asciiWidth asciiHeight totalFrames : Z).

Lemma loop_log_quiet count frames :
  1 <= count -> count + Z.of_nat (List.length frames) <= INT_MAX ->
  pixel_reports (loop_log cs asciiWidth asciiHeight totalFrames count frames) = [].
Proof.
  revert count. induction frames as [|frame rest IH]; intros count H1 Hmax;
    [reflexivity|].
  cbn [List.length] in Hmax. rewrite Nat2Z.inj_succ in Hmax.
  cbn [loop_log].
  pose proof (frame_debug_reports (mkConverter cs count)
                (resize frame (mkSize asciiWidth asciiHeight) INTER_AREA)) as Hd.
  cbn [frameCount] in Hd.
  destruct (Z.eqb_spec count 0) as [E|_]; [lia|].
  specialize (IH (int_add count 1)).
  unfold int_add in *. rewrite (wrap_int_small (count + 1)) in *
    by (unfold INT_MIN; lia).
  specialize (IH ltac:(lia) ltac:(lia)).
  unfold pixel_reports in *.
  destruct (int_rem (count + 1) 30 =? 0);
    repeat (rewrite ?flat_map_app; cbn [flat_map app]);
    rewrite Hd, IH; reflexivity.
Qed.

(** The diagnostics of a run are those of its first frame. *)
Lemma loop_log_reports frames :
  Z.of_nat (List.length frames) <= INT_MAX ->
  pixel_reports (loop_log cs asciiWidth asciiHeight totalFrames 0 frames) =
  match frames with
  | [] => []
  | frame :: _ =>
      let resized := resize frame (mkSize asciiWidth asciiHeight) INTER_AREA in
      map (pixel_report cs resized)
          (grid_cells (Z.min 2 (rows resized)) (Z.min 3 (cols resized)))
  end.
Proof.
  destruct frames as [|frame rest]; intros Hmax; [reflexivity|].
  cbn [List.length] in Hmax. rewrite Nat2Z.inj_succ in Hmax.
  cbn [loop_log].
  pose proof (frame_debug_reports (mkConverter cs 0)
                (resize frame (mkSize asciiWidth asciiHeight) INTER_AREA)) as Hd.
  cbn [frameCount currentCharset] in Hd. change (0 =? 0) with true in Hd.
  pose proof (loop_log_quiet 1 rest ltac:(lia) ltac:(lia)) as Hq.
  change (int_add 0 1) with 1. change (int_rem 1 30 =? 0) with false.
  unfold pixel_reports in *.
  repeat (rewrite ?flat_map_app; cbn [flat_map app]).
  rewrite Hd, Hq. now rewrite app_nil_r.
Qed.

End Diagnostics.

(** ** Runs *)


Lemma frames_read_hole pre hole post :
  Forall (fun frame => Mat_empty frame = false) pre -> Mat_empty hole = true ->
  frames_read (pre ++ hole :: post) = pre.
Proof.
  intros Hpre Hhole. induction Hpre as [|f pre Hf _ IH].
  - cbn [app frames_read]. now rewrite Hhole.
  - cbn [app frames_read]. now rewrite Hf, IH.
Qed.

Section SuccessfulRuns.

Context {ops : ImageOps}.

Variables (w : World) (self : Converter) (inputPath outputPath : string).
Variables (asciiWidth asciiHeight : Z) (quality : double) (video : Video).

Hypothesis ramp : currentCharset self = ASCII_CHARS.
Hypothesis opened : video_at w inputPath = Some video.
Hypothesis height_defined :
  asciiHeight_of asciiWidth (v_width video) (v_height video) = Some asciiHeight.
Hypothesis codec :
  exists c, In c (codec_ids codecList) /\
            codec_opens w outputPath video asciiWidth asciiHeight c = true.

(** The log of a run that finds a codec, and what its parts contribute. *)
Lemma convert_success_log :
  let frames := frames_read (v_frames video) in
  let count := count_after 0 (List.length frames) in
  let loop := loop_log ASCII_CHARS asciiWidth asciiHeight
                (v_frame_count video) 0 frames in
  exists evs,
    convertToColorASCII w self inputPath outputPath asciiWidth quality =
      Some (true, mkConverter ASCII_CHARS count, evs) /\
    reads evs = reads loop /\
    written_frames evs = written_frames loop /\
    progress_reports evs = progress_reports loop /\
    pixel_reports evs = pixel_reports loop /\
    writer_sizes evs = [frameSize_of asciiWidth asciiHeight] /\
    In (EvOut (MsgDone count)) evs.
Proof.
  intros frames count loop.
  rewrite (convert_closed w self inputPath outputPath asciiWidth asciiHeight
             quality video ramp opened height_defined).
  destruct (find_some_exists _ _ codec) as (c & Hf & _).
  unfold codec_opens in Hf.
  destruct (open_writer_spec w outputPath (v_fps video)
              (frameSize_of asciiWidth asciiHeight) codecList)
    as (Ho1 & _ & Ho3 & _).
  destruct (open_writer_handles w outputPath (v_fps video)
              (frameSize_of asciiWidth asciiHeight) codecList)
    as (_ & Hs & Hr & Hp & Hx).
  cbn zeta in Ho1, Hs, Hr, Hp, Hx.
  destruct (open_writer w outputPath (v_fps video)
              (frameSize_of asciiWidth asciiHeight) codecList) as [r tried].
  cbn [fst snd] in *. rewrite Hf in Ho1. subst r. cbn [is_open] in Hs.
  destruct (messages_silent _ (testCharacterDisplay_messages
                                 (mkConverter ASCII_CHARS 0)))
    as (Ht1 & Ht2 & _ & Ht4 & _).
  destruct (testCharacterDisplay_no_reports (mkConverter ASCII_CHARS 0))
    as (Ht5 & Ht6).
  pose proof (loop_log_sizes ASCII_CHARS asciiWidth asciiHeight
                (v_frame_count video) 0 frames) as Hl.
  fold frames count loop. fold loop in Hl.
  eexists. split; [reflexivity|].
  split; [|split; [|split; [|split; [|split]]]].
  - rewrite !reads_app, Hr, Ht1.
    unfold run_header, run_footer, reads. cbn [filter List.length]. lia.
  - unfold written_frames in *. unfold run_header, run_footer.
    repeat (rewrite ?flat_map_app; cbn [flat_map app]).
    rewrite Ho3, Ht2. cbn [app]. now rewrite app_nil_r.
  - unfold progress_reports in *. unfold run_header, run_footer.
    repeat (rewrite ?flat_map_app; cbn [flat_map app]).
    rewrite Hp, Ht5. cbn [app]. now rewrite app_nil_r.
  - unfold pixel_reports in *. unfold run_header, run_footer.
    repeat (rewrite ?flat_map_app; cbn [flat_map app]).
    rewrite Hx, Ht6. cbn [app]. now rewrite app_nil_r.
  - unfold writer_sizes in *. unfold run_header, run_footer.
    repeat (rewrite ?flat_map_app; cbn [flat_map app]).
    rewrite Hs, Ht4, Hl. reflexivity.
  - unfold run_footer. rewrite !in_app_iff. do 5 right.
    cbn [In]. tauto.
Qed.

End SuccessfulRuns.

Lemma multiples_step n :
  0 <= n ->
  (n + 1) / 30 = n / 30 + (if (n + 1) mod 30 =? 0 then 1 else 0).
Proof.
  intros Hn.
  pose proof (Z.div_mod n 30 ltac:(lia)) as Hd.
  pose proof (Z.mod_pos_bound n 30 ltac:(lia)) as Hr.
  destruct (Z.eq_dec (n mod 30) 29) as [E|E].
  - assert (Hm : (n + 1) mod 30 = 0).
    { symmetry. apply (Z.mod_unique (n + 1) 30 (n / 30 + 1) 0); lia. }
    rewrite Hm. cbn [Z.eqb].
    symmetry. apply (Z.div_unique (n + 1) 30 (n / 30 + 1) 0); lia.
  - assert (Hm : (n + 1) mod 30 = n mod 30 + 1).
    { symmetry. apply (Z.mod_unique (n + 1) 30 (n / 30) (n mod 30 + 1)); lia. }
    rewrite Hm. destruct (Z.eqb_spec (n mod 30 + 1) 0) as [E0|_]; [lia|].
    rewrite Z.add_0_r.
    symmetry. apply (Z.div_unique (n + 1) 30 (n / 30) (n mod 30 + 1)); lia.
Qed.

(** Among the numbers 1 to [n] there are [n / 30] multiples of 30. *)
Lemma multiples_count n :
  Z.of_nat (List.length (filter (fun k => k mod 30 =? 0) (zrange 1 n))) =
  Z.of_nat n / 30.
Proof.
  induction n as [|n IH]; [reflexivity|].
  replace (Datatypes.S n) with (n + 1)%nat by lia.
  rewrite zrange_app, filter_app, length_app, Nat2Z.inj_add, IH.
  rewrite Nat2Z.inj_add. change (Z.of_nat 1) with 1.
  rewrite (multiples_step (Z.of_nat n)) by lia.
  cbn [zrange filter]. rewrite (Z.add_comm 1 (Z.of_nat n)).
  destruct ((Z.of_nat n + 1) mod 30 =? 0); reflexivity.
Qed.

Section RunTheorems.

Context {ops : ImageOps}.

(** X2. The main loop ends at the first empty frame, whatever follows it
    in the stream: with the video open and a codec that opens, the run
    succeeds, the frames written are the renderings of the frames before
    the empty one, the capture is asked for one frame more than is
    written, and the frame counter and the closing message give the
    number of frames written. *)
Theorem empty_frame_ends_run (w : World) (self : Converter)
  (inputPath outputPath : string) (asciiWidth asciiHeight : Z)
  (quality : double) (video : Video) (pre post : list Mat) (hole : Mat) :
  currentCharset self = ASCII_CHARS ->
  video_at w inputPath = Some video ->
  asciiHeight_of asciiWidth (v_width video) (v_height video) = Some asciiHeight ->
  (exists c, In c (codec_ids codecList) /\
             codec_opens w outputPath video asciiWidth asciiHeight c = true) ->
  v_frames video = pre ++ hole :: post ->
  Forall (fun frame => Mat_empty frame = false) pre ->
  Mat_empty hole = true ->
  Z.of_nat (List.length pre) <= INT_MAX ->
  exists self' evs,
    convertToColorASCII w self inputPath outputPath asciiWidth quality =
      Some (true, self', evs) /\
    written_frames evs = map (render_frame ASCII_CHARS asciiWidth asciiHeight) pre /\
    reads evs = Datatypes.S (List.length pre) /\
    frameCount self' = Z.of_nat (List.length pre) /\
    In (EvOut (MsgDone (Z.of_nat (List.length pre)))) evs.
Proof.
  intros Hcs Hopen Hh Hcodec Hframes Hpre Hhole Hmax.
  destruct (convert_success_log w self inputPath outputPath asciiWidth
              asciiHeight quality video Hcs Hopen Hh Hcodec)
    as (evs & Hrun & Hr & Hw & _ & _ & _ & Hdone).
  rewrite Hframes, (frames_read_hole pre hole post Hpre Hhole) in *.
  rewrite (count_after_small 0 (List.length pre)) in *
    by (unfold INT_MIN; lia).
  rewrite Z.add_0_l in *.
  eexists _, evs. split; [exact Hrun|].
  rewrite Hw, Hr, loop_log_written, loop_log_reads.
  repeat split. exact Hdone.
Qed.

(** X3. A progress line is printed after a frame exactly when the number
    of frames written so far is a multiple of 30: a run that writes [F]
    frames prints [F / 30] progress lines, for the counts 30, 60, ..., each
    with the declared number of frames and the percentage
    [count * 100.0 / totalFrames] in [double]. *)
Theorem progress_every_30 (w : World) (self : Converter)
  (inputPath outputPath : string) (asciiWidth asciiHeight : Z)
  (quality : double) (video : Video) :
  currentCharset self = ASCII_CHARS ->
  video_at w inputPath = Some video ->
  asciiHeight_of asciiWidth (v_width video) (v_height video) = Some asciiHeight ->
  (exists c, In c (codec_ids codecList) /\
             codec_opens w outputPath video asciiWidth asciiHeight c = true) ->
  Z.of_nat (List.length (frames_read (v_frames video))) <= INT_MAX ->
  exists self' evs,
    convertToColorASCII w self inputPath outputPath asciiWidth quality =
      Some (true, self', evs) /\
    progress_reports evs =
      map (progress_report (v_frame_count video))
          (filter (fun k => k mod 30 =? 0)
                  (zrange 1 (List.length (frames_read (v_frames video))))) /\
    Z.of_nat (List.length (progress_reports evs)) =
      Z.of_nat (List.length (written_frames evs)) / 30.
Proof.
  intros Hcs Hopen Hh Hcodec Hmax.
  destruct (convert_success_log w self inputPath outputPath asciiWidth
              asciiHeight quality video Hcs Hopen Hh Hcodec)
    as (evs & Hrun & _ & Hw & Hp & _).
  eexists _, evs. split; [exact Hrun|].
  rewrite Hp, Hw, loop_log_written, length_map.
  rewrite loop_log_progress by (rewrite ?Z.add_0_l; lia || exact Hmax).
  split; [reflexivity|].
  rewrite length_map. apply multiples_count.
Qed.

(** X4. The diagnostic lines of the rasteriser are printed for the first
    frame of a run only, for its cells of the first two rows and the first
    three columns in row-major order, hence at most six lines; each gives
    the luminance and the glyph of its cell. *)
Theorem diagnostics_first_frame_only (w : World) (self : Converter)
  (inputPath outputPath : string) (asciiWidth asciiHeight : Z)
  (quality : double) (video : Video) :
  currentCharset self = ASCII_CHARS ->
  video_at w inputPath = Some video ->
  asciiHeight_of asciiWidth (v_width video) (v_height video) = Some asciiHeight ->
  (exists c, In c (codec_ids codecList) /\
             codec_opens w outputPath video asciiWidth asciiHeight c = true) ->
  Z.of_nat (List.length (frames_read (v_frames video))) <= INT_MAX ->
  exists self' evs,
    convertToColorASCII w self inputPath outputPath asciiWidth quality =
      Some (true, self', evs) /\
    pixel_reports evs =
      match frames_read (v_frames video) with
      | [] => []
      | frame :: _ =>
          let resized := resize frame (mkSize asciiWidth asciiHeight) INTER_AREA in
          map (pixel_report ASCII_CHARS resized)
              (grid_cells (Z.min 2 (rows resized)) (Z.min 3 (cols resized)))
      end /\
    (List.length (pixel_reports evs) <= 6)%nat.
Proof.
  intros Hcs Hopen Hh Hcodec Hmax.
  destruct (convert_success_log w self inputPath outputPath asciiWidth
              asciiHeight quality video Hcs Hopen Hh Hcodec)
    as (evs & Hrun & _ & _ & _ & Hx & _).
  eexists _, evs. split; [exact Hrun|].
  rewrite Hx, loop_log_reports by exact Hmax.
  split; [reflexivity|].
  destruct (frames_read (v_frames video)) as [|frame rest]; [cbn; lia|].
  cbn zeta. rewrite length_map, grid_cells_length. nia.
Qed.


End RunTheorems.

Section FrameSizes.

Context {ops : ImageOps} {laws : ImageOpsLaws ops}.

Lemma render_frame_size cs asciiWidth asciiHeight frame :
  0 < asciiWidth -> 0 < asciiHeight ->
  cols (render_frame cs asciiWidth asciiHeight frame) =
    sz_width (frameSize_of asciiWidth asciiHeight) /\
  rows (render_frame cs asciiWidth asciiHeight frame) =
    sz_height (frameSize_of asciiWidth asciiHeight).
Proof.
  intros Hw Hh. unfold render_frame, frameSize_of. cbn [sz_width sz_height].
  rewrite fold_putText_cols, fold_putText_rows. unfold Mat_black.
  cbn [rows cols].
  rewrite resize_cols, resize_rows by assumption. split; reflexivity.
Qed.

(** X6. The frames handed to the writer have the size the writer was
    opened with: for a grid of positive dimensions the writer is opened
    once successfully, with the frame size [asciiWidth * 6] by
    [asciiHeight * 12] in [int] arithmetic, and every frame written has
    exactly that many columns and rows ([cv::resize] and [cv::putText]
    being assumed to respect the sizes they are given). *)
Theorem written_frames_fit_writer (w : World) (self : Converter)
  (inputPath outputPath : string) (asciiWidth asciiHeight : Z)
  (quality : double) (video : Video) :
  currentCharset self = ASCII_CHARS ->
  video_at w inputPath = Some video ->
  asciiHeight_of asciiWidth (v_width video) (v_height video) = Some asciiHeight ->
  (exists c, In c (codec_ids codecList) /\
             codec_opens w outputPath video asciiWidth asciiHeight c = true) ->
  0 < asciiWidth -> 0 < asciiHeight ->
  exists self' evs size,
    convertToColorASCII w self inputPath outputPath asciiWidth quality =
      Some (true, self', evs) /\
    writer_sizes evs = [size] /\
    size = mkSize (int_mul asciiWidth ASCII_CHAR_WIDTH)
                  (int_mul asciiHeight ASCII_CHAR_HEIGHT) /\
    Forall (fun frame => cols frame = sz_width size /\ rows frame = sz_height size)
           (written_frames evs).
Proof.
  intros Hcs Hopen Hh Hcodec Hw0 Hh0.
  destruct (convert_success_log w self inputPath outputPath asciiWidth
              asciiHeight quality video Hcs Hopen Hh Hcodec)
    as (evs & Hrun & _ & Hw & _ & _ & Hs & _).
  eexists _, evs, _. split; [exact Hrun|]. split; [exact Hs|].
  split; [reflexivity|].
  rewrite Hw, loop_log_written. apply Forall_forall.
  intros frame Hin. apply in_map_iff in Hin as (f & <- & _).
  now apply render_frame_size.
Qed.

End FrameSizes.

(** ** The entry point, for every command line *)

Section EntryPointTotal.

Context {ops : ImageOps}.





End EntryPointTotal.

(** ** The two variants compared *)

Lemma file_events_app l1 l2 :
  file_events (l1 ++ l2) = file_events l1 ++ file_events l2.
Proof. apply filter_app. Qed.





Section VariantsCompared.

Context {ops : ImageOps}.

(** When [mp4v] or [avc1] opens, both variants obtain the same codec after
    the same calls. *)
Lemma opening_agrees w outputPath fps frameSize :
  writer_opens w outputPath (fourcc "m" "p" "4" "v") fps frameSize
  || writer_opens w outputPath (fourcc "a" "v" "c" "1") fps frameSize = true ->
  exists c tried1 tried2,
    open_writer_inline w outputPath fps frameSize = (Some c, tried1) /\
    open_writer w outputPath fps frameSize codecList = (Some c, tried2) /\
    file_events tried1 = file_events tried2.
Proof.
  intros H. unfold open_writer_inline, codecList. cbn [open_writer nth].
  destruct (writer_opens w outputPath (fourcc "m" "p" "4" "v") fps frameSize).
  - eexists _, _, _. repeat split.
  - cbn [orb] in H. rewrite H. eexists _, _, _. repeat split.
Qed.

Lemma convert_agrees w self inputPath outputPath asciiWidth quality :
  (forall fps frameSize,
     writer_opens w outputPath (fourcc "m" "p" "4" "v") fps frameSize
     || writer_opens w outputPath (fourcc "a" "v" "c" "1") fps frameSize = true) ->
  outcome (Inline.convertToColorASCII w self inputPath outputPath asciiWidth quality) =
  outcome (convertToColorASCII w self inputPath outputPath asciiWidth quality).
Proof.
  intros H. unfold Inline.convertToColorASCII, convertToColorASCII.
  destruct (video_at w inputPath) as [video|]; [|reflexivity].
  destruct (asciiHeight_of asciiWidth (v_width video) (v_height video))
    as [asciiHeight|]; [|reflexivity].
  cbn zeta.
  destruct (opening_agrees w outputPath (v_fps video)
              (mkSize (int_mul asciiWidth 6) (int_mul asciiHeight 12))
              (H _ _)) as (c & tried1 & tried2 & -> & E2 & Hfe).
  change ASCII_CHAR_WIDTH with 6. change ASCII_CHAR_HEIGHT with 12.
  rewrite E2, inline_process_frames.
  destruct (process_frames _ asciiWidth asciiHeight (v_frame_count video)
              (v_frames video)) as [[self' evs]|]; [|reflexivity].
  cbn [outcome]. rewrite !file_events_app, Hfe. reflexivity.
Qed.

(** X9. Where the writer opens with [mp4v] or [avc1] whenever it is asked
    to, the two variants of the program cannot be told apart by what they
    do to the outside: [convertToColorASCII] returns the same value, leaves
    the same converter and makes the same calls on the capture and on the
    writer, with the same frames, and [main] ends with the same exit
    status, for every command line. *)
Theorem variants_agree (w : World) :
  (forall outputPath fps frameSize,
     writer_opens w outputPath (fourcc "m" "p" "4" "v") fps frameSize
     || writer_opens w outputPath (fourcc "a" "v" "c" "1") fps frameSize = true) ->
  (forall self inputPath outputPath asciiWidth quality,
     outcome (Inline.convertToColorASCII w self inputPath outputPath
                asciiWidth quality) =
     outcome (convertToColorASCII w self inputPath outputPath asciiWidth quality)) /\
  (forall argv, exit_outcome (Inline.main w argv) = exit_outcome (main w argv)).
Proof.
  intros H. split.
  - intros self inputPath outputPath asciiWidth quality.
    apply convert_agrees. intros fps frameSize. apply H.
  - intros argv. unfold Inline.main, main.
    destruct (Z.of_nat (List.length argv) <? 3); [reflexivity|].
    change DEFAULT_ASCII_WIDTH with 80.
    destruct (if 4 <=? Z.of_nat (List.length argv)
              then atoi (nth 3 argv EmptyString) else Some 80) as [n|];
      [|reflexivity].
    change MIN_ASCII_WIDTH with 20. change MAX_ASCII_WIDTH with 300.
    destruct ((n <? 20) || (300 <? n)); [reflexivity|].
    unfold run_converter.
    pose proof (convert_agrees w new_converter (nth 1 argv EmptyString)
                  (nth 2 argv EmptyString) n d1 (H _)) as E.
    revert E. generalize new_converter as self. intros self E.
    destruct (Inline.convertToColorASCII w self _ _ n d1) as [[[r1 s1] e1]|],
             (convertToColorASCII w self _ _ n d1) as [[[r2 s2] e2]|];
      cbn [outcome] in E; try discriminate; [|reflexivity].
    assert (Hr : r1 = r2) by congruence.
    assert (He : file_events e1 = file_events e2) by congruence.
    subst r2. destruct r1; cbn [exit_outcome];
      rewrite !file_events_app, He; reflexivity.
Qed.

(** The inline variant in closed form. *)
Lemma inline_convert_closed w self inputPath outputPath asciiWidth asciiHeight
  quality video :
  currentCharset self = ASCII_CHARS ->
  video_at w inputPath = Some video ->
  asciiHeight_of asciiWidth (v_width video) (v_height video) = Some asciiHeight ->
  let opening := open_writer_inline w outputPath (v_fps video)
                   (frameSize_of asciiWidth asciiHeight) in
  let frames := frames_read (v_frames video) in
  let count := count_after 0 (List.length frames) in
  Inline.convertToColorASCII w self inputPath outputPath asciiWidth quality =
  Some (match fst opening with
        | None =>
            (false, self,
             run_header inputPath video ASCII_CHARS asciiWidth asciiHeight
             ++ snd opening ++ [EvReleaseCapture])
        | Some _ =>
            (true, mkConverter ASCII_CHARS count,
             run_header inputPath video ASCII_CHARS asciiWidth asciiHeight
             ++ snd opening
             ++ [EvOut MsgStart]
             ++ testCharacterDisplay (mkConverter ASCII_CHARS 0)
             ++ loop_log ASCII_CHARS asciiWidth asciiHeight
                  (v_frame_count video) 0 frames
             ++ run_footer outputPath count)
        end).
Proof.
  intros ramp opened height_defined opening frames count.
  unfold Inline.convertToColorASCII. rewrite opened, height_defined.
  cbn zeta. unfold opening, frameSize_of, run_header, frameSize_of.
  change ASCII_CHAR_WIDTH with 6. change ASCII_CHAR_HEIGHT with 12.
  cbn [sz_width sz_height].
  destruct (open_writer_inline w outputPath (v_fps video) _) as [[c|] tried].
  - cbn [fst snd]. rewrite inline_process_frames.
    rewrite (process_frames_closed (mkConverter (currentCharset self) 0)
               asciiWidth asciiHeight (v_frame_count video) (v_frames video) ramp).
    cbn [frameCount]. rewrite ramp. reflexivity.
  - cbn [fst snd]. rewrite ramp. reflexivity.
Qed.


(** X10. Where neither [mp4v] nor [avc1] opens but [X264] or [H264] does,
    the two variants differ: the inline variant gives up after two
    candidates, releases the capture and returns [false] without writing a
    frame, while the documented variant goes on to the remaining
    candidates and converts the video. *)
Theorem variants_differ (w : World) (self : Converter)
  (inputPath outputPath : string) (asciiWidth asciiHeight : Z)
  (quality : double) (video : Video) :
  currentCharset self = ASCII_CHARS ->
  video_at w inputPath = Some video ->
  asciiHeight_of asciiWidth (v_width video) (v_height video) = Some asciiHeight ->
  let opens := codec_opens w outputPath video asciiWidth asciiHeight in
  opens (fourcc "m" "p" "4" "v") = false ->
  opens (fourcc "a" "v" "c" "1") = false ->
  opens (fourcc "X" "2" "6" "4") = true \/ opens (fourcc "H" "2" "6" "4") = true ->
  (exists evs,
     Inline.convertToColorASCII w self inputPath outputPath asciiWidth quality =
       Some (false, self, evs) /\
     codecs_tried evs =
       [(fourcc "m" "p" "4" "v", false); (fourcc "a" "v" "c" "1", false)] /\
     written_frames evs = [] /\
     In EvReleaseCapture evs) /\
  (exists self' evs,
     convertToColorASCII w self inputPath outputPath asciiWidth quality =
       Some (true, self', evs) /\
     written_frames evs =
       map (render_frame ASCII_CHARS asciiWidth asciiHeight)
           (frames_read (v_frames video))).
Proof.
  intros ramp opened height_defined opens H1 H2 H34. split.
  - rewrite (inline_convert_closed w self inputPath outputPath asciiWidth
               asciiHeight quality video ramp opened height_defined).
    unfold open_writer_inline.
    unfold opens, codec_opens in H1, H2. rewrite H1, H2. cbn [fst snd].
    eexists. split; [reflexivity|]. unfold run_header.
    repeat split. rewrite !in_app_iff. right. right. now left.
  - assert (Hc : exists c, In c (codec_ids codecList) /\ opens c = true).
    { destruct H34 as [H|H]; eexists; (split; [|exact H]); cbn; tauto. }
    destruct (convert_success_log w self inputPath outputPath asciiWidth
                asciiHeight quality video ramp opened height_defined Hc)
      as (evs & Hrun & _ & Hw & _).
    eexists _, evs. split; [exact Hrun|].
    rewrite Hw. apply loop_log_written.
Qed.


End VariantsCompared.

(** ** The width argument *)

Lemma skip_space_app ws s :
  all_space ws = true -> skip_space (ws ++ s) = skip_space s.
Proof.
  induction ws as [|c ws IH]; intros H; [reflexivity|].
  cbn [all_space] in H. apply andb_true_iff in H as [Hc Hws].
  cbn [String.append skip_space]. rewrite Hc. now apply IH.
Qed.

Lemma atoi_skip_space ws s : all_space ws = true -> atoi (ws ++ s) = atoi s.
Proof. intros H. unfold atoi. now rewrite skip_space_app. Qed.

Lemma digits_then_rest ds rest :
  all_digits ds = true -> starts_with_digit rest = false ->
  digits_value 0 (ds ++ rest) = digits_value 0 ds.
Proof.
  intros Hd Hr. rewrite digits_value_app by exact Hd.
  now apply digits_value_stop.
Qed.

Lemma atoi_plus ds rest :
  all_digits ds = true -> starts_with_digit rest = false ->
  INT_MIN <= digits_value 0 ds <= INT_MAX ->
  atoi ("+" ++ ds ++ rest) = Some (digits_value 0 ds).
Proof.
  intros Hd Hr Hv. unfold atoi.
  change (skip_space ("+" ++ ds ++ rest)) with (String "+" (ds ++ rest)).
  cbv beta iota delta [Ascii.eqb Bool.eqb]. rewrite (digits_then_rest ds rest Hd Hr).
  destruct (Z.leb_spec INT_MIN (digits_value 0 ds)); [|lia].
  destruct (Z.leb_spec (digits_value 0 ds) INT_MAX); [|lia]. reflexivity.
Qed.

Lemma atoi_minus ds rest :
  all_digits ds = true -> starts_with_digit rest = false ->
  INT_MIN <= - digits_value 0 ds <= INT_MAX ->
  atoi ("-" ++ ds ++ rest) = Some (- digits_value 0 ds).
Proof.
  intros Hd Hr Hv. unfold atoi.
  change (skip_space ("-" ++ ds ++ rest)) with (String "-" (ds ++ rest)).
  cbv beta iota delta [Ascii.eqb Bool.eqb]. rewrite (digits_then_rest ds rest Hd Hr).
  destruct (Z.leb_spec INT_MIN (- digits_value 0 ds)); [|lia].
  destruct (Z.leb_spec (- digits_value 0 ds) INT_MAX); [|lia]. reflexivity.
Qed.

Lemma atoi_minus_undefined ds rest :
  all_digits ds = true -> starts_with_digit rest = false ->
  2 ^ 31 < digits_value 0 ds ->
  atoi ("-" ++ ds ++ rest) = None.
Proof.
  intros Hd Hr Hv. unfold atoi.
  change (skip_space ("-" ++ ds ++ rest)) with (String "-" (ds ++ rest)).
  cbv beta iota delta [Ascii.eqb Bool.eqb]. rewrite (digits_then_rest ds rest Hd Hr).
  destruct (Z.leb_spec INT_MIN (- digits_value 0 ds)) as [H|H]; [|reflexivity].
  unfold INT_MIN in H. lia.
Qed.

Lemma digits_value_nonneg acc s : 0 <= acc -> 0 <= digits_value acc s.
Proof.
  revert acc. induction s as [|c s IH]; intros acc Hacc; [exact Hacc|].
  cbn [digits_value]. destruct (digit_of c) as [d|] eqn:E; [|exact Hacc].
  apply IH. unfold digit_of in E.
  destruct ((48 <=? Z.of_nat (nat_of_ascii c)) && (Z.of_nat (nat_of_ascii c) <=? 57))
    eqn:Eb; [|discriminate].
  injection E as <-. apply andb_true_iff in Eb as [H1 _].
  apply Z.leb_le in H1. lia.
Qed.

Section WidthArgument.

Context {ops : ImageOps}.

(** X12. The forms of the width argument [std::atoi] admits: white space
    before the number is skipped and a plus sign is accepted, so that a
    width of 20 to 300 written with either is used like the bare number,
    whatever follows the digits. A number with a minus sign whose
    magnitude is at most 2^31, the magnitudes [int] can hold, is never
    accepted, the run ending with the range error and status 1 before any
    file is touched. With a larger magnitude the number has no value in
    [int]: the conversion by [std::atoi] is undefined, and so is the run. *)
Theorem width_argument_forms (w : World)
  (program inputPath outputPath ws ds rest : string) :
  all_space ws = true -> all_digits ds = true ->
  starts_with_digit rest = false ->
  (ds <> EmptyString ->
   MIN_ASCII_WIDTH <= digits_value 0 ds <= MAX_ASCII_WIDTH ->
   main w [program; inputPath; outputPath; (ws ++ ds ++ rest)%string] =
     run_converter w inputPath outputPath (digits_value 0 ds) /\
   main w [program; inputPath; outputPath; (ws ++ "+" ++ ds ++ rest)%string] =
     run_converter w inputPath outputPath (digits_value 0 ds)) /\
  (digits_value 0 ds <= 2 ^ 31 ->
   main w [program; inputPath; outputPath; (ws ++ "-" ++ ds ++ rest)%string] =
     Some (1, [EvErr (MsgWidthRange MIN_ASCII_WIDTH MAX_ASCII_WIDTH)])) /\
  (2 ^ 31 < digits_value 0 ds ->
   atoi (ws ++ "-" ++ ds ++ rest) = None /\
   main w [program; inputPath; outputPath; (ws ++ "-" ++ ds ++ rest)%string] =
     None).
Proof.
  intros Hws Hd Hr. split; [|split].
  - intros Hne Hv. split.
    + apply main_accepts; [|exact Hv].
      rewrite atoi_skip_space by exact Hws.
      rewrite (atoi_prefix ds rest Hd Hne Hr).
      apply atoi_digits; try assumption.
      unfold MIN_ASCII_WIDTH, MAX_ASCII_WIDTH, INT_MIN, INT_MAX in *. lia.
    + apply main_accepts; [|exact Hv].
      rewrite atoi_skip_space by exact Hws.
      apply atoi_plus; try assumption.
      unfold MIN_ASCII_WIDTH, MAX_ASCII_WIDTH, INT_MIN, INT_MAX in *. lia.
  - intros Hv.
    pose proof (digits_value_nonneg 0 ds ltac:(lia)) as H0.
    apply (main_rejects w program inputPath outputPath _ (- digits_value 0 ds)).
    + rewrite atoi_skip_space by exact Hws.
      apply atoi_minus; try assumption. unfold INT_MIN, INT_MAX. lia.
    + left. unfold MIN_ASCII_WIDTH. lia.
  - intros Hv.
    assert (Ha : atoi (ws ++ "-" ++ ds ++ rest) = None).
    { rewrite atoi_skip_space by exact Hws.
      apply atoi_minus_undefined; assumption. }
    split; [exact Ha|].
    unfold main. cbn [List.length nth].
    change (Z.of_nat 4 <? 3) with false. change (4 <=? Z.of_nat 4) with true.
    cbv iota. rewrite Ha. reflexivity.
Qed.

End WidthArgument.

(** ** The grid and the aspect ratio *)

(** X13. The grid keeps the aspect ratio of the video up to one row of
    text: for a video of [W] by [H] pixels and a width of [asciiWidth]
    cells the output frame of [6 * asciiWidth] by [12 * asciiHeight]
    pixels satisfies [12 * asciiHeight * W <= 6 * asciiWidth * H <
    12 * (asciiHeight + 1) * W], the halving in the grid height making up
    for the cells being twice as high as wide. The grid has no row at all
    exactly when [asciiWidth * H < 2 * W]. *)
Theorem aspect_ratio_kept (asciiWidth W H : Z) :
  0 < W -> 0 < H -> 0 <= asciiWidth -> 6 * asciiWidth * H <= INT_MAX ->
  exists asciiHeight,
    asciiHeight_of asciiWidth W H = Some asciiHeight /\
    frameSize_of asciiWidth asciiHeight =
      mkSize (6 * asciiWidth) (12 * asciiHeight) /\
    12 * asciiHeight * W <= 6 * asciiWidth * H < 12 * (asciiHeight + 1) * W /\
    (asciiHeight = 0 <-> asciiWidth * H < 2 * W).
Proof.
  intros HW HH Haw Hmax.
  assert (Hprod : asciiWidth * H <= INT_MAX) by nia.
  rewrite (asciiHeight_nonneg asciiWidth W H HW HH Haw Hprod).
  eexists. split; [reflexivity|].
  rewrite Z.div_div by lia.
  set (q := asciiWidth * H / (W * 2)).
  pose proof (Z.div_mod (asciiWidth * H) (W * 2) ltac:(lia)) as Hd.
  pose proof (Z.mod_pos_bound (asciiWidth * H) (W * 2) ltac:(lia)) as Hr.
  fold q in Hd.
  assert (Hq0 : 0 <= q) by (apply Z.div_pos; nia).
  assert (Hbounds : 2 * q * W <= asciiWidth * H < 2 * (q + 1) * W) by nia.
  split; [|split].
  - unfold frameSize_of, int_mul, ASCII_CHAR_WIDTH, ASCII_CHAR_HEIGHT.
    rewrite !wrap_int_small; [f_equal; lia| |];
      unfold INT_MIN, INT_MAX in *; nia.
  - nia.
  - split; intros Hz; nia.
Qed.

(** ** The brightness table and the layout of the glyphs *)

(** X14. The table of [testCharacterDisplay] and the mapper the table is
    about: the table lists the 70 glyphs of the ramp in order, glyph [i]
    with the brightness [i / 69] computed in [double], from 0.0 for the
    blank to 1.0 for the last glyph; fed that brightness, [getASCIIChar]
    selects glyph [i] again, except for the glyphs 11, 22, 44 and 63,
    where the product [(i / 69) * 69] falls just short of [i] and the glyph
    before is selected. *)
Theorem brightness_table_round_trip :
  let table := brightness_table (testCharacterDisplay new_converter) in
  map fst table = list_ascii_of_string ASCII_CHARS /\
  map snd table =
    map (fun i => ddiv (double_of_Z i) (double_of_Z 69)) (zrange 0 70) /\
  map (fun row => glyphIndex 70 (snd row)) table =
    map (fun i => Some (if existsb (Z.eqb i) [11; 22; 44; 63] then i - 1 else i))
        (zrange 0 70) /\
  nth_error (map snd table) 0 = Some d0 /\
  nth_error (map snd table) 69 = Some d1.
Proof. vm_compute. repeat split. Qed.

Lemma in_zrange x i n : In x (zrange i n) <-> i <= x < i + Z.of_nat n.
Proof.
  revert i. induction n as [|n IH]; intros i.
  - cbn [zrange In]. lia.
  - cbn [zrange In]. rewrite IH. lia.
Qed.

Lemma NoDup_zrange i n : NoDup (zrange i n).
Proof.
  revert i. induction n as [|n IH]; intros i; [constructor|].
  cbn [zrange]. constructor; [|apply IH].
  rewrite in_zrange. lia.
Qed.

Lemma in_grid_cells cell height width :
  In cell (grid_cells height width) <->
  0 <= fst cell < height /\ 0 <= snd cell < width.
Proof.
  unfold grid_cells. rewrite in_flat_map. split.
  - intros (y & Hy & Hin). apply in_map_iff in Hin as (x & <- & Hx).
    apply in_zrange in Hy, Hx. cbn [fst snd]. lia.
  - intros [Hy Hx]. exists (fst cell). split; [apply in_zrange; lia|].
    apply in_map_iff. exists (snd cell). split; [now destruct cell|].
    apply in_zrange. lia.
Qed.

Lemma NoDup_grid_cells height width : NoDup (grid_cells height width).
Proof.
  unfold grid_cells. generalize 0 at 2 as y0.
  induction (Z.to_nat height) as [|h IH]; intros y0; [constructor|].
  cbn [zrange flat_map]. apply NoDup_app.
  - apply NoDup_map_NoDup_ForallPairs; [|apply NoDup_zrange].
    intros x x' _ _ E. congruence.
  - apply IH.
  - intros cell Hin Hin'. apply in_map_iff in Hin as (x & <- & _).
    apply in_flat_map in Hin' as (y & Hy & Hin').
    apply in_map_iff in Hin' as (x' & E & _).
    apply in_zrange in Hy. injection E as E _. lia.
Qed.

(** X15. The layout of a frame: the text of the cell of column [x] and
    row [y] is anchored at the pixel [(6 * x, 12 * y + 10)], two pixel rows
    above the lower edge of the cell; every anchor lies inside the canvas
    of [6 * width] by [12 * height] pixels, within the rectangle of its own
    cell, and no two cells share an anchor. *)
Theorem text_anchors_in_cells (cs : string) (colorFrame : Mat) :
  rows colorFrame * 12 <= INT_MAX -> cols colorFrame * 6 <= INT_MAX ->
  map dc_org (frame_calls cs colorFrame) =
    map (fun cell => mkPoint (6 * snd cell) (12 * fst cell + 10))
        (grid_cells (rows colorFrame) (cols colorFrame)) /\
  Forall (fun d => 0 <= px (dc_org d) < 6 * cols colorFrame /\
                   0 <= py (dc_org d) < 12 * rows colorFrame)
         (frame_calls cs colorFrame) /\
  NoDup (map dc_org (frame_calls cs colorFrame)).
Proof.
  intros Hrows Hcols.
  assert (Horg : forall cell,
            In cell (grid_cells (rows colorFrame) (cols colorFrame)) ->
            dc_org (cell_draw (cell_glyph cs colorFrame cell)
                      (at_ colorFrame (fst cell) (snd cell)) (snd cell) (fst cell)) =
            mkPoint (6 * snd cell) (12 * fst cell + 10)).
  { intros [y x] Hin. apply in_grid_cells in Hin. cbn [fst snd] in *.
    unfold cell_draw. cbn [dc_org].
    unfold int_mul, int_add, int_sub, ASCII_CHAR_WIDTH, ASCII_CHAR_HEIGHT.
    unfold INT_MAX in *.
    rewrite (wrap_int_small (x * 6)) by (unfold INT_MIN, INT_MAX; lia).
    rewrite (wrap_int_small (y + 1)) by (unfold INT_MIN, INT_MAX; lia).
    rewrite (wrap_int_small ((y + 1) * 12)) by (unfold INT_MIN, INT_MAX; lia).
    rewrite wrap_int_small by (unfold INT_MIN, INT_MAX; lia).
    f_equal; lia. }
  assert (Hmap : map dc_org (frame_calls cs colorFrame) =
                 map (fun cell => mkPoint (6 * snd cell) (12 * fst cell + 10))
                     (grid_cells (rows colorFrame) (cols colorFrame))).
  { unfold frame_calls. rewrite map_map. apply map_ext_in. exact Horg. }
  split; [exact Hmap|]. split.
  - unfold frame_calls. apply Forall_forall. intros d Hd.
    apply in_map_iff in Hd as (cell & <- & Hin). rewrite (Horg cell Hin).
    apply in_grid_cells in Hin. cbn [px py]. lia.
  - rewrite Hmap. apply NoDup_map_NoDup_ForallPairs; [|apply NoDup_grid_cells].
    intros [y x] [y' x'] _ _ E.
    pose proof (f_equal px E) as E1. pose proof (f_equal py E) as E2.
    cbn [px py fst snd] in E1, E2. f_equal; lia.
Qed.

(** ** The further statements on concrete inputs *)

(** A video with an empty frame between two frames: one frame is written. *)
Lemma empty_frame_ends_run_witness :
  exists self' evs,
    convertToColorASCII (ops := sample_ops)
      (world_of holed_video (fun c => c =? fourcc "m" "p" "4" "v"))
      new_converter "miku.mp4" "ascii.mp4" 20 d1 = Some (true, self', evs) /\
    written_frames evs =
      map (render_frame (ops := sample_ops) ASCII_CHARS 20 5) [sample_frame 0 0 0] /\
    reads evs = 2%nat /\
    frameCount self' = 1 /\
    In (EvOut (MsgDone 1)) evs.
Proof.
  apply (empty_frame_ends_run (ops := sample_ops)
           (world_of holed_video (fun c => c =? fourcc "m" "p" "4" "v"))
           new_converter "miku.mp4" "ascii.mp4" 20 5 d1 holed_video
           [sample_frame 0 0 0] [sample_frame 10 200 255] Mat_none).
  - reflexivity.
  - reflexivity.
  - vm_compute. reflexivity.
  - exists (fourcc "m" "p" "4" "v"). split; [left|]; reflexivity.
  - reflexivity.
  - repeat constructor.
  - reflexivity.
  - vm_compute. discriminate.
Defined.

(** A video of 61 frames: two progress lines, after frames 30 and 60. *)
Lemma progress_every_30_witness :
  exists self' evs,
    convertToColorASCII (ops := sample_ops)
      (world_of long_video (fun c => c =? fourcc "m" "p" "4" "v"))
      new_converter "miku.mp4" "ascii.mp4" 20 d1 = Some (true, self', evs) /\
    progress_reports evs =
      map (progress_report (v_frame_count long_video))
          (filter (fun k => k mod 30 =? 0)
                  (zrange 1 (List.length (frames_read (v_frames long_video))))) /\
    Z.of_nat (List.length (progress_reports evs)) =
      Z.of_nat (List.length (written_frames evs)) / 30.
Proof.
  apply (progress_every_30 (ops := sample_ops)
           (world_of long_video (fun c => c =? fourcc "m" "p" "4" "v"))
           new_converter "miku.mp4" "ascii.mp4" 20 5 d1 long_video).
  - reflexivity.
  - reflexivity.
  - vm_compute. reflexivity.
  - exists (fourcc "m" "p" "4" "v"). split; [left|]; reflexivity.
  - vm_compute. discriminate.
Defined.

Lemma diagnostics_first_frame_only_witness :
  exists self' evs,
    convertToColorASCII (ops := sample_ops) sample_world new_converter
      "miku.mp4" "ascii.mp4" 20 d1 = Some (true, self', evs) /\
    pixel_reports evs =
      match frames_read (v_frames sample_video) with
      | [] => []
      | frame :: _ =>
          let resized := resize (ImageOps := sample_ops) frame
                           (mkSize 20 5) INTER_AREA in
          map (pixel_report ASCII_CHARS resized)
              (grid_cells (Z.min 2 (rows resized)) (Z.min 3 (cols resized)))
      end /\
    (List.length (pixel_reports evs) <= 6)%nat.
Proof.
  apply (diagnostics_first_frame_only (ops := sample_ops) sample_world
           new_converter "miku.mp4" "ascii.mp4" 20 5 d1 sample_video).
  - reflexivity.
  - reflexivity.
  - vm_compute. reflexivity.
  - exists (fourcc "a" "v" "c" "1"). split; [right; left|]; reflexivity.
  - vm_compute. discriminate.
Defined.


Lemma written_frames_fit_writer_witness :
  exists self' evs size,
    convertToColorASCII (ops := sample_ops) sample_world new_converter
      "miku.mp4" "ascii.mp4" 20 d1 = Some (true, self', evs) /\
    writer_sizes evs = [size] /\
    size = mkSize (int_mul 20 ASCII_CHAR_WIDTH) (int_mul 5 ASCII_CHAR_HEIGHT) /\
    Forall (fun frame => cols frame = sz_width size /\ rows frame = sz_height size)
           (written_frames evs).
Proof.
  apply (written_frames_fit_writer (ops := sample_ops) (laws := sample_ops_laws)
           sample_world new_converter "miku.mp4" "ascii.mp4" 20 5 d1 sample_video).
  - reflexivity.
  - reflexivity.
  - vm_compute. reflexivity.
  - exists (fourcc "a" "v" "c" "1"). split; [right; left|]; reflexivity.
  - lia.
  - lia.
Defined.




(** In [sample_world] the writer opens with [avc1], whatever is asked. *)
Lemma variants_agree_witness :
  (forall self inputPath outputPath asciiWidth quality,
     outcome (Inline.convertToColorASCII (ops := sample_ops) sample_world self
                inputPath outputPath asciiWidth quality) =
     outcome (convertToColorASCII (ops := sample_ops) sample_world self
                inputPath outputPath asciiWidth quality)) /\
  (forall argv,
     exit_outcome (Inline.main (ops := sample_ops) sample_world argv) =
     exit_outcome (main (ops := sample_ops) sample_world argv)).
Proof.
  apply (variants_agree (ops := sample_ops) sample_world).
  intros outputPath fps frameSize. reflexivity.
Defined.

(** A world that has [X264] only. *)
Lemma variants_differ_witness :
  (exists evs,
     Inline.convertToColorASCII (ops := sample_ops)
       (world_of sample_video (fun c => c =? fourcc "X" "2" "6" "4"))
       new_converter "miku.mp4" "ascii.mp4" 20 d1 =
       Some (false, new_converter, evs) /\
     codecs_tried evs =
       [(fourcc "m" "p" "4" "v", false); (fourcc "a" "v" "c" "1", false)] /\
     written_frames evs = [] /\
     In EvReleaseCapture evs) /\
  (exists self' evs,
     convertToColorASCII (ops := sample_ops)
       (world_of sample_video (fun c => c =? fourcc "X" "2" "6" "4"))
       new_converter "miku.mp4" "ascii.mp4" 20 d1 =
       Some (true, self', evs) /\
     written_frames evs =
       map (render_frame (ops := sample_ops) ASCII_CHARS 20 5)
           (frames_read (v_frames sample_video))).
Proof.
  apply (variants_differ (ops := sample_ops)
           (world_of sample_video (fun c => c =? fourcc "X" "2" "6" "4"))
           new_converter "miku.mp4" "ascii.mp4" 20 5 d1 sample_video).
  - reflexivity.
  - reflexivity.
  - vm_compute. reflexivity.
  - reflexivity.
  - reflexivity.
  - left. reflexivity.
Defined.


Lemma width_argument_forms_witness :
  (main (ops := sample_ops) sample_world
     ["miku"; "miku.mp4"; "ascii.mp4"; " " ++ "150" ++ "px"]%string =
     run_converter (ops := sample_ops) sample_world "miku.mp4" "ascii.mp4"
       (digits_value 0 "150") /\
   main (ops := sample_ops) sample_world
     ["miku"; "miku.mp4"; "ascii.mp4"; " " ++ "+" ++ "150" ++ "px"]%string =
     run_converter (ops := sample_ops) sample_world "miku.mp4" "ascii.mp4"
       (digits_value 0 "150")) /\
  main (ops := sample_ops) sample_world
    ["miku"; "miku.mp4"; "ascii.mp4"; " " ++ "-" ++ "150" ++ "px"]%string =
    Some (1, [EvErr (MsgWidthRange MIN_ASCII_WIDTH MAX_ASCII_WIDTH)]) /\
  atoi ("" ++ "-" ++ "4294967276" ++ "") = None /\
  main (ops := sample_ops) sample_world
    ["miku"; "miku.mp4"; "ascii.mp4"; "" ++ "-" ++ "4294967276" ++ ""]%string =
    None.
Proof.
  split; [|split].
  - apply (proj1 (width_argument_forms (ops := sample_ops) sample_world
                    "miku" "miku.mp4" "ascii.mp4" " " "150" "px"
                    eq_refl eq_refl eq_refl)).
    + discriminate.
    + cbv. split; discriminate.
  - apply (proj1 (proj2 (width_argument_forms (ops := sample_ops) sample_world
                           "miku" "miku.mp4" "ascii.mp4" " " "150" "px"
                           eq_refl eq_refl eq_refl))).
    cbv. discriminate.
  - apply (proj2 (proj2 (width_argument_forms (ops := sample_ops) sample_world
                           "miku" "miku.mp4" "ascii.mp4" "" "4294967276" ""
                           eq_refl eq_refl eq_refl))).
    cbv. reflexivity.
Defined.

(** A video of 1920 by 1080 pixels at 150 cells: 42 rows. *)
Lemma aspect_ratio_kept_witness :
  exists asciiHeight,
    asciiHeight_of 150 1920 1080 = Some asciiHeight /\
    frameSize_of 150 asciiHeight = mkSize (6 * 150) (12 * asciiHeight) /\
    12 * asciiHeight * 1920 <= 6 * 150 * 1080 < 12 * (asciiHeight + 1) * 1920 /\
    (asciiHeight = 0 <-> 150 * 1080 < 2 * 1920).
Proof.
  apply (aspect_ratio_kept 150 1920 1080); unfold INT_MAX; lia.
Defined.

Lemma text_anchors_in_cells_witness :
  map dc_org (frame_calls ASCII_CHARS (sample_frame 0 0 0)) =
    map (fun cell => mkPoint (6 * snd cell) (12 * fst cell + 10))
        (grid_cells (rows (sample_frame 0 0 0)) (cols (sample_frame 0 0 0))) /\
  Forall (fun d => 0 <= px (dc_org d) < 6 * cols (sample_frame 0 0 0) /\
                   0 <= py (dc_org d) < 12 * rows (sample_frame 0 0 0))
         (frame_calls ASCII_CHARS (sample_frame 0 0 0)) /\
  NoDup (map dc_org (frame_calls ASCII_CHARS (sample_frame 0 0 0))).
Proof.
  apply (text_anchors_in_cells ASCII_CHARS (sample_frame 0 0 0));
    vm_compute; discriminate.
Defined.

(** ** Division and addition of doubles *)

Lemma Zdigits2_quad m k :
  0 < m -> 0 <= k <= 3 -> Zdigits2 (4 * m + k) = Zdigits2 m + 2.
Proof.
  intros Hm Hk.
  destruct m as [|p|p]; try lia.
  destruct (4 * Zpos p + k) as [|q|q] eqn:E; try lia.
  rewrite !Zdigits2_log2. rewrite <- E.
  pose proof (Z.log2_spec (Zpos p) ltac:(lia)) as [Hlo Hhi]. unfold Z.succ in Hhi.
  pose proof (Z.log2_nonneg (Zpos p)) as Hl.
  assert (Z.log2 (4 * Zpos p + k) = Z.log2 (Zpos p) + 2); [|lia].
  apply Z.log2_unique; [lia|].
  replace (Z.succ (Z.log2 (Zpos p) + 2)) with (Z.log2 (Zpos p) + 1 + 2) by lia.
  rewrite !Z.pow_add_r by lia. rewrite Z.pow_add_r in Hhi by lia.
  change (2 ^ 2) with 4. change (2 ^ 1) with 2 in *. lia.
Qed.

(** Two steps to the right take the two bits of the code back to the
    position they stand for. *)
Lemma shr_code m l :
  0 <= m ->
  Nat.iter 2 shr_1 (Build_shr_record (4 * m + loc_code l) false false) =
  shr_record_of_loc m l.
Proof.
  intros Hm. cbn [Nat.iter nat_rect].
  rewrite shr_1_nonneg by (destruct l as [|[| |]]; cbn [loc_code]; lia).
  assert (Hh : (4 * m + loc_code l) / 2 = 2 * m + loc_code l / 2).
  { replace (4 * m + loc_code l) with (loc_code l + (2 * m) * 2) by lia.
    rewrite Z.div_add by lia. lia. }
  rewrite Hh.
  rewrite shr_1_nonneg
    by (destruct l as [|[| |]]; cbn [loc_code];
        change (0 / 2) with 0; change (1 / 2) with 0;
        change (2 / 2) with 1; change (3 / 2) with 1; lia).
  assert (Hq : (2 * m + loc_code l / 2) / 2 = m).
  { replace (2 * m + loc_code l / 2) with (loc_code l / 2 + m * 2) by lia.
    rewrite Z.div_add by lia.
    destruct l as [|[| |]]; reflexivity. }
  rewrite Hq.
  assert (Ho1 : Z.odd (4 * m + loc_code l) = Z.odd (loc_code l)).
  { replace (4 * m + loc_code l) with (loc_code l + 2 * (2 * m)) by lia.
    apply Z.odd_add_mul_2. }
  assert (Ho2 : Z.odd (2 * m + loc_code l / 2) = Z.odd (loc_code l / 2)).
  { replace (2 * m + loc_code l / 2) with (loc_code l / 2 + 2 * m) by lia.
    apply Z.odd_add_mul_2. }
  rewrite Ho1, Ho2.
  destruct l as [|[| |]]; reflexivity.
Qed.

(** Rounding a mantissa with a position is rounding the mantissa that
    carries the position in two further bits, provided the format does not
    ask for more bits than the mantissa has. *)
Lemma binary_round_aux_encode s m e l :
  0 < m -> e <= fexp 53 1024 (Zdigits2 m + e) ->
  binary_round_aux 53 1024 s m e l =
  binary_round_aux 53 1024 s (4 * m + loc_code l) (e - 2) loc_Exact.
Proof.
  intros Hm Hn.
  assert (Hk : 0 <= loc_code l <= 3) by (destruct l as [|[| |]]; cbn; lia).
  unfold binary_round_aux, shr_fexp.
  rewrite (Zdigits2_quad m (loc_code l) Hm Hk).
  replace (Zdigits2 m + 2 + (e - 2)) with (Zdigits2 m + e) by lia.
  set (E := fexp 53 1024 (Zdigits2 m + e)) in *.
  assert (Hs : shr (shr_record_of_loc (4 * m + loc_code l) loc_Exact) (e - 2)
                   (E - (e - 2)) =
               shr (shr_record_of_loc m l) e (E - e)).
  { cbn [shr_record_of_loc].
    destruct (E - (e - 2)) as [|p|p] eqn:Ep; try lia.
    unfold shr at 1. rewrite iter_pos_nat.
    replace (Pos.to_nat p) with (Z.to_nat (E - e) + 2)%nat by lia.
    rewrite Nat.iter_add, shr_code by lia.
    replace (e - 2 + Z.pos p) with E by lia.
    destruct (E - e) as [|q|q] eqn:Eq; try lia.
    - cbn [Z.to_nat Nat.iter nat_rect Nat.add]. unfold shr.
      replace E with e by lia. reflexivity.
    - unfold shr. rewrite iter_pos_nat.
      change (Z.to_nat (Z.pos q)) with (Pos.to_nat q).
      replace (e + Z.pos q) with E by lia. reflexivity. }
  rewrite Hs. reflexivity.
Qed.

Lemma new_location_code b r :
  0 < b -> 0 <= r < b ->
  loc_code (new_location b r) = remainder_code r b.
Proof.
  intros Hb Hr. unfold new_location, remainder_code.
  destruct (Z.even b) eqn:Eb.
  - unfold new_location_even. destruct (r =? 0); [reflexivity|].
    destruct (2 * r ?= b); reflexivity.
  - unfold new_location_odd. destruct (r =? 0); [reflexivity|].
    assert (Hodd : Z.odd b = true) by (rewrite <- Z.negb_even, Eb; reflexivity).
    apply Z.odd_spec in Hodd as [k Hk].
    destruct (Z.compare_spec (2 * r + 1) b), (Z.compare_spec (2 * r) b);
      try reflexivity; lia.
Qed.

(** The coded quotient grows with the dividend. *)
Lemma quotient_code_mono a a' b :
  0 < b -> 0 <= a <= a' -> quotient_code a b <= quotient_code a' b.
Proof.
  intros Hb [Ha Haa]. unfold quotient_code, remainder_code.
  pose proof (Z.div_mod a b ltac:(lia)) as Hd.
  pose proof (Z.div_mod a' b ltac:(lia)) as Hd'.
  pose proof (Z.mod_pos_bound a b Hb) as Hr.
  pose proof (Z.mod_pos_bound a' b Hb) as Hr'.
  assert (Hq : a / b <= a' / b) by (apply Z.div_le_mono; lia).
  destruct (Z.eq_dec (a / b) (a' / b)) as [E|NE].
  - assert (Hrr : a mod b <= a' mod b) by nia.
    rewrite E.
    destruct (Z.eqb_spec (a mod b) 0), (Z.eqb_spec (a' mod b) 0);
    destruct (Z.compare_spec (2 * (a mod b)) b),
             (Z.compare_spec (2 * (a' mod b)) b); lia.
  - destruct (a mod b =? 0), (a' mod b =? 0);
    destruct (2 * (a mod b) ?= b), (2 * (a' mod b) ?= b); lia.
Qed.

Lemma quotient_code_bounds a b :
  0 < b -> 0 <= a -> 4 * (a / b) <= quotient_code a b <= 4 * (a / b) + 3.
Proof.
  intros Hb Ha. unfold quotient_code, remainder_code.
  destruct (a mod b =? 0); [lia|]. destruct (2 * (a mod b) ?= b); lia.
Qed.

(** *** Rounding once more *)

Lemma Zround_zero : Zround 0 0 = 0.
Proof. reflexivity. Qed.

Lemma Zround_pos X : 0 < X -> 0 < Zround 0 X.
Proof.
  intros HX. pose proof (Z.log2_nonneg X) as Hl.
  pose proof (Zround_ge_pow2 0 X HX Hl) as H.
  assert (0 < 2 ^ Z.log2 X) by (apply Z.pow_pos_nonneg; lia). lia.
Qed.

Lemma Zround_mono0 X Y : 0 <= X -> X <= Y -> Zround 0 X <= Zround 0 Y.
Proof.
  intros HX HXY. destruct (Z.eq_dec X 0) as [->|Hne].
  - rewrite Zround_zero. destruct (Z.eq_dec Y 0) as [->|HY]; [reflexivity|].
    apply Z.lt_le_incl, Zround_pos. lia.
  - apply Zround_mono; lia.
Qed.

(** The value of a normal double is unchanged by rounding. *)
Lemma Zround_normal (m : positive) e :
  2 ^ 52 <= Zpos m < 2 ^ 53 -> -1074 <= e ->
  Zround 0 (Zpos m * 2 ^ (e + 1074)) = Zpos m * 2 ^ (e + 1074).
Proof.
  intros Hm He.
  apply Zround_exact with (p := Zpos m).
  rewrite Z.log2_mul_pow2 by lia. rewrite (log2_normal m Hm).
  do 2 f_equal. lia.
Qed.

Lemma scaled_normal_pos x : normal x -> 0 < scaled x.
Proof.
  destruct x as [s|s| |[|] m e]; cbn [normal scaled]; try tauto.
  intros [Hm He]. apply Z.mul_pos_pos; [lia|]. apply Z.pow_pos_nonneg; lia.
Qed.

Lemma scaled_round x : zero_or_normal x -> Zround 0 (scaled x) = scaled x.
Proof.
  intros [->|H]; [reflexivity|].
  destruct x as [s|s| |[|] m e]; cbn [normal scaled] in *; try tauto.
  apply Zround_normal; lia.
Qed.

Lemma scaled_nonneg x : 0 <= scaled x.
Proof.
  destruct x as [s|s| |[|] m e]; cbn [scaled]; try lia.
Qed.

(** Rounding a mantissa of at least 53 bits gives a normal double, whose
    value is the rounding of the value. *)
Lemma binary_round_aux_normal (m : positive) (e : Z) :
  2 ^ 52 <= Zpos m -> -1074 <= e -> Z.log2 (Zpos m) + 1 + e <= 1023 ->
  normal (binary_round_aux 53 1024 false (Zpos m) e loc_Exact) /\
  scaled (binary_round_aux 53 1024 false (Zpos m) e loc_Exact) =
    Zround 0 (Zpos m * 2 ^ (e + 1074)).
Proof.
  intros Hm He Hmag.
  pose proof (Z.log2_spec (Zpos m) ltac:(lia)) as [Hlo Hhi]. unfold Z.succ in Hhi.
  assert (Hd : 52 <= Z.log2 (Zpos m)) by (apply Z.log2_le_pow2; lia).
  pose proof (binary_round_aux_represents m e (-1074) He ltac:(lia) Hmag) as Hr.
  replace (-1074 - -1074) with 0 in Hr by lia.
  replace (e - -1074) with (e + 1074) in Hr by lia.
  set (V := Zround 0 (Zpos m * 2 ^ (e + 1074))) in *.
  assert (Hshape : normal (binary_round_aux 53 1024 false (Zpos m) e loc_Exact)).
  { unfold binary_round_aux, shr_fexp.
    rewrite Zdigits2_log2, fexp_b64. cbn [shr_record_of_loc].
    set (d := Z.log2 (Zpos m) + 1) in *.
    replace (Z.max (d + e - 53) (-1074)) with (d + e - 53) by lia.
    set (E := d + e - 53).
    destruct (Z_le_gt_dec (E - e) 0) as [Hk|Hk].
    - rewrite shr_nonpos by exact Hk.
      cbn [shr_m loc_of_shr_record round_nearest_even].
      rewrite Zdigits2_log2, fexp_b64. fold d.
      replace (Z.max (d + e - 53) (-1074)) with E by (unfold E; lia).
      cbn [shr_record_of_loc]. rewrite shr_nonpos by exact Hk. cbn [shr_m].
      destruct (Z.leb_spec e (1024 - 53)) as [_|Hbad]; [|unfold E, d in *; lia].
      cbn [normal]. assert (d = 53) by (unfold E in Hk; lia).
      unfold d in *. replace (Z.log2 (Zpos m) + 1) with 53 in Hhi by lia. lia.
    - rewrite shr_exact_pos by lia. cbn [shr_m]. rewrite rne_shr by lia.
      replace (e + (E - e)) with E by lia.
      set (k := E - e) in *.
      assert (Hpk : 0 < 2 ^ k) by (apply Z.pow_pos_nonneg; lia).
      assert (Hq : Zpos m / 2 ^ k < 2 ^ 53).
      { apply Z.div_lt_upper_bound; [lia|].
        rewrite <- Z.pow_add_r by lia.
        eapply Z.lt_le_trans; [exact Hhi|]. apply Z.pow_le_mono_r; lia. }
      assert (Hq2 : 2 ^ 52 <= Zpos m / 2 ^ k).
      { apply Z.div_le_lower_bound; [lia|].
        rewrite <- Z.pow_add_r by lia.
        eapply Z.le_trans; [|exact Hlo]. apply Z.pow_le_mono_r; unfold k, E, d; lia. }
      pose proof (Zrne_range (Zpos m) k ltac:(lia)) as [Hr1 Hr2].
      set (m1 := Zrne (Zpos m) k) in *.
      destruct m1 as [|p1|p1] eqn:Em1; try lia.
      rewrite Zdigits2_log2, fexp_b64.
      destruct (Z.eq_dec (Zpos p1) (2 ^ 53)) as [Htop|Htop].
      + rewrite Htop. change (Z.log2 (2 ^ 53)) with 53.
        replace (Z.max (53 + 1 + E - 53) (-1074) - E) with 1 by (unfold E, d; lia).
        rewrite shr_exact_pos by lia. cbn [shr_m].
        change (2 ^ 53 / 2 ^ 1) with (Zpos (2 ^ 52)). cbv iota.
        destruct (Z.leb_spec (E + 1) (1024 - 53)) as [_|Hbad];
          [|unfold E, d in *; lia].
        cbn [normal]. unfold E, d. lia.
      + assert (Hl1 : Z.log2 (Zpos p1) = 52)
          by (apply Z.log2_unique; [lia|change (Z.succ 52) with 53; lia]).
        rewrite Hl1.
        rewrite shr_nonpos by (unfold E, d; lia).
        cbn [shr_record_of_loc shr_m].
        destruct (Z.leb_spec E (1024 - 53)) as [_|Hbad]; [|unfold E, d in *; lia].
        cbn [normal]. unfold E, d. lia. }
  split; [exact Hshape|].
  destruct (binary_round_aux 53 1024 false (Zpos m) e loc_Exact)
    as [s|s| |[|] m' e']; cbn [normal represents scaled] in *; try tauto.
  destruct Hr as [_ Hr]. rewrite Hr. reflexivity.
Qed.

(** *** Products, sums and quotients of normal doubles *)

Lemma div_eucl_div_mod a b : Z.div_eucl a b = (a / b, a mod b).
Proof. unfold Z.div, Z.modulo. now destruct (Z.div_eucl a b). Qed.

(** The product of a normal double and a small integer. *)
Lemma dmul_count_normal (mw : positive) (ew ch : Z) :
  2 ^ 52 <= Zpos mw < 2 ^ 53 -> -1000 <= ew <= 0 -> 0 <= ch < 2 ^ 53 ->
  zero_or_normal (dmul (S754_finite false mw ew) (double_of_Z ch)) /\
  scaled (dmul (S754_finite false mw ew) (double_of_Z ch)) =
    Zround 0 (Zpos mw * 2 ^ (ew + 1074) * ch).
Proof.
  intros Hmw Hew Hch. destruct (Z.eq_dec ch 0) as [->|Hne].
  - split; [left; reflexivity|]. rewrite Z.mul_0_r. reflexivity.
  - destruct (double_of_Z_pos ch ltac:(lia)) as (mn & en & -> & Hen & Hmn & Hnorm).
    unfold dmul. cbn [SFmul xorb].
    change (binary_round_aux prec emax) with (binary_round_aux 53 1024).
    change (Zpos mw * Zpos mn) with (Zpos (mw * mn)) in *.
    assert (Hprod : 2 ^ 104 <= Zpos (mw * mn) < 2 ^ 106).
    { rewrite Pos2Z.inj_mul.
      change (2 ^ 104) with (2 ^ 52 * 2 ^ 52).
      change (2 ^ 106) with (2 ^ 53 * 2 ^ 53). nia. }
    assert (Hlog : Z.log2 (Zpos (mw * mn)) < 106)
      by (apply Z.log2_lt_pow2; lia).
    destruct (binary_round_aux_normal (mw * mn) (ew + en)) as [Hn Hs];
      [lia|lia|lia|].
    split; [right; exact Hn|]. rewrite Hs. f_equal.
    rewrite Pos2Z.inj_mul, Hmn.
    replace (ew + en + 1074) with (ew + 1074 + en) by lia.
    assert (Hsplit : 2 ^ (ew + 1074) = 2 ^ (ew + 1074 + en) * 2 ^ (- en)).
    { rewrite <- Z.pow_add_r by lia. f_equal. lia. }
    rewrite Hsplit. ring.
Qed.

(** The sum of two doubles that are zero or normal. *)
Lemma dadd_normal x y :
  zero_or_normal x -> zero_or_normal y -> scaled x + scaled y < 2 ^ 2000 ->
  zero_or_normal (dadd x y) /\
  scaled (dadd x y) = Zround 0 (scaled x + scaled y).
Proof.
  intros [->|Hx] [->|Hy] Hmax.
  - split; [left; reflexivity|reflexivity].
  - destruct y as [s|s| |[|] my ey]; cbn [normal] in Hy; try tauto.
    split; [right; exact Hy|].
    change (scaled d0) with 0. rewrite Z.add_0_l.
    symmetry. apply scaled_round. right. cbn [normal]. exact Hy.
  - destruct x as [s|s| |[|] mx ex]; cbn [normal] in Hx; try tauto.
    split; [right; exact Hx|].
    change (scaled d0) with 0. rewrite Z.add_0_r.
    symmetry. apply scaled_round. right. cbn [normal]. exact Hx.
  - destruct x as [s|s| |[|] mx ex]; cbn [normal] in Hx; try tauto.
    destruct y as [s|s| |[|] my ey]; cbn [normal] in Hy; try tauto.
    destruct Hx as [Hmx Hex], Hy as [Hmy Hey].
    cbn [scaled] in *.
    unfold dadd. cbn [SFadd cond_Zopp].
    set (ez := Z.min ex ey).
    destruct (shl_align_le mx ex ez ltac:(unfold ez; lia)) as (mx' & -> & Hmx').
    destruct (shl_align_le my ey ez ltac:(unfold ez; lia)) as (my' & -> & Hmy').
    cbn [fst]. change (Zpos mx' + Zpos my') with (Zpos (mx' + my')).
    assert (Hpx : 0 < 2 ^ (ex - ez)) by (apply Z.pow_pos_nonneg; unfold ez; lia).
    assert (Hpy : 0 < 2 ^ (ey - ez)) by (apply Z.pow_pos_nonneg; unfold ez; lia).
    assert (Hp : 2 ^ 52 <= Zpos (mx' + my')) by (rewrite Pos2Z.inj_add; nia).
    assert (Hval : Zpos (mx' + my') * 2 ^ (ez + 1074) =
                   Zpos mx * 2 ^ (ex + 1074) + Zpos my * 2 ^ (ey + 1074)).
    { rewrite Pos2Z.inj_add, Hmx', Hmy'.
      replace (ex + 1074) with (ex - ez + (ez + 1074)) by lia.
      replace (ey + 1074) with (ey - ez + (ez + 1074)) by lia.
      rewrite (Z.pow_add_r 2 (ex - ez)), (Z.pow_add_r 2 (ey - ez))
        by (unfold ez; lia).
      ring. }
    assert (Hlog : Z.log2 (Zpos (mx' + my')) + 1 + ez <= 1023).
    { assert (Hlt : Zpos (mx' + my') * 2 ^ (ez + 1074) < 2 ^ 2000)
        by (rewrite Hval; exact Hmax).
      assert (Hl : Z.log2 (Zpos (mx' + my') * 2 ^ (ez + 1074)) < 2000).
      { apply Z.log2_lt_pow2; [|exact Hlt].
        apply Z.mul_pos_pos; [lia|]. apply Z.pow_pos_nonneg; unfold ez; lia. }
      rewrite Z.log2_mul_pow2 in Hl by (unfold ez; lia). lia. }
    assert (Hd : 52 <= Z.log2 (Zpos (mx' + my'))) by (apply Z.log2_le_pow2; lia).
    unfold binary_normalize, binary_round.
    change (Zpos (digits2_pos (mx' + my'))) with (Zdigits2 (Zpos (mx' + my'))).
    rewrite Zdigits2_log2. change (fexp prec emax) with (fexp 53 1024).
    rewrite fexp_b64.
    assert (Hal : shl_align (mx' + my') ez
                    (Z.max (Z.log2 (Zpos (mx' + my')) + 1 + ez - 53) (-1074)) =
                  (mx' + my', ez)%positive).
    { unfold shl_align.
      destruct (Z.max (Z.log2 (Zpos (mx' + my')) + 1 + ez - 53) (-1074) - ez)
        as [|p|p] eqn:E; try reflexivity. lia. }
    rewrite Hal. change (binary_round_aux prec emax) with (binary_round_aux 53 1024).
    destruct (binary_round_aux_normal (mx' + my') ez Hp ltac:(unfold ez; lia) Hlog)
      as [Hn Hs].
    split; [right; exact Hn|]. rewrite Hs, Hval. reflexivity.
Qed.

(** The quotient of two normal doubles. *)
Lemma ddiv_normal (mx my : positive) (ex ey : Z) :
  2 ^ 52 <= Zpos mx < 2 ^ 53 -> 2 ^ 52 <= Zpos my < 2 ^ 53 ->
  -1019 <= ex - ey <= 1020 ->
  normal (ddiv (S754_finite false mx ex) (S754_finite false my ey)) /\
  scaled (ddiv (S754_finite false mx ex) (S754_finite false my ey)) =
    Zround 0 (quotient_code (Zpos mx * 2 ^ 53) (Zpos my)
              * 2 ^ (ex - ey - 55 + 1074)).
Proof.
  intros Hmx Hmy He.
  unfold ddiv. cbn [SFdiv xorb]. unfold SFdiv_core_binary.
  rewrite !Zdigits2_log2, (log2_normal mx Hmx), (log2_normal my Hmy).
  change (fexp prec emax) with (fexp 53 1024). rewrite fexp_b64.
  replace (Z.min (Z.max (52 + 1 + ex - (52 + 1 + ey) - 53) (-1074)) (ex - ey))
    with (ex - ey - 53) by lia.
  replace (ex - ey - (ex - ey - 53)) with 53 by lia.
  cbv iota. rewrite Z.shiftl_mul_pow2 by lia.
  rewrite div_eucl_div_mod.
  set (a := Zpos mx * 2 ^ 53). set (b := Zpos my).
  set (e' := ex - ey - 53).
  assert (Hb : 0 < b) by (unfold b; lia).
  assert (Ha : 0 <= a) by (unfold a; lia).
  assert (Hq1 : 2 ^ 52 <= a / b).
  { apply Z.div_le_lower_bound; [exact Hb|]. unfold a, b.
    change (2 ^ 53) with (2 * 2 ^ 52). nia. }
  assert (Hq2 : a / b < 2 ^ 54).
  { apply Z.div_lt_upper_bound; [exact Hb|]. unfold a, b.
    change (2 ^ 54) with (2 ^ 53 * 2). change (2 ^ 53) with (2 * 2 ^ 52) at 1.
    nia. }
  pose proof (Z.mod_pos_bound a b Hb) as Hr.
  change (binary_round_aux prec emax) with (binary_round_aux 53 1024).
  assert (Hdq : 53 <= Zdigits2 (a / b)).
  { destruct (a / b) as [|q|q] eqn:Eq; try lia.
    rewrite Zdigits2_log2.
    assert (52 <= Z.log2 (Zpos q)) by (apply Z.log2_le_pow2; lia). lia. }
  rewrite binary_round_aux_encode
    by (try lia; rewrite fexp_b64; lia).
  rewrite (new_location_code b (a mod b) Hb Hr).
  fold (quotient_code a b).
  pose proof (quotient_code_bounds a b Hb Ha) as [Hy1 Hy2].
  destruct (quotient_code a b) as [|y|y] eqn:Ey; try lia.
  assert (Hly : Z.log2 (Zpos y) < 56)
    by (apply Z.log2_lt_pow2; [lia|]; change (2 ^ 56) with (4 * 2 ^ 54); lia).
  destruct (binary_round_aux_normal y (e' - 2)) as [Hn Hs];
    [change (2 ^ 54) with (4 * 2 ^ 52) in *; lia|unfold e'; lia|unfold e'; lia|].
  split; [exact Hn|]. rewrite Hs.
  replace (e' - 2 + 1074) with (ex - ey - 55 + 1074) by (unfold e'; lia).
  reflexivity.
Qed.

(** *** Division by 255 is monotone *)

Lemma d255_bits : d255 = S754_finite false 8972014882652160 (-45).
Proof. vm_compute. reflexivity. Qed.

Lemma normal_order (m m' : positive) e e' :
  2 ^ 52 <= Zpos m < 2 ^ 53 -> 2 ^ 52 <= Zpos m' < 2 ^ 53 ->
  -1074 <= e -> -1074 <= e' ->
  Zpos m * 2 ^ (e + 1074) <= Zpos m' * 2 ^ (e' + 1074) ->
  e < e' \/ (e = e' /\ Zpos m <= Zpos m').
Proof.
  intros Hm Hm' He He' Hle.
  assert (Hp' : 0 < 2 ^ (e' + 1074)) by (apply Z.pow_pos_nonneg; lia).
  destruct (Z.lt_trichotomy e e') as [Hlt|[Heq|Hgt]].
  - now left.
  - right. split; [exact Heq|]. subst e'. nia.
  - exfalso.
    assert (Hs : 2 ^ (e + 1074) = 2 ^ (e - e') * 2 ^ (e' + 1074)).
    { rewrite <- Z.pow_add_r by lia. f_equal. lia. }
    assert (H2 : 2 <= 2 ^ (e - e')).
    { change 2 with (2 ^ 1) at 1. apply Z.pow_le_mono_r; lia. }
    rewrite Hs in Hle. change (2 ^ 53) with (2 * 2 ^ 52) in *. nia.
Qed.

Lemma scaled_exponent (m : positive) e :
  Zpos m < 2 ^ 53 -> 2 ^ 63 <= Zpos m * 2 ^ (e + 1074) -> -1064 <= e.
Proof.
  intros Hm Hv. destruct (Z_lt_le_dec e (-1064)) as [Hlt|Hge]; [|exact Hge].
  exfalso.
  destruct (Z_lt_le_dec (e + 1074) 0) as [Hn|Hn].
  - rewrite (Z.pow_neg_r 2 (e + 1074)) in Hv by lia. lia.
  - assert (2 ^ (e + 1074) <= 2 ^ 9) by (apply Z.pow_le_mono_r; lia).
    change (2 ^ 63) with (2 ^ 54 * 2 ^ 9) in Hv.
    change (2 ^ 54) with (2 * 2 ^ 53) in Hv. nia.
Qed.

(** For the divisor 255.0, the greatest coded quotient of a binade is at
    most the least one of the next binade. *)
Lemma binade_step_255 :
  quotient_code ((2 ^ 53 - 1) * 2 ^ 53) 8972014882652160 <=
  2 * quotient_code (2 ^ 52 * 2 ^ 53) 8972014882652160.
Proof. vm_compute. discriminate. Qed.

Lemma div255_mono x x' :
  normal x -> normal x' -> 2 ^ 63 <= scaled x -> scaled x <= scaled x' ->
  normal (ddiv x d255) /\ normal (ddiv x' d255) /\
  scaled (ddiv x d255) <= scaled (ddiv x' d255).
Proof.
  intros Hx Hx' Hlo Hle. rewrite d255_bits.
  destruct x as [s|s| |[|] m e]; cbn [normal] in Hx; try tauto.
  destruct x' as [s|s| |[|] m' e']; cbn [normal] in Hx'; try tauto.
  destruct Hx as [Hm He], Hx' as [Hm' He']. cbn [scaled] in Hlo, Hle.
  pose proof (scaled_exponent m e ltac:(lia) Hlo) as Hel.
  pose proof (scaled_exponent m' e' ltac:(lia) ltac:(lia)) as Hel'.
  set (b := 8972014882652160%positive).
  destruct (ddiv_normal m b e (-45) Hm ltac:(unfold b; lia) ltac:(lia))
    as [Hn Hs].
  destruct (ddiv_normal m' b e' (-45) Hm' ltac:(unfold b; lia) ltac:(lia))
    as [Hn' Hs'].
  split; [exact Hn|]. split; [exact Hn'|].
  rewrite Hs, Hs'.
  replace (e - -45 - 55 + 1074) with (e + 1064) by lia.
  replace (e' - -45 - 55 + 1074) with (e' + 1064) by lia.
  assert (Hb : 0 < Zpos b) by lia.
  assert (Hq0 : forall a, 0 <= a -> 0 <= quotient_code a (Zpos b)).
  { intros a Ha. pose proof (quotient_code_bounds a (Zpos b) Hb Ha) as [H _].
    pose proof (Z.div_pos a (Zpos b) Ha Hb). lia. }
  assert (Hp : 0 < 2 ^ (e + 1064)) by (apply Z.pow_pos_nonneg; lia).
  assert (Hp' : 0 < 2 ^ (e' + 1064)) by (apply Z.pow_pos_nonneg; lia).
  apply Zround_mono0.
  { apply Z.mul_nonneg_nonneg; [apply Hq0|]; lia. }
  destruct (normal_order m m' e e' Hm Hm' ltac:(lia) ltac:(lia) Hle)
    as [Hlt|[<- Hmm]].
  - pose proof (quotient_code_mono (Zpos m * 2 ^ 53) ((2 ^ 53 - 1) * 2 ^ 53)
                  (Zpos b) Hb ltac:(lia)) as H1.
    pose proof (quotient_code_mono (2 ^ 52 * 2 ^ 53) (Zpos m' * 2 ^ 53)
                  (Zpos b) Hb ltac:(lia)) as H2.
    pose proof binade_step_255 as H3.
    change 8972014882652160 with (Zpos b) in H3.
    pose proof (Hq0 (Zpos m * 2 ^ 53) ltac:(lia)) as G1.
    pose proof (Hq0 (2 ^ 52 * 2 ^ 53) ltac:(lia)) as G2.
    assert (Hs2 : 2 * 2 ^ (e + 1064) <= 2 ^ (e' + 1064)).
    { replace (2 * 2 ^ (e + 1064)) with (2 ^ (e + 1065))
        by (replace (e + 1065) with (1 + (e + 1064)) by lia;
            rewrite Z.pow_add_r by lia; reflexivity).
      apply Z.pow_le_mono_r; lia. }
    set (Q := quotient_code (Zpos m * 2 ^ 53) (Zpos b)) in *.
    set (Q' := quotient_code (Zpos m' * 2 ^ 53) (Zpos b)) in *.
    set (Qhi := quotient_code ((2 ^ 53 - 1) * 2 ^ 53) (Zpos b)) in *.
    set (Qlo := quotient_code (2 ^ 52 * 2 ^ 53) (Zpos b)) in *.
    apply Z.le_trans with (Qlo * (2 * 2 ^ (e + 1064))); [nia|].
    apply Z.le_trans with (Qlo * 2 ^ (e' + 1064)); [nia|nia].
  - apply Z.mul_le_mono_nonneg_r; [lia|].
    apply quotient_code_mono; [exact Hb|]. lia.
Qed.

(** *** The luminance of a pixel of bytes *)

Lemma Zround_upper X M : 0 <= X < 2 ^ M -> 0 <= M -> Zround 0 X <= 2 ^ M.
Proof.
  intros [H0 HM] HM0. destruct (Z.eq_dec X 0) as [->|Hne].
  - rewrite Zround_zero. apply Z.pow_nonneg. lia.
  - apply Zround_le_pow2; [lia| |exact HM0]. apply log2_lt_pow2'; lia.
Qed.

Lemma Zround_nonneg X : 0 <= X -> 0 <= Zround 0 X.
Proof. intros H. rewrite <- Zround_zero. apply Zround_mono0; lia. Qed.

Lemma weight_units_bounds (m : positive) e :
  2 ^ 52 <= Zpos m < 2 ^ 53 /\ -60 <= e <= -50 ->
  2 ^ 1066 <= Zpos m * 2 ^ (e + 1074) < 2 ^ 1077 /\
  Zround 0 (Zpos m * 2 ^ (e + 1074)) = Zpos m * 2 ^ (e + 1074).
Proof.
  intros [Hm He].
  assert (H1 : 2 ^ 1014 <= 2 ^ (e + 1074)) by (apply Z.pow_le_mono_r; lia).
  assert (H2 : 2 ^ (e + 1074) <= 2 ^ 1024) by (apply Z.pow_le_mono_r; lia).
  split; [|apply Zround_normal; lia].
  change (2 ^ 1066) with (2 ^ 52 * 2 ^ 1014).
  change (2 ^ 1077) with (2 ^ 53 * 2 ^ 1024).
  assert (0 < 2 ^ 1014) by (apply Z.pow_pos_nonneg; lia).
  assert (0 < 2 ^ 1024) by (apply Z.pow_pos_nonneg; lia).
  split; [apply Z.mul_le_mono_nonneg; lia|].
  apply Z.le_lt_trans with (Zpos m * 2 ^ 1024).
  - apply Z.mul_le_mono_nonneg_l; lia.
  - apply Z.mul_lt_mono_pos_r; lia.
Qed.

Lemma channel_product (m : positive) e ch :
  2 ^ 52 <= Zpos m < 2 ^ 53 /\ -60 <= e <= -50 -> 0 <= ch <= 255 ->
  zero_or_normal (dmul (S754_finite false m e) (double_of_Z ch)) /\
  scaled (dmul (S754_finite false m e) (double_of_Z ch)) =
    Zround 0 (Zpos m * 2 ^ (e + 1074) * ch) /\
  0 <= Zround 0 (Zpos m * 2 ^ (e + 1074) * ch) <= 2 ^ 1085.
Proof.
  intros Hw Hch. destruct (weight_units_bounds m e Hw) as [[Hlo Hhi] _].
  destruct Hw as [Hm He].
  destruct (dmul_count_normal m e ch Hm ltac:(lia)
              ltac:(change (2 ^ 53) with 9007199254740992; lia)) as [Hn Hs].
  split; [exact Hn|]. split; [exact Hs|].
  set (W := Zpos m * 2 ^ (e + 1074)) in *.
  assert (H0 : 0 <= W * ch) by nia.
  split; [apply Zround_nonneg; exact H0|].
  apply Zround_upper; [|lia]. split; [exact H0|].
  change (2 ^ 1085) with (2 ^ 1077 * 2 ^ 8). change (2 ^ 8) with 256.
  assert (0 < 2 ^ 1077) by (apply Z.pow_pos_nonneg; lia). nia.
Qed.

Lemma weighted_units_mono wr wg wb p p' :
  0 <= wr -> 0 <= wg -> 0 <= wb ->
  0 <= ch0 p -> 0 <= ch1 p -> 0 <= ch2 p -> no_brighter p p' ->
  0 <= weighted_units wr wg wb p <= weighted_units wr wg wb p'.
Proof.
  intros Hr Hg Hb H0 H1 H2 (L0 & L1 & L2). unfold weighted_units.
  assert (A : 0 <= Zround 0 (wr * ch2 p) <= Zround 0 (wr * ch2 p')).
  { split; [apply Zround_nonneg|apply Zround_mono0]; nia. }
  assert (B : 0 <= Zround 0 (wg * ch1 p) <= Zround 0 (wg * ch1 p')).
  { split; [apply Zround_nonneg|apply Zround_mono0]; nia. }
  assert (C : 0 <= Zround 0 (wb * ch0 p) <= Zround 0 (wb * ch0 p')).
  { split; [apply Zround_nonneg|apply Zround_mono0]; nia. }
  assert (D : 0 <= Zround 0 (Zround 0 (wr * ch2 p) + Zround 0 (wg * ch1 p)) <=
              Zround 0 (Zround 0 (wr * ch2 p') + Zround 0 (wg * ch1 p'))).
  { split; [apply Zround_nonneg|apply Zround_mono0]; lia. }
  split; [apply Zround_nonneg|apply Zround_mono0]; lia.
Qed.

Section WeightedSum.

Variables (mr mg mb : positive) (er eg eb : Z).

Hypothesis red_normal : 2 ^ 52 <= Zpos mr < 2 ^ 53 /\ -60 <= er <= -50.
Hypothesis green_normal : 2 ^ 52 <= Zpos mg < 2 ^ 53 /\ -60 <= eg <= -50.
Hypothesis blue_normal : 2 ^ 52 <= Zpos mb < 2 ^ 53 /\ -60 <= eb <= -50.

Lemma weighted_sum_generic p :
  byte_pixel p ->
  let S := dadd (dadd (dmul (S754_finite false mr er) (double_of_Z (ch2 p)))
                      (dmul (S754_finite false mg eg) (double_of_Z (ch1 p))))
                (dmul (S754_finite false mb eb) (double_of_Z (ch0 p))) in
  zero_or_normal S /\
  scaled S = weighted_units (Zpos mr * 2 ^ (er + 1074)) (Zpos mg * 2 ^ (eg + 1074))
               (Zpos mb * 2 ^ (eb + 1074)) p.
Proof.
  intros (Hb & Hg & Hr). cbn zeta. unfold weighted_units.
  destruct (channel_product mr er (ch2 p) red_normal Hr) as (Nr & Sr & Br).
  destruct (channel_product mg eg (ch1 p) green_normal Hg) as (Ng & Sg & Bg).
  destruct (channel_product mb eb (ch0 p) blue_normal Hb) as (Nb & Sb & Bb).
  assert (HK : 0 < 2 ^ 1085) by (apply Z.pow_pos_nonneg; lia).
  assert (H4 : 2 ^ 1087 = 4 * 2 ^ 1085) by reflexivity.
  assert (Hbig : 8 * 2 ^ 1085 < 2 ^ 2000).
  { change (8 * 2 ^ 1085) with (2 ^ 1088). apply Z.pow_lt_mono_r; lia. }
  set (K := 2 ^ 1085) in *.
  destruct (dadd_normal _ _ Nr Ng) as [N1 S1]; [rewrite Sr, Sg; lia|].
  rewrite Sr, Sg in S1.
  assert (B1 : 0 <= scaled (dadd (dmul (S754_finite false mr er) (double_of_Z (ch2 p)))
                                 (dmul (S754_finite false mg eg) (double_of_Z (ch1 p))))
               <= 2 ^ 1087).
  { rewrite S1. split; [apply Zround_nonneg; lia|].
    apply Zround_upper; lia. }
  destruct (dadd_normal _ _ N1 Nb) as [N2 S2]; [rewrite Sb; lia|].
  split; [exact N2|]. rewrite S2, S1, Sb. reflexivity.
Qed.

(** A pixel that is not black has a weighted sum of at least the least
    weight. *)
Lemma weighted_units_floor p :
  byte_pixel p -> ch0 p <> 0 \/ ch1 p <> 0 \/ ch2 p <> 0 ->
  2 ^ 1066 <= weighted_units (Zpos mr * 2 ^ (er + 1074)) (Zpos mg * 2 ^ (eg + 1074))
                (Zpos mb * 2 ^ (eb + 1074)) p.
Proof.
  intros (Hb & Hg & Hr) Hne.
  destruct (weight_units_bounds mr er red_normal) as [[Lr Ur] Rr].
  destruct (weight_units_bounds mg eg green_normal) as [[Lg Ug] Rg].
  destruct (weight_units_bounds mb eb blue_normal) as [[Lb Ub] Rb].
  set (wr := Zpos mr * 2 ^ (er + 1074)) in *.
  set (wg := Zpos mg * 2 ^ (eg + 1074)) in *.
  set (wb := Zpos mb * 2 ^ (eb + 1074)) in *.
  assert (P : 0 < 2 ^ 1066) by (apply Z.pow_pos_nonneg; lia).
  unfold weighted_units.
  assert (A : 0 <= Zround 0 (wr * ch2 p)) by (apply Zround_nonneg; nia).
  assert (B : 0 <= Zround 0 (wg * ch1 p)) by (apply Zround_nonneg; nia).
  assert (C : 0 <= Zround 0 (wb * ch0 p)) by (apply Zround_nonneg; nia).
  assert (D : 0 <= Zround 0 (Zround 0 (wr * ch2 p) + Zround 0 (wg * ch1 p)))
    by (apply Zround_nonneg; lia).
  assert (Hone : forall w ch, Zround 0 w = w -> 0 <= w -> 1 <= ch ->
                   w <= Zround 0 (w * ch)).
  { intros w ch Hw H0 H1. rewrite <- Hw at 1. apply Zround_mono0; nia. }
  assert (Hadd : forall w X, Zround 0 w = w -> 0 <= w -> w <= X ->
                   w <= Zround 0 X).
  { intros w X Hw H0 H1. rewrite <- Hw at 1. apply Zround_mono0; assumption. }
  destruct (Z.eq_dec (ch2 p) 0) as [E2|E2].
  - destruct (Z.eq_dec (ch1 p) 0) as [E1|E1].
    + assert (E0 : 1 <= ch0 p) by lia.
      pose proof (Hone wb (ch0 p) Rb ltac:(lia) E0) as H.
      apply Z.le_trans with wb; [lia|]. apply Hadd; [exact Rb|lia|lia].
    + pose proof (Hone wg (ch1 p) Rg ltac:(lia) ltac:(lia)) as H.
      apply Z.le_trans with wg; [lia|]. apply Hadd; [exact Rg|lia|].
      apply Z.le_trans with (Zround 0 (Zround 0 (wr * ch2 p) + Zround 0 (wg * ch1 p)));
        [|lia].
      apply Hadd; [exact Rg|lia|lia].
  - pose proof (Hone wr (ch2 p) Rr ltac:(lia) ltac:(lia)) as H.
    apply Z.le_trans with wr; [lia|]. apply Hadd; [exact Rr|lia|].
    apply Z.le_trans with (Zround 0 (Zround 0 (wr * ch2 p) + Zround 0 (wg * ch1 p)));
      [|lia].
    apply Hadd; [exact Rr|lia|lia].
Qed.

End WeightedSum.

Lemma red_weight_normal :
  2 ^ 52 <= Zpos 5386305154335113 < 2 ^ 53 /\ -60 <= -54 <= -50.
Proof. split; [split|]; [vm_compute; discriminate|reflexivity|lia]. Qed.

Lemma green_weight_normal :
  2 ^ 52 <= Zpos 5287225962532962 < 2 ^ 53 /\ -60 <= -53 <= -50.
Proof. split; [split|]; [vm_compute; discriminate|reflexivity|lia]. Qed.

Lemma blue_weight_normal :
  2 ^ 52 <= Zpos 8214565720323785 < 2 ^ 53 /\ -60 <= -56 <= -50.
Proof. split; [split|]; [vm_compute; discriminate|reflexivity|lia]. Qed.

Lemma luminance_split p : luminance p = ddiv (weighted_sum p) d255.
Proof. reflexivity. Qed.

Lemma zero_of_scaled x : zero_or_normal x -> scaled x = 0 -> x = d0.
Proof.
  intros [->|H] Hs; [reflexivity|].
  pose proof (scaled_normal_pos x H). lia.
Qed.

Lemma normal_of_scaled x : zero_or_normal x -> 0 < scaled x -> normal x.
Proof. intros [->|H] Hs; [cbn in Hs; lia|exact H]. Qed.

(** The weighted sum of a pixel of bytes is zero for the black pixel and a
    normal double of at least the least weight otherwise; its value grows
    with every channel. *)
Lemma weighted_sum_facts p p' :
  byte_pixel p -> byte_pixel p' -> no_brighter p p' ->
  zero_or_normal (weighted_sum p) /\ zero_or_normal (weighted_sum p') /\
  scaled (weighted_sum p) <= scaled (weighted_sum p') /\
  (scaled (weighted_sum p) = 0 \/ 2 ^ 1066 <= scaled (weighted_sum p)).
Proof.
  intros Hp Hp' Hle.
  destruct weights_bits as (Er & Eg & Eb).
  pose proof (weighted_sum_generic _ _ _ _ _ _ red_weight_normal
                green_weight_normal blue_weight_normal p Hp) as [N S].
  pose proof (weighted_sum_generic _ _ _ _ _ _ red_weight_normal
                green_weight_normal blue_weight_normal p' Hp') as [N' S'].
  cbn zeta in N, S, N', S'. rewrite <- Er, <- Eg, <- Eb in N, S, N', S'.
  fold (weighted_sum p) in N, S. fold (weighted_sum p') in N', S'.
  split; [exact N|]. split; [exact N'|].
  destruct Hp as (B0 & B1 & B2).
  destruct (weight_units_bounds _ _ red_weight_normal) as [[Lr _] _].
  destruct (weight_units_bounds _ _ green_weight_normal) as [[Lg _] _].
  destruct (weight_units_bounds _ _ blue_weight_normal) as [[Lb _] _].
  assert (P : 0 < 2 ^ 1066) by (apply Z.pow_pos_nonneg; lia).
  split.
  - rewrite S, S'. apply weighted_units_mono; try lia; exact Hle.
  - destruct (Z.eq_dec (ch0 p) 0) as [E0|E0];
    [destruct (Z.eq_dec (ch1 p) 0) as [E1|E1];
     [destruct (Z.eq_dec (ch2 p) 0) as [E2|E2]|]|].
    + left. rewrite S. unfold weighted_units. rewrite E0, E1, E2.
      rewrite !Z.mul_0_r. reflexivity.
    + right. rewrite S.
      apply (weighted_units_floor _ _ _ _ _ _ red_weight_normal
               green_weight_normal blue_weight_normal p); [repeat split; lia|tauto].
    + right. rewrite S.
      apply (weighted_units_floor _ _ _ _ _ _ red_weight_normal
               green_weight_normal blue_weight_normal p); [repeat split; lia|tauto].
    + right. rewrite S.
      apply (weighted_units_floor _ _ _ _ _ _ red_weight_normal
               green_weight_normal blue_weight_normal p); [repeat split; lia|tauto].
Qed.

Lemma no_brighter_refl p : no_brighter p p.
Proof. unfold no_brighter. lia. Qed.

(** The luminance of a pixel of bytes is zero or a normal double, and
    grows with every channel. *)
Lemma luminance_order p p' :
  byte_pixel p -> byte_pixel p' -> no_brighter p p' ->
  zero_or_normal (luminance p) /\ zero_or_normal (luminance p') /\
  scaled (luminance p) <= scaled (luminance p').
Proof.
  intros Hp Hp' Hle. rewrite !luminance_split.
  destruct (weighted_sum_facts p p' Hp Hp' Hle) as (N & N' & Hs & Hz).
  destruct (weighted_sum_facts p' p' Hp' Hp' (no_brighter_refl p'))
    as (_ & _ & _ & Hz').
  assert (Hzero : ddiv d0 d255 = d0) by (rewrite d255_bits; reflexivity).
  assert (P : 0 < 2 ^ 1066) by (apply Z.pow_pos_nonneg; lia).
  assert (P63 : 2 ^ 63 <= 2 ^ 1066) by (apply Z.pow_le_mono_r; lia).
  assert (Hn' : zero_or_normal (ddiv (weighted_sum p') d255)).
  { destruct Hz' as [Hz'|Hz'].
    - rewrite (zero_of_scaled _ N' Hz'), Hzero. left. reflexivity.
    - pose proof (normal_of_scaled _ N' ltac:(lia)) as Hn.
      destruct (div255_mono _ _ Hn Hn ltac:(lia) ltac:(lia)) as (H & _).
      right. exact H. }
  destruct Hz as [Hz|Hz].
  - rewrite (zero_of_scaled _ N Hz), Hzero.
    split; [left; reflexivity|]. split; [exact Hn'|]. apply scaled_nonneg.
  - pose proof (normal_of_scaled _ N ltac:(lia)) as Hn.
    pose proof (normal_of_scaled _ N' ltac:(lia)) as Hnn.
    destruct (div255_mono _ _ Hn Hnn ltac:(lia) Hs) as (H1 & H2 & H3).
    split; [right; exact H1|]. split; [right; exact H2|exact H3].
Qed.

Lemma byte_pixel_white : byte_pixel (mkVec3b 255 255 255).
Proof. unfold byte_pixel. cbn. lia. Qed.

Lemma luminance_at_most_one p :
  byte_pixel p -> zero_or_normal (luminance p) /\ scaled (luminance p) <= 2 ^ 1074.
Proof.
  intros Hp.
  destruct (luminance_order p (mkVec3b 255 255 255) Hp byte_pixel_white)
    as (N & _ & H).
  { destruct Hp as (H0 & H1 & H2). unfold no_brighter. cbn. lia. }
  split; [exact N|]. rewrite luminance_white in H. exact H.
Qed.

(** A normal double of value at most 1. *)
Lemma normal_unit (m : positive) e :
  2 ^ 52 <= Zpos m < 2 ^ 53 -> -1074 <= e ->
  Zpos m * 2 ^ (e + 1074) <= 2 ^ 1074 ->
  e <= -52 /\ Zpos m <= 2 ^ (- e).
Proof.
  intros Hm He Hv.
  assert (Hp : 0 < 2 ^ (e + 1074)) by (apply Z.pow_pos_nonneg; lia).
  assert (He52 : e <= -52).
  { destruct (Z_le_gt_dec e (-52)) as [H|H]; [exact H|]. exfalso.
    assert (2 ^ 1023 <= 2 ^ (e + 1074)) by (apply Z.pow_le_mono_r; lia).
    change (2 ^ 1074) with (2 ^ 51 * 2 ^ 1023) in Hv.
    assert (0 < 2 ^ 1023) by (apply Z.pow_pos_nonneg; lia).
    change (2 ^ 52) with (2 * 2 ^ 51) in Hm. nia. }
  split; [exact He52|].
  assert (Hs : 2 ^ 1074 = 2 ^ (- e) * 2 ^ (e + 1074)).
  { rewrite <- Z.pow_add_r by lia. f_equal. lia. }
  rewrite Hs in Hv. nia.
Qed.

Lemma clamp_normal_unit (m : positive) e :
  2 ^ 52 <= Zpos m < 2 ^ 53 -> e <= -52 -> Zpos m <= 2 ^ (- e) ->
  clamp_brightness (S754_finite false m e) = S754_finite false m e.
Proof.
  intros Hm He Hu. unfold clamp_brightness, std_max, std_min.
  destruct (dlt (S754_finite false m e) d1) eqn:E.
  - reflexivity.
  - assert (Hn : ~ (e < -52 \/ e = -52 /\ Zpos m < Zpos 4503599627370496)).
    { intros H. apply (dlt_finite_pos m e 4503599627370496 (-52)) in H.
      unfold d1 in E. congruence. }
    assert (He' : e = -52) by lia. subst e.
    change (2 ^ (- -52)) with (Zpos 4503599627370496) in Hu.
    assert (Hm' : m = 4503599627370496%positive) by lia.
    subst m. reflexivity.
Qed.

Lemma dle_of_scaled x y :
  zero_or_normal x -> zero_or_normal y -> scaled x <= scaled y -> dle x y = true.
Proof.
  intros [->|Hx] [->|Hy] Hle.
  - reflexivity.
  - destruct y as [s|s| |[|] my ey]; cbn [normal] in Hy; try tauto; try reflexivity.
  - pose proof (scaled_normal_pos x Hx). cbn in Hle. lia.
  - destruct x as [s|s| |[|] mx ex]; cbn [normal] in Hx; try tauto.
    destruct y as [s|s| |[|] my ey]; cbn [normal] in Hy; try tauto.
    cbn [scaled] in Hle. apply dle_finite_pos.
    destruct (normal_order mx my ex ey) as [H|[H1 H2]]; try tauto; try lia.
Qed.

(** X16. The luminance of a pixel of 8-bit channels, as the code computes
    it in [double] with its three rounded products, two rounded sums and
    rounded quotient (each operation rounded on its own), lies between 0.0
    and 1.0, so that the clamp of [getASCIIChar] leaves it unchanged; it is
    0.0 for the black pixel and 1.0 for the white one. *)
Theorem luminance_in_unit_interval (pixel : Vec3b) :
  byte_pixel pixel ->
  dle d0 (luminance pixel) = true /\ dle (luminance pixel) d1 = true /\
  clamp_brightness (luminance pixel) = luminance pixel /\
  luminance (mkVec3b 0 0 0) = d0 /\ luminance (mkVec3b 255 255 255) = d1.
Proof.
  intros Hp. destruct (luminance_at_most_one pixel Hp) as [N Hle].
  assert (N1 : zero_or_normal d1) by (right; cbn; lia).
  assert (N0 : zero_or_normal d0) by (left; reflexivity).
  split; [apply dle_of_scaled; [exact N0|exact N|apply scaled_nonneg]|].
  split; [apply dle_of_scaled; [exact N|exact N1|exact Hle]|].
  split; [|split; [vm_compute; reflexivity|exact luminance_white]].
  destruct N as [->|Hn]; [reflexivity|].
  destruct (luminance pixel) as [s|s| |[|] m e]; cbn [normal] in Hn; try tauto.
  cbn [scaled] in Hle.
  destruct (normal_unit m e ltac:(lia) ltac:(lia) Hle) as [He Hu].
  apply clamp_normal_unit; lia || assumption.
Qed.

(** X17. A brighter pixel never gets a sparser glyph: when no channel of a
    pixel of bytes exceeds the same channel of another, its luminance in
    [double] is at most that of the other, and on every ramp of 1 to
    [2^31] glyphs the index [getASCIIChar] computes for it is at most the
    index of the other. *)
Theorem brighter_pixel_denser_glyph (cs : string) (p p' : Vec3b) :
  1 <= Z.of_nat (String.length cs) <= 2 ^ 31 ->
  byte_pixel p -> byte_pixel p' -> no_brighter p p' ->
  dle (luminance p) (luminance p') = true /\
  exists i i',
    glyphIndex (Z.of_nat (String.length cs)) (luminance p) = Some i /\
    glyphIndex (Z.of_nat (String.length cs)) (luminance p') = Some i' /\
    0 <= i <= i' /\ i' < Z.of_nat (String.length cs).
Proof.
  intros HN Hp Hp' Hle. set (N := Z.of_nat (String.length cs)) in *.
  destruct (luminance_order p p' Hp Hp' Hle) as (Nx & Ny & Hs).
  destruct (luminance_at_most_one p Hp) as [_ Ux].
  destruct (luminance_at_most_one p' Hp') as [_ Uy].
  split; [apply dle_of_scaled; assumption|].
  destruct (glyphIndex_defined N (luminance p') HN (ddiv_mant_ok _ _))
    as (i' & Hi' & Hr').
  destruct (Z.eq_dec N 1) as [E1|E1].
  { exists 0, 0. rewrite E1, !glyphIndex_single. repeat split; lia. }
  assert (HN2 : 2 <= N <= 2 ^ 31) by lia.
  destruct Nx as [Ex|Hnx].
  { exists 0, i'. rewrite Ex. split; [apply (glyphIndex_zero N false HN2)|].
    split; [exact Hi'|]. lia. }
  pose proof (scaled_normal_pos _ Hnx) as Hpos.
  pose proof (normal_of_scaled _ Ny ltac:(lia)) as Hny.
  destruct (luminance p) as [s|s| |[|] m e]; cbn [normal] in Hnx; try tauto.
  destruct (luminance p') as [s|s| |[|] m' e']; cbn [normal] in Hny; try tauto.
  cbn [scaled] in Hs, Ux, Uy.
  destruct (normal_unit m e ltac:(lia) ltac:(lia) Ux) as [He Hu].
  destruct (normal_unit m' e' ltac:(lia) ltac:(lia) Uy) as [He' Hu'].
  assert (U : unit_pos m e) by (unfold unit_pos; lia).
  assert (U' : unit_pos m' e') by (unfold unit_pos; lia).
  destruct (glyphIndex_unit_pos N m e HN2 U
              (clamp_normal_unit m e ltac:(lia) He Hu))
    as (i & Hi & Hr & Ht & _).
  destruct (glyphIndex_unit_pos N m' e' HN2 U'
              (clamp_normal_unit m' e' ltac:(lia) He' Hu'))
    as (j & Hj & Hrj & Htj & _).
  exists i, j. split; [exact Hi|]. split; [exact Hj|].
  split; [|lia]. split; [lia|]. rewrite Ht, Htj.
  apply glyph_product_mono; [exact U|exact U'|unfold INT_MAX; lia|].
  destruct (normal_order m m' e e' ltac:(lia) ltac:(lia) ltac:(lia) ltac:(lia) Hs)
    as [Hlt|[<- Hmm]].
  - replace (Z.min e e') with e by lia. rewrite Z.sub_diag, Z.pow_0_r, Z.mul_1_r.
    assert (2 <= 2 ^ (e' - e)).
    { change 2 with (2 ^ 1) at 1. apply Z.pow_le_mono_r; lia. }
    change (2 ^ 53) with (2 * 2 ^ 52) in *. nia.
  - rewrite Z.min_id, Z.sub_diag, Z.pow_0_r. lia.
Qed.

Lemma luminance_in_unit_interval_witness :
  dle d0 (luminance (mkVec3b 9 140 6)) = true /\
  dle (luminance (mkVec3b 9 140 6)) d1 = true /\
  clamp_brightness (luminance (mkVec3b 9 140 6)) = luminance (mkVec3b 9 140 6) /\
  luminance (mkVec3b 0 0 0) = d0 /\ luminance (mkVec3b 255 255 255) = d1.
Proof.
  apply (luminance_in_unit_interval (mkVec3b 9 140 6)).
  unfold byte_pixel. cbn [ch0 ch1 ch2]. lia.
Defined.

Lemma brighter_pixel_denser_glyph_witness :
  dle (luminance (mkVec3b 9 140 6)) (luminance (mkVec3b 10 140 200)) = true /\
  exists i i',
    glyphIndex (Z.of_nat (String.length ASCII_CHARS)) (luminance (mkVec3b 9 140 6))
      = Some i /\
    glyphIndex (Z.of_nat (String.length ASCII_CHARS)) (luminance (mkVec3b 10 140 200))
      = Some i' /\
    0 <= i <= i' /\ i' < Z.of_nat (String.length ASCII_CHARS).
Proof.
  apply (brighter_pixel_denser_glyph ASCII_CHARS (mkVec3b 9 140 6)
           (mkVec3b 10 140 200)).
  - vm_compute. split; discriminate.
  - unfold byte_pixel. cbn [ch0 ch1 ch2]. lia.
  - unfold byte_pixel. cbn [ch0 ch1 ch2]. lia.
  - unfold no_brighter. cbn [ch0 ch1 ch2]. lia.
Defined.
